(** * The genetic-algorithm calibration engine of FRED's [fredpy] package

    A shallow embedding of
    - [fredpy/genetic_algorithm_calibration/parameter.py]
      ([Parameter], [BreedableParameter]),
    - [fredpy/genetic_algorithm_calibration/genetic_calibration_param_group.py]
      ([BreedableParameterGoup]),
    - [fredpy/genetic_algorithm_calibration/genetic_calibration.py]
      ([GeneticCalibration]),
    - the two generation-update functions of [bin/calibrate_opiod_params.py],
    followed by the properties of that code.

    Conventions.
    - Python exceptions are values of [exn]; a call that may raise returns a
      [result].  A method that mutates its receiver before it raises returns
      the receiver's new state next to the [result].
    - [random.random()] reads the next element of an explicit sequence of
      draws; [random.uniform(a, b)] is [a + (b - a) * random()], as in
      CPython's [random.py].
    - A Python [dict] is an association list in insertion order.
    - Python's [float] is the interface [PyFloat].  It has two instances:
      [float64], the IEEE 754 binary64 numbers Python computes with, and
      [exactQ], exact rational arithmetic.  Every definition is written once,
      over the interface.  Structural properties are proved for every
      instance; properties that need the laws of an ordered field are proved
      for [exactQ]; concrete runs use [float64] wherever rounding matters.
    - [math.sqrt] and [x ** 2] are the library's: the code is written over a
      square root and a squaring function, and a property says which ones
      it holds for. *)

From Stdlib Require Import String Bool Arith ZArith QArith Qabs Qminmax Lia Lqa Floats.
From Stdlib Require Import List Permutation Sorted.
Import ListNotations.

Set Warnings "-inexact-float".
Local Open Scope string_scope.
Local Open Scope list_scope.

(** ** Exceptions and the two effects of the code *)

Inductive exn : Type :=
| ValueError | IndexError | KeyError | ZeroDivisionError
| TypeError | NameError | AttributeError | OverflowError.

Inductive result (A : Type) : Type :=
| Ok (a : A)
| Raise (e : exn).
Arguments Ok {A} & a.
Arguments Raise {A} e.

Class Monad (m : Type -> Type) : Type := {
  ret : forall {A}, A -> m A;
  bind : forall {A B}, m A -> (A -> m B) -> m B
}.

Notation "'do' x <- c ;; k" := (bind c (fun x => k))
  (at level 10, x binder, c at level 100, k at level 200).

#[global] Instance result_monad : Monad result := {
  ret := fun A a => Ok a;
  bind := fun A B c k => match c with Ok a => k a | Raise e => Raise e end
}.

(** Python's [for x in xs: body], threading the loop's state [s]. *)
Fixpoint for_each {m : Type -> Type} `{Monad m} {A S : Type}
    (xs : list A) (s : S) (body : S -> A -> m S) : m S :=
  match xs with
  | [] => ret s
  | x :: xs' => do s' <- body s x ;; for_each xs' s' body
  end.

(** ** Python dictionaries, in insertion order *)

Section Dict.
Context {V : Type}.

Definition dict : Type := list (string * V).

Definition keys (d : dict) : list string := map fst d.

Fixpoint dict_find (k : string) (d : dict) : option V :=
  match d with
  | [] => None
  | (k', v) :: d' => if String.eqb k k' then Some v else dict_find k d'
  end.

(** [k in d.keys()] *)
Definition dict_mem (k : string) (d : dict) : bool :=
  match dict_find k d with Some _ => true | None => false end.

(** [d[k]] *)
Definition dict_get (k : string) (d : dict) : result V :=
  match dict_find k d with Some v => Ok v | None => Raise KeyError end.

(** [d[k] = v]: an existing key keeps its place, a new one goes last. *)
Fixpoint dict_set (k : string) (v : V) (d : dict) : dict :=
  match d with
  | [] => [(k, v)]
  | (k', v') :: d' =>
      if String.eqb k k' then (k', v) :: d' else (k', v') :: dict_set k v d'
  end.

(** [del d[k]] *)
Fixpoint dict_del (k : string) (d : dict) : result dict :=
  match d with
  | [] => Raise KeyError
  | (k', v') :: d' =>
      if String.eqb k k' then Ok d'
      else do d'' <- dict_del k d' ;; ret ((k', v') :: d'')
  end.
End Dict.
Arguments dict V : clear implicits.

(** [d1.keys() == d2.keys()]: the two key views hold the same keys. *)
Definition keys_eqb {V W : Type} (d1 : dict V) (d2 : dict W) : bool :=
  forallb (fun k => dict_mem k d2) (keys d1)
  && forallb (fun k => dict_mem k d1) (keys d2).

(** ** Python's float *)

Class PyFloat : Type := {
  num : Type;
  add : num -> num -> num;
  sub : num -> num -> num;
  mul : num -> num -> num;
  (** the quotient for a divisor that is not zero *)
  quot : num -> num -> num;
  absf : num -> num;
  ltb : num -> num -> bool;
  leb : num -> num -> bool;
  eqb : num -> num -> bool;
  zero : num;
  one : num;
  lit_0_001 : num;
  lit_0_1 : num;
  lit_0_85 : num;
  (** [sys.float_info.max] *)
  float_info_max : num
}.

(** IEEE 754 binary64, round to nearest even: CPython's [float]. *)
Definition float64 : PyFloat := {|
  num := float;
  add := PrimFloat.add;
  sub := PrimFloat.sub;
  mul := PrimFloat.mul;
  quot := PrimFloat.div;
  absf := PrimFloat.abs;
  ltb := PrimFloat.ltb;
  leb := PrimFloat.leb;
  eqb := PrimFloat.eqb;
  zero := 0%float;
  one := 1%float;
  lit_0_001 := 0.001%float;
  lit_0_1 := 0.1%float;
  lit_0_85 := 0.85%float;
  float_info_max := 0x1.fffffffffffffp+1023%float
|}.

Definition Qltb (x y : Q) : bool :=
  (Qnum x * QDen y <? Qnum y * QDen x)%Z.

(** Exact arithmetic on the rationals: no rounding, no infinities, no NaN. *)
Definition exactQ : PyFloat := {|
  num := Q;
  add := Qplus;
  sub := Qminus;
  mul := Qmult;
  quot := Qdiv;
  absf := Qabs.Qabs;
  ltb := Qltb;
  leb := Qle_bool;
  eqb := Qeq_bool;
  zero := 0%Q;
  one := 1%Q;
  lit_0_001 := (1 # 1000)%Q;
  lit_0_1 := (1 # 10)%Q;
  lit_0_85 := (85 # 100)%Q;
  float_info_max := ((2 ^ 1024 - 2 ^ 971) # 1)%Q
|}.

Section Calibration.
Context {F : PyFloat}.

(** [x / y]: Python raises [ZeroDivisionError] on a zero divisor. *)
Definition fdiv (x y : num) : result num :=
  if eqb y zero then Raise ZeroDivisionError else Ok (quot x y).

(** *** Randomness *)

(** The draws [random.random()] will return, the next one first. *)
Definition RNG : Type := nat -> num.

Definition M (A : Type) : Type := RNG -> result (A * RNG).

#[global] Instance M_monad : Monad M := {
  ret := fun A a g => Ok (a, g);
  bind := fun A B c k g =>
    match c g with Ok (a, g') => k a g' | Raise e => Raise e end
}.

Definition lift {A : Type} (c : result A) : M A :=
  fun g => match c with Ok a => Ok (a, g) | Raise e => Raise e end.

Definition random : M num :=
  fun g => Ok (g 0%nat, fun n => g (S n)).

(** [random.uniform(a, b)] *)
Definition uniform (a b : num) : M num :=
  do r <- random ;; ret (add a (mul (sub b a) r)).

(** *** parameter.py *)

Record PyParameter : Type := {
  name : string;
  val : num;
  min_val : num;
  max_val : num
}.

(** [Parameter.__init__] *)
Definition Parameter_init (name : string) (val min_val max_val : num)
  : result PyParameter :=
  if ltb val min_val || ltb max_val val then Raise ValueError
  else if leb max_val min_val then Raise ValueError
  else Ok {| name := name; val := val;
             min_val := min_val; max_val := max_val |}.

(** The setters of [Parameter]: [val] is assigned as it comes, [min_val]
    and [max_val] are checked against each other only. *)
Definition set_val (p : PyParameter) (value : num) : PyParameter :=
  {| name := name p; val := value;
     min_val := min_val p; max_val := max_val p |}.

Definition set_min_val (p : PyParameter) (value : num) : result PyParameter :=
  if leb (max_val p) value then Raise ValueError
  else Ok {| name := name p; val := val p;
             min_val := value; max_val := max_val p |}.

Definition set_max_val (p : PyParameter) (value : num) : result PyParameter :=
  if leb value (min_val p) then Raise ValueError
  else Ok {| name := name p; val := val p;
             min_val := min_val p; max_val := value |}.

Record BreedableParameter : Type := {
  base :> PyParameter;
  mutation_prob : num
}.

(** [BreedableParameter.__init__] *)
Definition BreedableParameter_init (name : string)
    (val min_val max_val mutation_prob : num) : result BreedableParameter :=
  do p <- Parameter_init name val min_val max_val ;;
  if ltb mutation_prob zero || ltb one mutation_prob then Raise ValueError
  else Ok {| base := p; mutation_prob := mutation_prob |}.

Definition clone (self : BreedableParameter) : result BreedableParameter :=
  BreedableParameter_init (name self) (val self) (min_val self)
                          (max_val self) (mutation_prob self).

Definition generate_random (name : string)
    (min_val max_val min_rnd_val max_rnd_val mutation_prob : num)
  : M BreedableParameter :=
  do x <- uniform min_rnd_val max_rnd_val ;;
  lift (BreedableParameter_init name x min_val max_val mutation_prob).

Definition breed (self other_param : BreedableParameter)
  : M BreedableParameter :=
  if negb (String.eqb (name self) (name other_param)) then
    lift (Raise ValueError)
  else if eqb (val self) (val other_param) then
    generate_random (name self) (min_val self) (max_val self)
                    (min_val self) (max_val self) (mutation_prob self)
  else
    do u <- uniform zero one ;;
    if ltb u (mutation_prob self) then
      do rnd <- uniform zero one ;;
      if ltb (val self) (val other_param) then
        let total_range :=
          add (sub (val self) (min_val self))
              (sub (max_val self) (val other_param)) in
        do share <- lift (fdiv (sub (val self) (min_val self)) total_range) ;;
        if ltb rnd share then
          generate_random (name self) (min_val self) (max_val self)
                          (min_val self) (val self) (mutation_prob self)
        else
          generate_random (name self) (min_val self) (max_val self)
                          (val other_param) (max_val self)
                          (mutation_prob self)
      else
        let total_range :=
          add (sub (val other_param) (min_val self))
              (sub (max_val self) (val self)) in
        do share <- lift (fdiv (sub (val other_param) (min_val self))
                            total_range) ;;
        if ltb rnd share then
          generate_random (name self) (min_val self) (max_val self)
                          (min_val self) (val other_param)
                          (mutation_prob self)
        else
          generate_random (name self) (min_val self) (max_val self)
                          (val self) (max_val self) (mutation_prob self)
    else if ltb (val self) (val other_param) then
      do x <- uniform (val self) (val other_param) ;;
      lift (BreedableParameter_init (name self) x (min_val self)
                                    (max_val self) (mutation_prob self))
    else
      do x <- uniform (val other_param) (val self) ;;
      lift (BreedableParameter_init (name self) x (min_val self)
                                    (max_val self) (mutation_prob self)).

Definition move_towards_value (self : BreedableParameter)
    (target rate : num) : result BreedableParameter :=
  if ltb rate zero || ltb one rate then Raise ValueError
  else
    let total_distance :=
      if ltb (max_val self) target then absf (sub (max_val self) (val self))
      else if ltb target (min_val self) then
        absf (sub (val self) (min_val self))
      else absf (sub target (val self)) in
    if ltb (val self) target then
      BreedableParameter_init (name self)
        (add (val self) (mul total_distance rate))
        (min_val self) (max_val self) (mutation_prob self)
    else if ltb target (val self) then
      BreedableParameter_init (name self)
        (sub (val self) (mul total_distance rate))
        (min_val self) (max_val self) (mutation_prob self)
    else
      BreedableParameter_init (name self) (val self)
        (min_val self) (max_val self) (mutation_prob self).


(** *** Python lists *)

(** [l[i]] for an index that is not negative *)
Definition list_get {A : Type} (l : list A) (i : nat) : result A :=
  match nth_error l i with Some x => Ok x | None => Raise IndexError end.

(** What [list.pop] can be handed in this code: an integer, or a list. *)
Inductive pyobj : Type :=
| PyInt (i : Z)
| PyList (items : list Z).

(** [l.pop(index)]: the popped item and the list that is left.  An index that
    is no integer is a [TypeError]. *)
Definition list_pop {A : Type} (l : list A) (index : pyobj)
  : result (A * list A) :=
  match index with
  | PyList _ => Raise TypeError
  | PyInt i =>
      let j := if (i <? 0)%Z then (i + Z.of_nat (length l))%Z else i in
      if (j <? 0)%Z then Raise IndexError
      else match nth_error l (Z.to_nat j) with
           | Some x => Ok (x, firstn (Z.to_nat j) l ++ skipn (S (Z.to_nat j)) l)
           | None => Raise IndexError
           end
  end.

(** *** genetic_calibration_param_group.py *)

Record BreedableParameterGoup : Type := {
  param_list : list BreedableParameter;
  param_index_dict : dict nat
}.

Definition BreedableParameterGoup_init : BreedableParameterGoup :=
  {| param_list := []; param_index_dict := [] |}.

Definition append (self : BreedableParameterGoup)
    (parameter : BreedableParameter) : result BreedableParameterGoup :=
  if dict_mem (name parameter) (param_index_dict self) then Raise ValueError
  else
    let l := param_list self ++ [parameter] in
    Ok {| param_list := l;
          param_index_dict :=
            dict_set (name parameter) (length l - 1)%nat
                     (param_index_dict self) |}.

(** The loop of [remove] over [self.__param_index_dict.items()]: every index
    above [idx] is written back one lower. *)
Definition shift_down (idx : nat) (d : dict nat) : dict nat :=
  fold_left
    (fun d' kv => if (idx <? snd kv)%nat
                  then dict_set (fst kv) (snd kv - 1)%nat d' else d')
    d d.

(** [remove] changes the group in place, so the group comes back whether or
    not the call raises. *)
Definition remove (self : BreedableParameterGoup)
    (parameter : BreedableParameter)
  : BreedableParameterGoup * result unit :=
  if dict_mem (name parameter) (param_index_dict self) then
    match dict_get (name parameter) (param_index_dict self) with
    | Raise e => (self, Raise e)
    | Ok idx =>
        let shifted := shift_down idx (param_index_dict self) in
        match dict_del (name parameter) shifted with
        | Raise e =>
            ({| param_list := param_list self;
                param_index_dict := shifted |}, Raise e)
        | Ok d =>
            (* self.__param_list.pop([idx]) *)
            match list_pop (param_list self) (PyList [Z.of_nat idx]) with
            | Raise e =>
                ({| param_list := param_list self;
                    param_index_dict := d |}, Raise e)
            | Ok (_, l) =>
                ({| param_list := l; param_index_dict := d |}, Ok tt)
            end
        end
    end
  else (self, Ok tt).

Definition get_as_dictionary (self : BreedableParameterGoup)
  : result (dict num) :=
  for_each (m := result) (param_index_dict self) []
    (fun ret_val kv =>
       do (p : BreedableParameter) <- list_get (param_list self) (snd kv) ;;
       ret (dict_set (fst kv) (val p) ret_val)).

Definition randomize (self : BreedableParameterGoup)
  : M BreedableParameterGoup :=
  for_each (m := M) (param_index_dict self) BreedableParameterGoup_init
    (fun new_group kv =>
       do (p : BreedableParameter) <- lift (list_get (param_list self) (snd kv)) ;;
       do new_param <- generate_random (name p) (min_val p) (max_val p)
                      (min_val p) (max_val p) (mutation_prob p) ;;
       lift (append new_group new_param)).

Definition BreedableParameterGoup_breed
    (self other_param_group : BreedableParameterGoup)
  : M BreedableParameterGoup :=
  if negb (length (param_list self)
           =? length (param_list other_param_group))%nat then
    lift (Raise ValueError)
  else if negb (keys_eqb (param_index_dict self)
                         (param_index_dict other_param_group)) then
    lift (Raise ValueError)
  else
    for_each (m := M) (param_index_dict self) BreedableParameterGoup_init
      (fun new_group kv =>
         do other_idx <- lift (dict_get (fst kv)
                                     (param_index_dict other_param_group)) ;;
         do (p : BreedableParameter) <- lift (list_get (param_list self) (snd kv)) ;;
         do q <- lift (list_get (param_list other_param_group) other_idx) ;;
         do child <- breed p q ;;
         lift (append new_group child)).

(** The first loop of [gradient_update_to_target]: one multiplier for every
    metric whose target and outcome are both not zero. *)
Definition compute_target_multipliers (outcomes targets : dict num)
  : result (dict num) :=
  for_each (m := result) outcomes []
    (fun target_multipliers kv =>
       do t <- dict_get (fst kv) targets ;;
       if eqb t zero || eqb (snd kv) zero then ret target_multipliers
       else
         do r <- fdiv (snd kv) t ;;
         do m <- fdiv one r ;;
         ret (dict_set (fst kv) m target_multipliers)).

(** The inner loop, which stops at the first metric whose weights name the
    parameter: the values of [found] and [target_param_val] after it. *)
Fixpoint scan_weights (self : BreedableParameterGoup)
    (target_multipliers : dict num) (param_name : string) (idx : nat)
    (weights : dict (dict num)) : result (bool * num) :=
  match weights with
  | [] => Ok (false, zero)
  | (target_name, weight_dict) :: rest =>
      if dict_mem param_name weight_dict then
        do (p : BreedableParameter) <- list_get (param_list self) idx ;;
        do w <- dict_get param_name weight_dict ;;
        do m <- dict_get target_name target_multipliers ;;
        ret (true, mul (mul (val p) w) m)
      else scan_weights self target_multipliers param_name idx rest
  end.

Definition BreedableParameterGoup_gradient_update_to_target
    (self : BreedableParameterGoup) (outcomes targets : dict num)
    (target_to_parameters_weights : dict (dict num))
  : result BreedableParameterGoup :=
  do target_multipliers <- compute_target_multipliers outcomes targets ;;
  for_each (m := result) (param_index_dict self) BreedableParameterGoup_init
    (fun new_group kv =>
       do (ft : bool * num) <- scan_weights self target_multipliers (fst kv) (snd kv)
                          target_to_parameters_weights ;;
       do (p : BreedableParameter) <- list_get (param_list self) (snd kv) ;;
       do new_param <- (if fst ft
                     then move_towards_value p (snd ft) lit_0_85
                     else clone p) ;;
       append new_group new_param).

(** *** genetic_calibration.py *)

Record GeneticCalibration : Type := {
  param_group : BreedableParameterGoup;
  targets : dict num;
  (** [None] stands for Python's [None] *)
  outcomes : option (dict num);
  target_to_parameters_weights : dict (dict num);
  threshold : num;
  evaluated_error : num;
  fred_key : option string
}.

Definition GeneticCalibration_init : GeneticCalibration :=
  {| param_group := BreedableParameterGoup_init;
     targets := [];
     outcomes := Some [];
     target_to_parameters_weights := [];
     threshold := lit_0_1;
     evaluated_error := float_info_max;
     fred_key := None |}.

(** [math.sqrt] is the library's: [sqrt] is its value on an argument that is
    not negative; a negative one is a [ValueError]. *)
Variable sqrt : num -> num.

Definition math_sqrt (x : num) : result num :=
  if ltb x zero then Raise ValueError else Ok (sqrt x).

(** [x ** 2] is the interpreter's and the C library's too: CPython answers
    for a NaN, an infinity, a zero and [1] or [-1] itself and hands every
    other [x] to the library's [pow], whose last bit the language does not
    fix, and it raises [OverflowError] when [pow] reports a result out of
    range.  [square x] is the value of [x ** 2], or that exception. *)
Variable square : num -> result num.

(** One metric's relative error, [(target - outcome) / target], over [0.001]
    when the target is zero. *)
Definition relative_error (target_value other_value : num) : result num :=
  if eqb target_value zero
  then fdiv (sub target_value other_value) lit_0_001
  else fdiv (sub target_value other_value) target_value.

(** The loop of [evaluate]. *)
Definition squared_error_loop (targets outcomes : dict num) : result num :=
  for_each (m := result) targets zero
    (fun squared_error kv =>
       do other_value <- dict_get (fst kv) outcomes ;;
       do e <- relative_error (snd kv) other_value ;;
       do e2 <- square e ;;
       ret (add squared_error e2)).

(** [evaluate] assigns [outcomes] before its loop and [evaluated_error]
    after it, so the candidate comes back whether or not the call raises. *)
Definition evaluate (self : GeneticCalibration) (outcomes' : dict num)
  : GeneticCalibration * result unit :=
  if negb (keys_eqb (targets self) outcomes') then (self, Raise ValueError)
  else
    let self1 :=
      {| param_group := param_group self; targets := targets self;
         outcomes := Some outcomes';
         target_to_parameters_weights := target_to_parameters_weights self;
         threshold := threshold self;
         evaluated_error := evaluated_error self;
         fred_key := fred_key self |} in
    match (do squared_error <- squared_error_loop (targets self) outcomes' ;;
           math_sqrt squared_error) with
    | Raise e => (self1, Raise e)
    | Ok err =>
        ({| param_group := param_group self; targets := targets self;
            outcomes := Some outcomes';
            target_to_parameters_weights := target_to_parameters_weights self;
            threshold := threshold self;
            evaluated_error := err;
            fred_key := fred_key self |}, Ok tt)
    end.

Definition evaluate_individual_error_contributions (self : GeneticCalibration)
  : result (dict num) :=
  match outcomes self with
  | None => Raise ValueError
  | Some outs =>
      (* the message of this raise reads the name [outcomes], which the
         method does not bind *)
      if negb (keys_eqb (targets self) outs) then Raise NameError
      else
        for_each (m := result) (targets self) []
          (fun ret_val kv =>
             do other_value <- dict_get (fst kv) outs ;;
             do e <- relative_error (snd kv) other_value ;;
             do e2 <- square e ;;
             do error <- math_sqrt e2 ;;
             ret (dict_set (fst kv) error ret_val))
  end.

(** The candidate [breed] and [gradient_update_to_target] return: a fresh
    one with the new group and [self]'s targets, threshold and weights. *)
Definition offspring (self : GeneticCalibration)
    (group : BreedableParameterGoup) : GeneticCalibration :=
  {| param_group := group;
     targets := targets self;
     outcomes := outcomes GeneticCalibration_init;
     target_to_parameters_weights := target_to_parameters_weights self;
     threshold := threshold self;
     evaluated_error := evaluated_error GeneticCalibration_init;
     fred_key := fred_key GeneticCalibration_init |}.

Definition GeneticCalibration_breed
    (self other_genetic_calibration : GeneticCalibration)
  : M GeneticCalibration :=
  if negb (length (param_list (param_group self))
           =? length (param_list (param_group other_genetic_calibration)))%nat
  then lift (Raise ValueError)
  else if negb (keys_eqb
                  (param_index_dict (param_group self))
                  (param_index_dict (param_group other_genetic_calibration)))
  then
    (* the message of this raise reads [param_index_dic], an attribute the
       group does not have *)
    lift (Raise AttributeError)
  else
    do group <- BreedableParameterGoup_breed
               (param_group self) (param_group other_genetic_calibration) ;;
    ret (offspring self group).

Definition GeneticCalibration_gradient_update_to_target
    (self : GeneticCalibration) : result GeneticCalibration :=
  match outcomes self with
  | None => Raise AttributeError
  | Some outs =>
      do group <- BreedableParameterGoup_gradient_update_to_target
                 (param_group self) outs (targets self)
                 (target_to_parameters_weights self) ;;
      ret (offspring self group)
  end.

(** *** calibrate_opiod_params.py *)

(** [list.sort()] on candidates, which compare by [evaluated_error]: the
    stable sort by [__lt__].  It is what CPython's sort returns whenever [<]
    orders the errors, that is when no error is NaN; with a NaN among the
    errors CPython's result depends on the comparisons its merge sort
    happens to make, and this function does not give it. *)
Fixpoint insert_by_error (x : GeneticCalibration)
    (l : list GeneticCalibration) : list GeneticCalibration :=
  match l with
  | [] => [x]
  | y :: l' =>
      if ltb (evaluated_error x) (evaluated_error y) then x :: l
      else y :: insert_by_error x l'
  end.

Definition list_sort (l : list GeneticCalibration) : list GeneticCalibration :=
  fold_left (fun sorted x => insert_by_error x sorted) l [].

Definition bred (l : list GeneticCalibration) (i j : nat)
  : M GeneticCalibration :=
  do a <- lift (list_get l i) ;;
  do b <- lift (list_get l j) ;;
  GeneticCalibration_breed a b.

Definition _perform_genetic_mixing
    (genetic_calibrations : list GeneticCalibration)
  : M (list GeneticCalibration) :=
  if negb (length genetic_calibrations =? 10)%nat then lift (Raise IndexError)
  else
    let genetic_calibrations := list_sort genetic_calibrations in
    do c0 <- lift (list_get genetic_calibrations 0) ;;
    do c1 <- bred genetic_calibrations 0 1 ;;
    do c2 <- bred genetic_calibrations 0 2 ;;
    do c3 <- bred genetic_calibrations 0 3 ;;
    do c4 <- bred genetic_calibrations 1 2 ;;
    do c5 <- bred genetic_calibrations 1 3 ;;
    do c6 <- bred genetic_calibrations 1 4 ;;
    do c7 <- bred genetic_calibrations 2 3 ;;
    do c8 <- bred genetic_calibrations 2 4 ;;
    do c9 <- bred genetic_calibrations 3 4 ;;
    ret [c0; c1; c2; c3; c4; c5; c6; c7; c8; c9].

Definition updated (l : list GeneticCalibration) (i : nat)
  : result GeneticCalibration :=
  do c <- list_get l i ;;
  GeneticCalibration_gradient_update_to_target c.

Definition _perform_weighted_parameter_adjustments
    (genetic_calibrations : list GeneticCalibration)
  : result (list GeneticCalibration) :=
  if negb (length genetic_calibrations =? 10)%nat then Raise IndexError
  else
    let genetic_calibrations := list_sort genetic_calibrations in
    do c0 <- list_get genetic_calibrations 0 ;;
    do c1 <- list_get genetic_calibrations 1 ;;
    do c2 <- updated genetic_calibrations 0 ;;
    do c3 <- updated genetic_calibrations 1 ;;
    do c4 <- updated genetic_calibrations 2 ;;
    do c5 <- updated genetic_calibrations 3 ;;
    do c6 <- updated genetic_calibrations 4 ;;
    do c7 <- updated genetic_calibrations 5 ;;
    do c8 <- updated genetic_calibrations 6 ;;
    do c9 <- updated genetic_calibrations 7 ;;
    ret [c0; c1; c2; c3; c4; c5; c6; c7; c8; c9].

End Calibration.

Arguments Build_PyParameter {F} & name val min_val max_val.
Arguments Build_BreedableParameter {F} & base mutation_prob.
Arguments Build_BreedableParameterGoup {F} & param_list param_index_dict.
Arguments Build_GeneticCalibration {F} & param_group targets outcomes
  target_to_parameters_weights threshold evaluated_error fred_key.

(** ** Vocabulary of the statements *)

(** The object a successful [BreedableParameter(...)] call builds. *)
Definition built {F : PyFloat} (n : string) (v lo hi mp : @num F)
  : @BreedableParameter F :=
  {| base := {| name := n; val := v; min_val := lo; max_val := hi |};
     mutation_prob := mp |}.
Arguments built {F} & n v lo hi mp.

(** The range invariant of a parameter, over exact arithmetic. *)
Definition in_range (p : @PyParameter exactQ) : Prop :=
  (min_val p <= val p)%Q /\ (val p <= max_val p)%Q.

(** What both constructors check. *)
Definition well_formed (p : @BreedableParameter exactQ) : Prop :=
  in_range p /\ (min_val p < max_val p)%Q
  /\ (0 <= mutation_prob p)%Q /\ (mutation_prob p <= 1)%Q.

(** [random.random()] returns values of [[0, 1)]. *)
Definition unit_draws (g : @RNG exactQ) : Prop :=
  forall n : nat, (0 <= g n)%Q /\ (g n < 1)%Q.

(** The draws that are left after the first one. *)
Definition rest {F : PyFloat} (g : @RNG F) : @RNG F := fun n => g (S n).

(** Two dictionaries hold the same keys. *)
Definition same_keys {V W : Type} (d1 : dict V) (d2 : dict W) : Prop :=
  forall k : string, In k (keys d1) <-> In k (keys d2).

(** The sum of the squared relative errors, as the specification writes it:
    a sum over the metrics of [((target - outcome) / target) ^ 2], with
    [0.001] as the denominator for a zero target. *)
Definition relative_error_term (target outcome : Q) : Q :=
  if Qeq_bool target 0 then (target - outcome) / (1 # 1000)
  else (target - outcome) / target.

Definition outcome_of (outs : dict Q) (k : string) : Q :=
  match dict_find k outs with Some v => v | None => 0 end.

Fixpoint sum_squared_relative_errors (targets outs : dict Q) : Q :=
  match targets with
  | [] => 0
  | (k, t) :: rest =>
      relative_error_term t (outcome_of outs k) ^ 2
      + sum_squared_relative_errors rest outs
  end.

(** The candidate [c] after [evaluate] stored the outcomes [outs] and the
    error [err]. *)
Definition evaluated {F : PyFloat} (c : @GeneticCalibration F)
    (outs : dict (@num F)) (err : @num F) : @GeneticCalibration F :=
  {| param_group := param_group c; targets := targets c;
     outcomes := Some outs;
     target_to_parameters_weights := target_to_parameters_weights c;
     threshold := threshold c;
     evaluated_error := err;
     fred_key := fred_key c |}.

(** The index pairs genetic mixing breeds, in the order of its calls. *)
Definition mixing_pairs : list (nat * nat) :=
  [(0, 1); (0, 2); (0, 3); (1, 2); (1, 3); (1, 4); (2, 3); (2, 4); (3, 4)]%nat.

(** Randomised calls run one after the other, each on the draws the one
    before it left: their results, and the draws left at the end. *)
Fixpoint runs_in_order {F : PyFloat} {A : Type} (calls : list (@M F A))
    (g : @RNG F) (results : list A) (g' : @RNG F) : Prop :=
  match calls, results with
  | [], [] => g = g'
  | c :: calls', r :: results' =>
      exists g1, c g = Ok (r, g1) /\ runs_in_order calls' g1 results' g'
  | _, _ => False
  end.

(** Ascending order of the candidates' errors. *)
Definition error_le (a b : @GeneticCalibration exactQ) : Prop :=
  (evaluated_error a <= evaluated_error b)%Q.


(** [move_towards_value(target, 1)] returns a parameter whose value is
    [target]. *)
Definition reaches_target {F : PyFloat} (p : @BreedableParameter F)
    (target : @num F) : Prop :=
  exists r, move_towards_value p target one = Ok r
            /\ eqb (val r) target = true.

(** ** Inputs of the concrete runs *)

(** Three parameters of [calibrate_opiod_params.py], in binary64. *)
Definition pPrescriptionUser_to_NonUser_1 : @BreedableParameter float64 :=
  built "pPrescriptionUser_to_NonUser" 0.846%float 0.00000001%float 1.0%float
        0.2%float.

Definition pOUD_to_RX_1 : @BreedableParameter float64 :=
  built "pOUD_to_RX" 0.088%float 0.00000001%float 0.1%float 0.2%float.

Definition pOUD_to_DeathOD_1 : @BreedableParameter float64 :=
  built "pOUD_to_DeathOD" 0.001%float 0.00000001%float 0.002%float 0.2%float.

(** A parameter on the lower end of a range so wide that its width is no
    binary64 number. *)
Definition stretched64 : @BreedableParameter float64 :=
  built "p" (-1e308)%float (-1e308)%float 1e308%float 0.2%float.

(** Two parents on the two bounds of their range. *)
Definition on_min64 : @BreedableParameter float64 :=
  built "p" 0%float 0%float 1%float 0.2%float.

Definition on_max64 : @BreedableParameter float64 :=
  built "p" 1%float 0%float 1%float 0.2%float.

Definition on_min : @BreedableParameter exactQ :=
  built "p" 0%Q 0%Q 1%Q (1 # 5)%Q.

Definition on_max : @BreedableParameter exactQ :=
  built "p" 1%Q 0%Q 1%Q (1 # 5)%Q.

Definition inside : @BreedableParameter exactQ :=
  built "p" (1 # 4)%Q 0%Q 1%Q (1 # 5)%Q.

Definition inside_mate : @BreedableParameter exactQ :=
  built "p" (3 # 4)%Q 0%Q 1%Q (1 # 5)%Q.



(** Every draw is a tenth, or a half. *)
Definition tenths64 : @RNG float64 := fun _ => 0.1%float.
Definition halves64 : @RNG float64 := fun _ => 0.5%float.
Definition tenths : @RNG exactQ := fun _ => (1 # 10)%Q.

(** A group of two parameters. *)
Definition two_parameters : @BreedableParameterGoup float64 :=
  {| param_list := [pOUD_to_RX_1; pOUD_to_DeathOD_1];
     param_index_dict := [("pOUD_to_RX", 0%nat); ("pOUD_to_DeathOD", 1%nat)] |}.

(** A candidate with one parameter, one target and the weight of the script,
    evaluated on the number of deaths its run produced. *)
Definition one_parameter (v : float) : @BreedableParameterGoup float64 :=
  {| param_list := [@built float64 "pOUD_to_DeathOD" v 0.00000001%float
                       0.002%float 0.2%float];
     param_index_dict := [("pOUD_to_DeathOD", 0%nat)] |}.

Definition fresh_candidate (v : float) : @GeneticCalibration float64 :=
  {| param_group := one_parameter v;
     targets := [("opioid_deaths", 53%float)];
     outcomes := Some [];
     target_to_parameters_weights :=
       [("opioid_deaths", [("pOUD_to_DeathOD", 0.5%float)])];
     threshold := 0.1%float;
     evaluated_error := float_info_max;
     fred_key := None |}.

(** That candidate as [evaluate] leaves it after a run with [deaths]
    deaths and the error [err].  The runs below have 53 deaths, 106 or
    none: the relative error is then 0, -1 or 1, whose square CPython
    returns itself (0 and 1, without calling [pow]), so that the error
    [evaluate] stores is the root of [0.0 + 0.0], which is 0, or of
    [0.0 + 1.0], which is 1, on every platform. *)
Definition candidate (v deaths err : float) : @GeneticCalibration float64 :=
  evaluated (fresh_candidate v) [("opioid_deaths", deaths)] err.

(** Ten evaluated candidates: the second and the fourth hit the target. *)
Definition population : list (@GeneticCalibration float64) :=
  [candidate 0.0010 106 1; candidate 0.0005 53 0; candidate 0.0015 106 1;
   candidate 0.0012 53 0; candidate 0.0008 106 1; candidate 0.0003 106 1;
   candidate 0.0018 106 1; candidate 0.0007 106 1; candidate 0.0011 106 1;
   candidate 0.0016 106 1]%float.

(** Ten evaluated candidates whose two best sit on the two bounds of the
    parameter's range. *)
Definition bounds_population : list (@GeneticCalibration float64) :=
  [candidate 0.0010 106 1; candidate 0.00000001 53 0; candidate 0.0015 106 1;
   candidate 0.002 53 0; candidate 0.0008 106 1; candidate 0.0003 106 1;
   candidate 0.0018 106 1; candidate 0.0007 106 1; candidate 0.0011 106 1;
   candidate 0.0016 106 1]%float.

(** The example of the specification: targets [{a: 100, b: 0}]. *)
Definition two_targets64 : @GeneticCalibration float64 :=
  {| param_group := BreedableParameterGoup_init;
     targets := [("a", 100%float); ("b", 0%float)];
     outcomes := Some [];
     target_to_parameters_weights := [];
     threshold := 0.1%float;
     evaluated_error := float_info_max;
     fred_key := None |}.

Definition two_targets : @GeneticCalibration exactQ :=
  {| param_group := BreedableParameterGoup_init;
     targets := [("a", 100%Q); ("b", 0%Q)];
     outcomes := Some [];
     target_to_parameters_weights := [];
     threshold := (1 # 10)%Q;
     evaluated_error := float_info_max;
     fred_key := None |}.


(** The outcomes of the specification's example. *)
Definition two_outcomes : dict Q := [("a", 110%Q); ("b", (1 # 1000)%Q)].


(** ** More of the code *)

(** The [mutation_prob] setter of [BreedableParameter]. *)
Definition set_mutation_prob {F : PyFloat} (p : @BreedableParameter F)
    (value : @num F) : result (@BreedableParameter F) :=
  if ltb value zero || ltb one value then Raise ValueError
  else Ok {| base := base p; mutation_prob := value |}.

(** The end of an iteration of [main]: the weighted adjustment when the
    iteration counter is even, the genetic mixing when it is odd. *)
Definition advance {F : PyFloat} (iteration_counter : nat)
    (genetic_calibrations : list (@GeneticCalibration F))
  : @M F (list (@GeneticCalibration F)) :=
  if (iteration_counter mod 2 =? 0)%nat then
    lift (_perform_weighted_parameter_adjustments genetic_calibrations)
  else _perform_genetic_mixing genetic_calibrations.

(** [GeneticCalibration.setup] *)
Definition setup {F : PyFloat} (self : @GeneticCalibration F)
  : @M F (@GeneticCalibration F) :=
  do group <- randomize (param_group self) ;;
  ret {| param_group := group; targets := targets self;
         outcomes := outcomes self;
         target_to_parameters_weights := target_to_parameters_weights self;
         threshold := threshold self;
         evaluated_error := evaluated_error self;
         fred_key := fred_key self |}.

(** A group filled the way [main] fills [original_gc.param_group]: one
    [append] after the other, from the empty group. *)
Definition appended {F : PyFloat} (ps : list (@BreedableParameter F))
  : result (@BreedableParameterGoup F) :=
  for_each (m := result) ps BreedableParameterGoup_init append.

(** ** More vocabulary *)

Definition names {F : PyFloat} (l : list (@BreedableParameter F))
  : list string :=
  map (fun p : @BreedableParameter F => name p) l.

(** The index of a list of parameters: every name with its position, the
    positions counted from [start]. *)
Definition indexed_from {F : PyFloat} (start : nat)
    (l : list (@BreedableParameter F)) : dict nat :=
  combine (names l) (seq start (length l)).

(** The invariant of a group: the index maps every name to the position of
    its parameter in the list, and no name occurs twice. *)
Definition group_ok {F : PyFloat} (grp : @BreedableParameterGoup F) : Prop :=
  param_index_dict grp = indexed_from 0 (param_list grp)
  /\ NoDup (names (param_list grp)).

(** The name-to-value pairs of a list of parameters. *)
Definition values {F : PyFloat} (l : list (@BreedableParameter F))
  : dict (@num F) :=
  map (fun p : @BreedableParameter F => (name p, val p)) l.

(** An assignment to one of the attributes of a parameter. *)
Inductive assignment : Type :=
| AssignVal (value : Q)
| AssignMinVal (value : Q)
| AssignMaxVal (value : Q)
| AssignMutationProb (value : Q).

(** The parameter after an assignment: a setter that raises leaves the
    parameter as it was. *)
Definition assign (p : @BreedableParameter exactQ) (a : assignment)
  : @BreedableParameter exactQ :=
  match a with
  | AssignVal v =>
      {| base := set_val p v; mutation_prob := mutation_prob p |}
  | AssignMinVal v =>
      match set_min_val p v with
      | Ok b => {| base := b; mutation_prob := mutation_prob p |}
      | Raise _ => p
      end
  | AssignMaxVal v =>
      match set_max_val p v with
      | Ok b => {| base := b; mutation_prob := mutation_prob p |}
      | Raise _ => p
      end
  | AssignMutationProb v =>
      match set_mutation_prob p v with
      | Ok q => q
      | Raise _ => p
      end
  end.

(** The target of [move_towards_value], brought into [[lo, hi]]. *)
Definition clamp (lo hi target : Q) : Q :=
  if Qltb hi target then hi else if Qltb target lo then lo else target.

(** [x ** 2] over the rationals: the product, and never an overflow. *)
Definition square_Q (x : Q) : result Q := Ok (x * x)%Q.


(** Two binary64 numbers that are the same number: equal, or two zeros,
    whose signs may differ. *)
Definition same_number (x y : float) : Prop :=
  x = y \/ (PrimFloat.eqb x 0 = true /\ PrimFloat.eqb y 0 = true).

(** The distance [|x - y|] is a binary64 number: the difference neither
    overflows nor is NaN. *)
Definition finite_distance (x y : float) : Prop :=
  PrimFloat.ltb (PrimFloat.abs (x - y)) infinity = true.

(** No error of the candidates is NaN: every error equals itself. *)
Definition no_nan_errors {F : PyFloat} (l : list (@GeneticCalibration F))
  : Prop :=
  Forall (fun c : @GeneticCalibration F =>
            eqb (evaluated_error c) (evaluated_error c) = true) l.

(** A square root on the rationals that is exact on squares. *)
Definition sqrt_of_square (x : Q) : Q :=
  Z.sqrt (Qnum x) # Pos.sqrt (Qden x).

(** The multiplier of a metric: [1 / (outcome / target)] when the metric has
    an outcome and a target that are both not zero, none otherwise. *)
Definition multiplier_of (outs tgts : dict Q) (k : string) : option Q :=
  match dict_find k outs, dict_find k tgts with
  | Some o, Some t =>
      if Qeq_bool t 0 || Qeq_bool o 0 then None else Some (1 / (o / t))%Q
  | _, _ => None
  end.

(** No metric of [weights] gives the parameter [n] a weight. *)
Definition unweighted {F : PyFloat} (n : string)
    (weights : dict (dict (@num F))) : Prop :=
  forall t wd, In (t, wd) weights -> dict_mem n wd = false.

(** The first metric of [weights] that gives the parameter [n] a weight,
    with that weight. *)
Fixpoint first_weight {V : Type} (n : string) (weights : dict (dict V))
  : option (string * V) :=
  match weights with
  | [] => None
  | (t, wd) :: rest =>
      match dict_find n wd with
      | Some w => Some (t, w)
      | None => first_weight n rest
      end
  end.

(** The parameter [r] is [p] after the weighted update: [p] itself when no
    metric weights it, and otherwise [p] with its value moved by [0.85] of
    the way to [val * weight * multiplier], brought into the bounds, for
    the first metric that weights it. *)
Definition moved (outs tgts : dict Q) (weights : dict (dict Q))
    (p r : @BreedableParameter exactQ) : Prop :=
  name r = name p /\ min_val r = min_val p /\ max_val r = max_val p
  /\ mutation_prob r = mutation_prob p
  /\ match first_weight (name p) weights with
     | None => val r = val p
     | Some (t, w) =>
         exists m : Q,
           multiplier_of outs tgts t = Some m
           /\ (val r
               == val p
                  + (85 # 100)
                    * (clamp (min_val p) (max_val p) (val p * w * m)
                       - val p))%Q
     end.

(** Some parameter of [ps] is weighted first by a metric that has no
    multiplier. *)
Definition weighted_by_a_skipped_metric (outs tgts : dict Q)
    (weights : dict (dict Q)) (ps : list (@BreedableParameter exactQ))
  : Prop :=
  exists (p : @BreedableParameter exactQ) (t : string) (w : Q),
    In p ps /\ first_weight (name p) weights = Some (t, w)
    /\ multiplier_of outs tgts t = None.

(** The parameter [r] is [p] redrawn over its whole range with the draw
    number [i] of [g]. *)
Definition drawn (g : @RNG exactQ) (i : nat)
    (p r : @BreedableParameter exactQ) : Prop :=
  r = @built exactQ (name p)
        (min_val p + (max_val p - min_val p) * g i)%Q
        (min_val p) (max_val p) (mutation_prob p).

(** The parameter [q] is the one of the group [other] that has the name
    of [p]. *)
Definition namesake {F : PyFloat} (other : @BreedableParameterGoup F)
    (p q : @BreedableParameter F) : Prop :=
  name q = name p /\ In q (param_list other).

(** The [breed] calls of the parameters [ps] with the mates [qs], in the
    order of [ps]. *)
Definition breed_calls {F : PyFloat} (ps qs : list (@BreedableParameter F))
  : list (@M F (@BreedableParameter F)) :=
  map (fun pq : @BreedableParameter F * @BreedableParameter F =>
         breed (fst pq) (snd pq)) (combine ps qs).

(** The contributions of the metrics: for every target, in the order of
    the targets, the root of its squared relative error. *)
Definition contributions_of (sqrt : Q -> Q) (tgts outs : dict Q) : dict Q :=
  map (fun kt : string * Q =>
         (fst kt,
          sqrt (relative_error_term (snd kt) (outcome_of outs (fst kt))
                * relative_error_term (snd kt) (outcome_of outs (fst kt)))%Q))
      tgts.

(** The sum of the squares of the values of a dictionary. *)
Fixpoint sum_of_squares (d : dict Q) : Q :=
  match d with
  | [] => 0
  | (_, v) :: rest => v ^ 2 + sum_of_squares rest
  end.

(** The parameters [ps], at the indices from [i] on, with what a pass over
    a group made of them. *)
Fixpoint each_related {A B : Type} (R : nat -> A -> B -> Prop) (i : nat)
    (ps : list A) (rs : list B) : Prop :=
  match ps, rs with
  | [], [] => True
  | p :: ps', r :: rs' => R i p r /\ each_related R (S i) ps' rs'
  | _, _ => False
  end.

(** A candidate over exact arithmetic with two parameters, of which the
    first is weighted, evaluated on twice the targeted number of deaths. *)
Definition weighted_candidate : @GeneticCalibration exactQ :=
  {| param_group :=
       {| param_list := [inside; @built exactQ "q" (1 # 2)%Q 0%Q 1%Q 0%Q];
          param_index_dict := [("p", 0%nat); ("q", 1%nat)] |};
     targets := [("opioid_deaths", 53%Q)];
     outcomes := Some [("opioid_deaths", 106%Q)];
     target_to_parameters_weights := [("opioid_deaths", [("p", (1 # 2)%Q)])];
     threshold := (1 # 10)%Q;
     evaluated_error := 1%Q;
     fred_key := None |}.

(** ** Reading the tests of the exact instance *)

Lemma Qltb_true (x y : Q) : Qltb x y = true <-> (x < y)%Q.
Proof. unfold Qltb, Qlt. apply Z.ltb_lt. Qed.

Lemma Qltb_false (x y : Q) : Qltb x y = false <-> (y <= x)%Q.
Proof. unfold Qltb, Qle. rewrite Z.ltb_ge. reflexivity. Qed.

Lemma Qle_bool_false (x y : Q) : Qle_bool x y = false <-> (y < x)%Q.
Proof.
  split; intro H.
  - apply Qnot_le_lt. intro L. apply Qle_bool_iff in L. congruence.
  - destruct (Qle_bool x y) eqn:E; [|reflexivity].
    apply Qle_bool_iff in E. exfalso. apply (Qlt_not_le _ _ H E).
Qed.

Lemma Qeq_bool_false (x y : Q) : Qeq_bool x y = false <-> ~ (x == y)%Q.
Proof.
  split; intro H.
  - intro E. apply Qeq_bool_iff in E. congruence.
  - destruct (Qeq_bool x y) eqn:E; [|reflexivity].
    apply Qeq_bool_iff in E. contradiction.
Qed.

Lemma Qabs_cases (x : Q) :
  ((0 <= x)%Q /\ (Qabs.Qabs x == x)%Q) \/ ((x <= 0)%Q /\ (Qabs.Qabs x == - x)%Q).
Proof.
  destruct (Qlt_le_dec x 0) as [L|L].
  - right. split; [lra|]. apply Qabs.Qabs_neg. lra.
  - left. split; [exact L|]. apply Qabs.Qabs_pos. exact L.
Qed.

(** The operations of [exactQ], by their names on [Q]. *)
Ltac exact_ops :=
  change (@ltb exactQ) with Qltb in *;
  change (@leb exactQ) with Qle_bool in *;
  change (@eqb exactQ) with Qeq_bool in *;
  change (@add exactQ) with Qplus in *;
  change (@sub exactQ) with Qminus in *;
  change (@mul exactQ) with Qmult in *;
  change (@quot exactQ) with Qdiv in *;
  change (@absf exactQ) with Qabs.Qabs in *;
  change (@zero exactQ) with 0%Q in *;
  change (@one exactQ) with 1%Q in *;
  change (@lit_0_001 exactQ) with (1 # 1000)%Q in *;
  change (@lit_0_85 exactQ) with (85 # 100)%Q in *;
  change (@num exactQ) with Q in *.

(** Every test that is left in the goal is decided both ways and read as
    an inequality. *)
Ltac read_tests :=
  repeat match goal with
  | H : Qltb _ _ = true |- _ => apply Qltb_true in H
  | H : Qltb _ _ = false |- _ => apply Qltb_false in H
  | H : Qle_bool _ _ = true |- _ => apply Qle_bool_iff in H
  | H : Qle_bool _ _ = false |- _ => apply Qle_bool_false in H
  | H : Qeq_bool _ _ = true |- _ => apply Qeq_bool_iff in H
  | H : Qeq_bool _ _ = false |- _ => apply Qeq_bool_false in H
  end.

Ltac split_tests :=
  repeat match goal with
  | |- context [Qltb ?a ?b] =>
      let E := fresh "T" in destruct (Qltb a b) eqn:E
  | |- context [Qle_bool ?a ?b] =>
      let E := fresh "T" in destruct (Qle_bool a b) eqn:E
  | |- context [Qeq_bool ?a ?b] =>
      let E := fresh "T" in destruct (Qeq_bool a b) eqn:E
  end; cbn [orb andb negb]; read_tests.

(** ** The constructors *)

Lemma Parameter_init_ok (n : string) (v lo hi : Q) :
  (lo <= v)%Q -> (v <= hi)%Q -> (lo < hi)%Q ->
  @Parameter_init exactQ n v lo hi
  = Ok {| name := n; val := v; min_val := lo; max_val := hi |}.
Proof.
  intros A B C. unfold Parameter_init. exact_ops.
  split_tests; try reflexivity; lra.
Qed.

Lemma Parameter_init_raises (n : string) (v lo hi : Q) :
  ~ ((lo <= v)%Q /\ (v <= hi)%Q /\ (lo < hi)%Q) ->
  @Parameter_init exactQ n v lo hi = Raise ValueError.
Proof.
  intros A. unfold Parameter_init. exact_ops.
  split_tests; try reflexivity. exfalso. apply A. repeat split; lra.
Qed.

Lemma Parameter_init_inv (n : string) (v lo hi : Q) (p : @PyParameter exactQ) :
  @Parameter_init exactQ n v lo hi = Ok p ->
  p = {| name := n; val := v; min_val := lo; max_val := hi |}
  /\ (lo <= v)%Q /\ (v <= hi)%Q /\ (lo < hi)%Q.
Proof.
  unfold Parameter_init. exact_ops.
  split_tests; intro H; inversion H; subst. repeat split; lra.
Qed.

Lemma BreedableParameter_init_ok (n : string) (v lo hi mp : Q) :
  (lo <= v)%Q -> (v <= hi)%Q -> (lo < hi)%Q -> (0 <= mp)%Q -> (mp <= 1)%Q ->
  @BreedableParameter_init exactQ n v lo hi mp
  = Ok {| base := {| name := n; val := v; min_val := lo; max_val := hi |};
          mutation_prob := mp |}.
Proof.
  intros A B C D E. unfold BreedableParameter_init.
  rewrite (Parameter_init_ok n v lo hi A B C). cbn [bind result_monad].
  exact_ops. split_tests; try reflexivity; lra.
Qed.

Lemma BreedableParameter_init_inv (n : string) (v lo hi mp : Q)
    (p : @BreedableParameter exactQ) :
  @BreedableParameter_init exactQ n v lo hi mp = Ok p ->
  p = {| base := {| name := n; val := v; min_val := lo; max_val := hi |};
         mutation_prob := mp |}
  /\ well_formed p.
Proof.
  unfold BreedableParameter_init.
  destruct (@Parameter_init exactQ n v lo hi) as [q|e] eqn:P;
    cbn [bind result_monad]; [|discriminate].
  apply Parameter_init_inv in P. destruct P as (-> & A & B & C).
  exact_ops. split_tests; intro H; inversion H; subst.
  split; [reflexivity|]. unfold well_formed, in_range. cbn. repeat split; lra.
Qed.

(** ** [move_towards_value] *)

Lemma move_towards_value_rate_check {F : PyFloat}
    (p : @BreedableParameter F) (target rate : @num F) :
  ltb rate zero || ltb one rate = true ->
  move_towards_value p target rate = Raise ValueError.
Proof. intro H. unfold move_towards_value. rewrite H. reflexivity. Qed.

Lemma move_towards_value_rate_zero (p : @BreedableParameter exactQ) (target : Q) :
  well_formed p ->
  exists r, move_towards_value p target 0%Q = Ok r
            /\ (val r == val p)%Q /\ well_formed r.
Proof.
  intros (( A & B ) & C & D & E).
  unfold move_towards_value. exact_ops.
  set (d := if Qltb (max_val p) target then _ else _). clearbody d.
  assert (Z : (d * 0 == 0)%Q) by ring.
  split_tests; try lra.
  all: eexists; split;
    [ apply BreedableParameter_init_ok; lra
    | split; [cbn; lra | unfold well_formed, in_range; cbn; repeat split; lra] ].
Qed.

Lemma move_towards_value_rate_one (p : @BreedableParameter exactQ) (target : Q) :
  well_formed p -> (min_val p <= target)%Q -> (target <= max_val p)%Q ->
  exists r, move_towards_value p target 1%Q = Ok r
            /\ (val r == target)%Q /\ well_formed r.
Proof.
  intros (( A & B ) & C & D & E) Lo Hi.
  unfold move_towards_value. exact_ops.
  destruct (Qabs_cases (target - val p)) as [[S Ab]|[S Ab]];
    revert Ab; generalize (Qabs (target - val p)); intros d Ab;
    split_tests; try lra.
  all: eexists; split;
    [ apply BreedableParameter_init_ok; lra
    | split; [cbn; lra | unfold well_formed, in_range; cbn; repeat split; lra] ].
Qed.

Lemma move_towards_value_inv (p r : @BreedableParameter exactQ) (target rate : Q) :
  move_towards_value p target rate = Ok r ->
  well_formed r /\ name r = name p /\ min_val r = min_val p
  /\ max_val r = max_val p /\ mutation_prob r = mutation_prob p.
Proof.
  unfold move_towards_value.
  destruct (@ltb exactQ rate zero || @ltb exactQ one rate); [discriminate|].
  destruct (@ltb exactQ (val p) target);
    [|destruct (@ltb exactQ target (val p))];
    intro H; apply BreedableParameter_init_inv in H; destruct H as [-> W];
    (split; [exact W | cbn; auto]).
Qed.

(** ** [random.uniform], [generate_random] and [breed] *)

Lemma uniform_run {F : PyFloat} (a b : @num F) (g : @RNG F) :
  uniform a b g = Ok (add a (mul (sub b a) (g 0%nat)), rest g).
Proof. reflexivity. Qed.

Lemma generate_random_run {F : PyFloat} (n : string)
    (lo hi a b mp : @num F) (g : @RNG F) :
  generate_random n lo hi a b mp g
  = match BreedableParameter_init n (add a (mul (sub b a) (g 0%nat))) lo hi mp
    with
    | Ok p => Ok (p, rest g)
    | Raise e => Raise e
    end.
Proof. reflexivity. Qed.

(** A draw of [[0, 1]] lands between the two ends. *)
Lemma uniform_between (a b r : Q) :
  (a <= b)%Q -> (0 <= r)%Q -> (r <= 1)%Q ->
  (a <= a + (b - a) * r)%Q /\ (a + (b - a) * r <= b)%Q.
Proof.
  intros AB R0 R1.
  assert (P : (0 <= (b - a) * r)%Q) by (apply Qmult_le_0_compat; lra).
  assert (N : (0 <= (b - a) * (1 - r))%Q) by (apply Qmult_le_0_compat; lra).
  assert (E : ((b - a) * (1 - r) == (b - a) - (b - a) * r)%Q) by ring.
  split; lra.
Qed.

Lemma generate_random_inv (n : string) (lo hi a b mp : Q)
    (g g' : @RNG exactQ) (r : @BreedableParameter exactQ) :
  @generate_random exactQ n lo hi a b mp g = Ok (r, g') ->
  r = {| base := {| name := n; val := (a + (b - a) * g 0%nat)%Q;
                    min_val := lo; max_val := hi |};
         mutation_prob := mp |}
  /\ well_formed r /\ g' = rest g.
Proof.
  rewrite generate_random_run. exact_ops.
  destruct (@BreedableParameter_init exactQ n (a + (b - a) * g 0%nat)%Q lo hi mp)
    as [x|e] eqn:I; [|discriminate].
  intro H. inversion H; subst. apply BreedableParameter_init_inv in I.
  destruct I as [-> W]. auto.
Qed.

Lemma lift_init_inv (n : string) (v lo hi mp : Q)
    (g g' : @RNG exactQ) (r : @BreedableParameter exactQ) :
  lift (@BreedableParameter_init exactQ n v lo hi mp) g = Ok (r, g') ->
  r = {| base := {| name := n; val := v; min_val := lo; max_val := hi |};
         mutation_prob := mp |}
  /\ well_formed r /\ g' = g.
Proof.
  unfold lift.
  destruct (@BreedableParameter_init exactQ n v lo hi mp) as [x|e] eqn:I;
    [|discriminate].
  intro H. inversion H; subst. apply BreedableParameter_init_inv in I.
  destruct I as [-> W]. auto.
Qed.

(** Whatever [breed] returns was built by the constructor from [self]'s
    name, bounds and mutation probability. *)
Lemma breed_inv (p q r : @BreedableParameter exactQ) (g g' : @RNG exactQ) :
  breed p q g = Ok (r, g') ->
  well_formed r /\ name r = name p /\ min_val r = min_val p
  /\ max_val r = max_val p /\ mutation_prob r = mutation_prob p.
Proof.
  unfold breed.
  destruct (negb (name p =? name q)%string); [discriminate|].
  destruct (@eqb exactQ (val p) (val q)).
  { intro H. apply generate_random_inv in H. destruct H as (-> & W & _).
    cbn. auto. }
  cbn [bind M_monad]. rewrite uniform_run.
  destruct (@ltb exactQ _ (mutation_prob p)).
  - rewrite uniform_run.
    destruct (@ltb exactQ (val p) (val q)).
    + unfold lift at 1.
      destruct (fdiv _ _); [|discriminate].
      destruct (@ltb exactQ _ a); intro H; apply generate_random_inv in H;
        destruct H as (-> & W & _); cbn; auto.
    + unfold lift at 1.
      destruct (fdiv _ _); [|discriminate].
      destruct (@ltb exactQ _ a); intro H; apply generate_random_inv in H;
        destruct H as (-> & W & _); cbn; auto.
  - destruct (@ltb exactQ (val p) (val q)); rewrite uniform_run;
      intro H; apply lift_init_inv in H; destruct H as (-> & W & _);
      cbn; auto.
Qed.




(** The zone selection of the mutation branch divides by the combined width
    of the two zones outside the parents, which is zero when the parents sit
    on the two bounds. *)
Lemma breed_divides_by_zero (p q : @BreedableParameter exactQ)
    (g : @RNG exactQ) :
  name p = name q -> (min_val p < max_val p)%Q ->
  ((val p == min_val p)%Q /\ (val q == max_val p)%Q
   \/ (val p == max_val p)%Q /\ (val q == min_val p)%Q) ->
  (g 0%nat < mutation_prob p)%Q ->
  breed p q g = Raise ZeroDivisionError.
Proof.
  intros N C Hv MP.
  unfold breed. rewrite N, String.eqb_refl. cbn [negb]. exact_ops.
  assert (V : Qeq_bool (val p) (val q) = false)
    by (apply Qeq_bool_false; destruct Hv as [[A B]|[A B]]; lra).
  rewrite V. cbn [bind M_monad]. rewrite !uniform_run. exact_ops.
  assert (U : Qltb (0 + (1 - 0) * g 0%nat) (mutation_prob p) = true)
    by (apply Qltb_true; lra).
  rewrite U. unfold lift, fdiv. exact_ops.
  destruct Hv as [[A B]|[A B]].
  - assert (T : Qltb (val p) (val q) = true) by (apply Qltb_true; lra).
    rewrite T.
    assert (Z : Qeq_bool (val p - min_val p + (max_val p - val q)) 0 = true)
      by (apply Qeq_bool_iff; lra).
    rewrite Z. reflexivity.
  - assert (T : Qltb (val p) (val q) = false) by (apply Qltb_false; lra).
    rewrite T.
    assert (Z : Qeq_bool (val q - min_val p + (max_val p - val p)) 0 = true)
      by (apply Qeq_bool_iff; lra).
    rewrite Z. reflexivity.
Qed.

(** ** Loops *)

Lemma for_each_result_inv {A S : Type} (P : S -> Prop)
    (body : S -> A -> result S) :
  (forall s x s', P s -> body s x = Ok s' -> P s') ->
  forall xs s s', P s -> for_each xs s body = Ok s' -> P s'.
Proof.
  intros Step xs. induction xs as [|x xs IH]; intros s s' Ps; cbn.
  - intro H. inversion H; subst. exact Ps.
  - destruct (body s x) as [s1|e] eqn:B; [|discriminate].
    apply IH. exact (Step s x s1 Ps B).
Qed.

Lemma for_each_M_inv {F : PyFloat} {A S : Type} (P : S -> Prop)
    (body : S -> A -> @M F S) :
  (forall s x g s' g', P s -> body s x g = Ok (s', g') -> P s') ->
  forall xs s g s' g', P s -> for_each xs s body g = Ok (s', g') -> P s'.
Proof.
  intros Step xs. induction xs as [|x xs IH]; intros s g s' g' Ps; cbn.
  - intro H. inversion H; subst. exact Ps.
  - destruct (body s x g) as [[s1 g1]|e] eqn:B; [|discriminate].
    apply IH. exact (Step s x g s1 g1 Ps B).
Qed.

(** ** The parameter group *)

Lemma append_inv {F : PyFloat} (grp grp' : @BreedableParameterGoup F)
    (p : @BreedableParameter F) :
  append grp p = Ok grp' -> param_list grp' = param_list grp ++ [p].
Proof.
  unfold append. destruct (dict_mem (name p) (param_index_dict grp));
    [discriminate|]. intro H. inversion H. reflexivity.
Qed.

Lemma randomize_well_formed (grp grp' : @BreedableParameterGoup exactQ)
    (g g' : @RNG exactQ) :
  randomize grp g = Ok (grp', g') -> Forall well_formed (param_list grp').
Proof.
  unfold randomize.
  apply (for_each_M_inv
           (fun s : @BreedableParameterGoup exactQ =>
              Forall well_formed (param_list s))); [|constructor].
  intros s x h s' h' Ps. cbn [bind M_monad]. unfold lift at 1.
  destruct (list_get (param_list grp) (snd x)) as [p|e]; [|discriminate].
  destruct (generate_random _ _ _ _ _ _ h) as [[np h1]|e] eqn:G;
    [|discriminate].
  apply generate_random_inv in G. destruct G as (_ & W & _).
  unfold lift. destruct (append s np) as [s1|e] eqn:Ap; [|discriminate].
  intro H. inversion H; subst. rewrite (append_inv _ _ _ Ap).
  apply Forall_app. split; [exact Ps|]. constructor; [exact W|constructor].
Qed.

Lemma BreedableParameterGoup_breed_well_formed
    (grp other grp' : @BreedableParameterGoup exactQ) (g g' : @RNG exactQ) :
  BreedableParameterGoup_breed grp other g = Ok (grp', g') ->
  Forall well_formed (param_list grp').
Proof.
  unfold BreedableParameterGoup_breed.
  destruct (negb _); [discriminate|]. destruct (negb _); [discriminate|].
  apply (for_each_M_inv
           (fun s : @BreedableParameterGoup exactQ =>
              Forall well_formed (param_list s))); [|constructor].
  intros s x h s' h' Ps. cbn [bind M_monad]. unfold lift at 1.
  destruct (dict_get (fst x) (param_index_dict other)) as [oi|e];
    [|discriminate].
  unfold lift at 1.
  destruct (list_get (param_list grp) (snd x)) as [p|e]; [|discriminate].
  unfold lift at 1.
  destruct (list_get (param_list other) oi) as [q|e]; [|discriminate].
  destruct (breed p q h) as [[np h1]|e] eqn:B; [|discriminate].
  apply breed_inv in B. destruct B as (W & _).
  unfold lift. destruct (append s np) as [s1|e] eqn:Ap; [|discriminate].
  intro H. inversion H; subst. rewrite (append_inv _ _ _ Ap).
  apply Forall_app. split; [exact Ps|]. constructor; [exact W|constructor].
Qed.

Lemma clone_inv (p r : @BreedableParameter exactQ) :
  clone p = Ok r -> well_formed r.
Proof.
  unfold clone. intro H. apply BreedableParameter_init_inv in H. tauto.
Qed.

Lemma gradient_update_well_formed
    (grp grp' : @BreedableParameterGoup exactQ) (outs tgts : dict Q)
    (weights : dict (dict Q)) :
  @BreedableParameterGoup_gradient_update_to_target exactQ grp outs tgts
    weights = Ok grp' ->
  Forall well_formed (param_list grp').
Proof.
  unfold BreedableParameterGoup_gradient_update_to_target.
  cbn [bind result_monad].
  destruct (@compute_target_multipliers exactQ outs tgts) as [tm|e];
    [|discriminate].
  apply (for_each_result_inv
           (fun s : @BreedableParameterGoup exactQ =>
              Forall well_formed (param_list s))); [|constructor].
  intros s x s' Ps.
  destruct (scan_weights grp tm (fst x) (snd x) weights) as [ft|e];
    [|discriminate].
  destruct (list_get (param_list grp) (snd x)) as [p|e]; [|discriminate].
  assert (W : forall np,
             (if fst ft then move_towards_value p (snd ft) lit_0_85
              else clone p) = Ok np -> well_formed np).
  { intros np. destruct (fst ft); intro H.
    - apply move_towards_value_inv in H. tauto.
    - apply clone_inv in H. exact H. }
  destruct (if fst ft then _ else _) as [np|e]; [|discriminate].
  specialize (W np eq_refl).
  intro Ap. rewrite (append_inv _ _ _ Ap).
  apply Forall_app. split; [exact Ps|]. constructor; [exact W|constructor].
Qed.

(** ** Sorting the candidates *)

Lemma insert_by_error_perm {F : PyFloat} (x : @GeneticCalibration F)
    (l : list (@GeneticCalibration F)) :
  Permutation (insert_by_error x l) (x :: l).
Proof.
  induction l as [|y l IH]; cbn.
  - reflexivity.
  - destruct (ltb (evaluated_error x) (evaluated_error y)).
    + reflexivity.
    + rewrite IH. apply perm_swap.
Qed.

Lemma sort_loop_perm {F : PyFloat} (l sorted : list (@GeneticCalibration F)) :
  Permutation (fold_left (fun s x => insert_by_error x s) l sorted)
              (sorted ++ l).
Proof.
  revert sorted. induction l as [|x l IH]; intro sorted; cbn.
  - rewrite app_nil_r. reflexivity.
  - rewrite IH, insert_by_error_perm. cbn. apply Permutation_middle.
Qed.

Lemma list_sort_perm {F : PyFloat} (l : list (@GeneticCalibration F)) :
  Permutation (list_sort l) l.
Proof. unfold list_sort. apply (sort_loop_perm l []). Qed.

Lemma list_sort_length {F : PyFloat} (l : list (@GeneticCalibration F)) :
  length (list_sort l) = length l.
Proof. apply Permutation_length, list_sort_perm. Qed.

Lemma insert_by_error_sorted (x : @GeneticCalibration exactQ)
    (l : list (@GeneticCalibration exactQ)) :
  Sorted error_le l -> Sorted error_le (insert_by_error x l).
Proof.
  induction l as [|y l IH]; intro S; cbn.
  - repeat constructor.
  - exact_ops.
    destruct (Qltb (evaluated_error x) (evaluated_error y)) eqn:T; read_tests.
    + constructor; [exact S|]. constructor. unfold error_le. lra.
    + inversion S as [|? ? S' Hd]; subst.
      constructor; [exact (IH S')|].
      destruct l as [|z l]; cbn.
      * constructor. exact T.
      * exact_ops. destruct (Qltb (evaluated_error x) (evaluated_error z));
          constructor; [exact T|]. inversion Hd; assumption.
Qed.

Lemma list_sort_sorted (l : list (@GeneticCalibration exactQ)) :
  Sorted error_le (list_sort l).
Proof.
  unfold list_sort.
  assert (G : forall sorted, Sorted error_le sorted ->
            Sorted error_le
              (fold_left (fun s x => insert_by_error x s) l sorted)).
  { induction l as [|x l IH]; intros sorted S; cbn; [exact S|].
    apply IH, insert_by_error_sorted, S. }
  apply G. constructor.
Qed.

(** A list of ten items, item by item. *)
Lemma ten_items {A : Type} (l : list A) :
  length l = 10%nat ->
  exists a0 a1 a2 a3 a4 a5 a6 a7 a8 a9,
    l = [a0; a1; a2; a3; a4; a5; a6; a7; a8; a9].
Proof.
  intro H.
  do 10 (destruct l as [|? l]; [discriminate H|]).
  destruct l; [|discriminate H].
  repeat eexists.
Qed.

(** ** The two generation updates *)

Lemma weighted_adjustments_size_check {F : PyFloat}
    (l : list (@GeneticCalibration F)) :
  length l <> 10%nat ->
  _perform_weighted_parameter_adjustments l = Raise IndexError.
Proof.
  intro H. unfold _perform_weighted_parameter_adjustments.
  apply Nat.eqb_neq in H. rewrite H. reflexivity.
Qed.

Lemma weighted_adjustments_run {F : PyFloat}
    (l ret : list (@GeneticCalibration F)) :
  length l = 10%nat ->
  (_perform_weighted_parameter_adjustments l = Ok ret <->
   exists us,
     Forall2 (fun c u => GeneticCalibration_gradient_update_to_target c = Ok u)
             (firstn 8 (list_sort l)) us
     /\ ret = firstn 2 (list_sort l) ++ us).
Proof.
  intro H. unfold _perform_weighted_parameter_adjustments.
  rewrite H. cbn [Nat.eqb negb]. cbv zeta.
  destruct (ten_items (list_sort l)) as (s0 & s1 & s2 & s3 & s4 & s5 & s6
                                         & s7 & s8 & s9 & E).
  { rewrite list_sort_length. exact H. }
  rewrite E. unfold updated.
  cbn [list_get nth_error bind result_monad firstn app].
  split.
  - destruct (GeneticCalibration_gradient_update_to_target s0) eqn:U0;
      [|discriminate].
    destruct (GeneticCalibration_gradient_update_to_target s1) eqn:U1;
      [|discriminate].
    destruct (GeneticCalibration_gradient_update_to_target s2) eqn:U2;
      [|discriminate].
    destruct (GeneticCalibration_gradient_update_to_target s3) eqn:U3;
      [|discriminate].
    destruct (GeneticCalibration_gradient_update_to_target s4) eqn:U4;
      [|discriminate].
    destruct (GeneticCalibration_gradient_update_to_target s5) eqn:U5;
      [|discriminate].
    destruct (GeneticCalibration_gradient_update_to_target s6) eqn:U6;
      [|discriminate].
    destruct (GeneticCalibration_gradient_update_to_target s7) eqn:U7;
      [|discriminate].
    intro R. inversion R; subst.
    eexists. split; [|reflexivity]. repeat constructor; assumption.
  - intros (us & Fa & ->).
    repeat match goal with
           | X : Forall2 _ (_ :: _) _ |- _ => inversion X; subst; clear X
           | X : Forall2 _ [] _ |- _ => inversion X; subst; clear X
           end.
    repeat match goal with
           | X : GeneticCalibration_gradient_update_to_target _ = Ok _ |- _ =>
               rewrite X; clear X
           end.
    reflexivity.
Qed.

Lemma runs_in_order_length {F : PyFloat} {A : Type} (calls : list (@M F A))
    (g g' : @RNG F) (results : list A) :
  runs_in_order calls g results g' -> length results = length calls.
Proof.
  revert g results. induction calls as [|c calls IH]; intros g results R.
  - destruct results; [reflexivity|contradiction].
  - destruct results as [|r results]; [contradiction|].
    destruct R as (g1 & _ & R). cbn. f_equal. exact (IH _ _ R).
Qed.

Lemma genetic_mixing_size_check {F : PyFloat}
    (l : list (@GeneticCalibration F)) (g : @RNG F) :
  length l <> 10%nat -> _perform_genetic_mixing l g = Raise IndexError.
Proof.
  intro H. unfold _perform_genetic_mixing.
  apply Nat.eqb_neq in H. rewrite H. reflexivity.
Qed.

Lemma genetic_mixing_run {F : PyFloat}
    (l ret : list (@GeneticCalibration F)) (g g' : @RNG F) :
  length l = 10%nat ->
  (_perform_genetic_mixing l g = Ok (ret, g') <->
   exists best children,
     nth_error (list_sort l) 0 = Some best
     /\ ret = best :: children
     /\ runs_in_order
          (map (fun ij => bred (list_sort l) (fst ij) (snd ij)) mixing_pairs)
          g children g').
Proof.
  intro H. unfold _perform_genetic_mixing.
  rewrite H. cbn [Nat.eqb negb]. cbv zeta.
  destruct (ten_items (list_sort l)) as (s0 & s1 & s2 & s3 & s4 & s5 & s6
                                         & s7 & s8 & s9 & E).
  { rewrite list_sort_length. exact H. }
  assert (N0 : nth_error (list_sort l) 0 = Some s0)
    by (rewrite E; reflexivity).
  clear E s1 s2 s3 s4 s5 s6 s7 s8 s9. set (s := list_sort l) in *.
  cbn [bind M_monad]. unfold lift at 1. unfold list_get at 1. rewrite N0.
  cbn [map mixing_pairs fst snd].
  split.
  - destruct (bred s 0 1 g) as [[c1 g1]|] eqn:B1; [|discriminate].
    destruct (bred s 0 2 g1) as [[c2 g2]|] eqn:B2; [|discriminate].
    destruct (bred s 0 3 g2) as [[c3 g3]|] eqn:B3; [|discriminate].
    destruct (bred s 1 2 g3) as [[c4 g4]|] eqn:B4; [|discriminate].
    destruct (bred s 1 3 g4) as [[c5 g5]|] eqn:B5; [|discriminate].
    destruct (bred s 1 4 g5) as [[c6 g6]|] eqn:B6; [|discriminate].
    destruct (bred s 2 3 g6) as [[c7 g7]|] eqn:B7; [|discriminate].
    destruct (bred s 2 4 g7) as [[c8 g8]|] eqn:B8; [|discriminate].
    destruct (bred s 3 4 g8) as [[c9 g9]|] eqn:B9; [|discriminate].
    intro R. inversion R; subst.
    exists s0, [c1; c2; c3; c4; c5; c6; c7; c8; c9].
    split; [reflexivity|]. split; [reflexivity|].
    cbn [runs_in_order].
    repeat (eexists; split; [eassumption|]). reflexivity.
  - intros (best & children & Hb & -> & R).
    inversion Hb; subst.
    pose proof (runs_in_order_length _ _ _ _ R) as Len.
    cbn [length] in Len.
    do 9 (destruct children as [|? children]; [discriminate Len|]).
    destruct children; [|discriminate Len].
    cbn [runs_in_order] in R.
    repeat match goal with
           | X : exists _, _ |- _ => destruct X as (? & ? & ?)
           end.
    subst.
    repeat match goal with
           | X : bred _ _ _ _ = Ok _ |- _ => rewrite X; clear X
           end.
    reflexivity.
Qed.

(** The first [breed] call that raises is where the mixing stops. *)
Lemma genetic_mixing_raises {F : PyFloat}
    (l : list (@GeneticCalibration F)) (g : @RNG F)
    (before : list (nat * nat)) (children : list (@GeneticCalibration F))
    (g1 : @RNG F) (i j : nat) (after : list (nat * nat)) (e : exn) :
  length l = 10%nat ->
  mixing_pairs = before ++ (i, j) :: after ->
  runs_in_order (map (fun ij => bred (list_sort l) (fst ij) (snd ij)) before)
    g children g1 ->
  bred (list_sort l) i j g1 = Raise e ->
  _perform_genetic_mixing l g = Raise e.
Proof.
  intros H Split Run Last. unfold _perform_genetic_mixing.
  rewrite H. cbn [Nat.eqb negb]. cbv zeta.
  destruct (ten_items (list_sort l)) as (s0 & s1 & s2 & s3 & s4 & s5 & s6
                                         & s7 & s8 & s9 & E).
  { rewrite list_sort_length. exact H. }
  assert (N0 : nth_error (list_sort l) 0 = Some s0)
    by (rewrite E; reflexivity).
  clear E s1 s2 s3 s4 s5 s6 s7 s8 s9. set (s := list_sort l) in *.
  cbn [bind M_monad]. unfold lift at 1. unfold list_get at 1. rewrite N0.
  unfold mixing_pairs in Split.
  do 9 (destruct before as [|[? ?] before];
        [ cbn [app] in Split; injection Split as <- <- <-;
          cbn [map fst snd] in Run;
          repeat (destruct children as [|? children];
                  [ try contradiction Run
                  | try contradiction Run; destruct Run as (? & ? & Run) ]);
          try (cbn [runs_in_order] in Run; subst g1);
          repeat match goal with
                 | X : bred _ _ _ _ = _ |- _ => rewrite X; clear X
                 end;
          reflexivity
        | cbn [app] in Split; injection Split as <- <- Split ]).
  destruct before; discriminate Split.
Qed.

(** ** Dictionaries *)

Lemma dict_mem_In {V : Type} (k : string) (d : dict V) :
  dict_mem k d = true <-> In k (keys d).
Proof.
  unfold dict_mem. induction d as [|[k' v] d IH]; cbn.
  - split; [discriminate|contradiction].
  - destruct (String.eqb k k') eqn:E.
    + apply String.eqb_eq in E. subst. split; auto.
    + apply String.eqb_neq in E. rewrite IH. split; [auto|].
      intros [H|H]; [congruence|exact H].
Qed.

Lemma keys_eqb_same_keys {V W : Type} (d1 : dict V) (d2 : dict W) :
  keys_eqb d1 d2 = true <-> same_keys d1 d2.
Proof.
  unfold keys_eqb, same_keys.
  rewrite andb_true_iff, !forallb_forall.
  split.
  - intros [A B] k. split; intro H.
    + apply dict_mem_In, A, H.
    + apply dict_mem_In, B, H.
  - intro H. split; intros k Hk; apply dict_mem_In, H, Hk.
Qed.

Lemma dict_get_present {V : Type} (k : string) (d : dict V) :
  In k (keys d) -> exists v, dict_find k d = Some v /\ dict_get k d = Ok v.
Proof.
  intro H. apply dict_mem_In in H. unfold dict_mem, dict_get in *.
  destruct (dict_find k d) as [v|]; [|discriminate]. eauto.
Qed.

(** ** [evaluate] *)


Lemma relative_error_exact (t o : Q) :
  @relative_error exactQ t o = Ok (relative_error_term t o).
Proof.
  unfold relative_error, relative_error_term, fdiv. exact_ops.
  destruct (Qeq_bool t 0) eqn:T; reflexivity.
Qed.

Lemma square_nonneg (x : Q) : (0 <= x ^ 2)%Q.
Proof.
  change (x ^ 2)%Q with (x * x)%Q.
  destruct (Qlt_le_dec x 0) as [N|P].
  - setoid_replace (x * x)%Q with ((- x) * (- x))%Q by ring.
    apply Qmult_le_0_compat; lra.
  - apply Qmult_le_0_compat; assumption.
Qed.

Lemma sum_squared_relative_errors_nonneg (tgts outs : dict Q) :
  (0 <= sum_squared_relative_errors tgts outs)%Q.
Proof.
  induction tgts as [|[k t] tgts IH]; cbn; [lra|].
  pose proof (square_nonneg (relative_error_term t (outcome_of outs k))).
  lra.
Qed.

(** The loop of [evaluate] adds up the specification's sum. *)
Lemma squared_error_loop_exact (tgts outs : dict Q) (acc : Q) :
  (forall k, In k (keys tgts) -> In k (keys outs)) ->
  exists s : Q,
    for_each (m := result) tgts acc
      (fun squared_error kv =>
         do other_value <- dict_get (fst kv) outs ;;
         do e <- @relative_error exactQ (snd kv) other_value ;;
         do e2 <- square_Q e ;;
         ret (@add exactQ squared_error e2)) = Ok s
    /\ (s == acc + sum_squared_relative_errors tgts outs)%Q.
Proof.
  revert acc. induction tgts as [|[k t] tgts IH]; intros acc Hk.
  - exists acc. split; [reflexivity|]. cbn. lra.
  - cbn [for_each fst snd bind result_monad].
    destruct (dict_get_present k outs) as (v & Fv & Gv).
    { apply Hk. left. reflexivity. }
    rewrite Gv, relative_error_exact. unfold square_Q at 1.
    cbn [ret result_monad].
    destruct (IH (@add exactQ acc
                    (relative_error_term t v * relative_error_term t v)%Q))
      as (s & Hs & Es).
    { intros k' Hk'. apply Hk. right. exact Hk'. }
    exists s. split; [exact Hs|]. rewrite Es.
    cbn [sum_squared_relative_errors]. unfold outcome_of. rewrite Fv.
    exact_ops.
    change (relative_error_term t v ^ 2)%Q
      with (relative_error_term t v * relative_error_term t v)%Q.
    lra.
Qed.

Lemma evaluate_run (sqrt : Q -> Q) (c : @GeneticCalibration exactQ)
    (outs : dict Q) :
  same_keys (targets c) outs ->
  exists s : Q,
    @evaluate exactQ sqrt square_Q c outs
    = (evaluated c outs (sqrt s), Ok tt)
    /\ (s == sum_squared_relative_errors (targets c) outs)%Q.
Proof.
  intro K. unfold evaluate.
  pose proof (proj2 (keys_eqb_same_keys (targets c) outs) K) as Kb.
  exact_ops. rewrite Kb. cbn [negb].
  destruct (squared_error_loop_exact (targets c) outs 0%Q) as (s & Hs & Es).
  { intros k Hk. apply K, Hk. }
  unfold squared_error_loop. exact_ops. rewrite Hs.
  cbn [bind result_monad]. unfold math_sqrt. exact_ops.
  pose proof (sum_squared_relative_errors_nonneg (targets c) outs) as Nn.
  assert (T : Qltb s 0 = false) by (apply Qltb_false; lra).
  rewrite T. exists s. split; [reflexivity|lra].
Qed.

(** ** [remove] *)

Lemma dict_set_keys {V : Type} (k : string) (v : V) (d : dict V) :
  In k (keys d) -> keys (dict_set k v d) = keys d.
Proof.
  induction d as [|[k' v'] d IH]; cbn; [contradiction|].
  destruct (String.eqb k k') eqn:E; [reflexivity|].
  apply String.eqb_neq in E. intros [H|H]; [congruence|].
  cbn. f_equal. exact (IH H).
Qed.

Lemma shift_down_keys (idx : nat) (d : dict nat) :
  keys (shift_down idx d) = keys d.
Proof.
  unfold shift_down.
  assert (G : forall l acc,
             (forall kv, In kv l -> In (fst kv) (keys acc)) ->
             keys (fold_left
                     (fun d' kv => if (idx <? snd kv)%nat
                                   then dict_set (fst kv) (snd kv - 1)%nat d'
                                   else d') l acc) = keys acc).
  { induction l as [|kv l IH]; intros acc H; cbn [fold_left];
      [reflexivity|].
    assert (K : In (fst kv) (keys acc)) by (apply H; left; reflexivity).
    destruct (idx <? snd kv)%nat.
    - rewrite IH; [apply dict_set_keys, K|].
      intros kv' Hkv'. rewrite dict_set_keys by exact K.
      apply H. right. exact Hkv'.
    - apply IH. intros kv' Hkv'. apply H. right. exact Hkv'. }
  apply G. intros kv Hkv. unfold keys. apply in_map. exact Hkv.
Qed.

Lemma dict_del_present {V : Type} (k : string) (d : dict V) :
  In k (keys d) -> exists d', dict_del k d = Ok d'.
Proof.
  induction d as [|[k' v'] d IH]; cbn; [contradiction|].
  destruct (String.eqb k k') eqn:E; [eauto|].
  apply String.eqb_neq in E. intros [H|H]; [congruence|].
  destruct (IH H) as (d' & ->). cbn. eauto.
Qed.

Lemma remove_absent {F : PyFloat} (grp : @BreedableParameterGoup F)
    (p : @BreedableParameter F) :
  ~ In (name p) (keys (param_index_dict grp)) -> remove grp p = (grp, Ok tt).
Proof.
  intro H. unfold remove.
  destruct (dict_mem (name p) (param_index_dict grp)) eqn:E; [|reflexivity].
  apply dict_mem_In in E. contradiction.
Qed.

(** On a parameter that is present, [remove] rewrites the index, deletes
    the entry, and then raises at [pop([idx])]: the list keeps every
    parameter. *)
Lemma remove_present {F : PyFloat} (grp : @BreedableParameterGoup F)
    (p : @BreedableParameter F) :
  In (name p) (keys (param_index_dict grp)) ->
  exists idx d,
    dict_get (name p) (param_index_dict grp) = Ok idx
    /\ dict_del (name p) (shift_down idx (param_index_dict grp)) = Ok d
    /\ remove grp p
       = ({| param_list := param_list grp; param_index_dict := d |},
          Raise TypeError).
Proof.
  intro H. unfold remove.
  rewrite (proj2 (dict_mem_In _ _) H).
  destruct (dict_get_present _ _ H) as (idx & _ & G). rewrite G.
  destruct (dict_del_present (name p) (shift_down idx (param_index_dict grp)))
    as (d & D).
  { rewrite shift_down_keys. exact H. }
  rewrite D. exists idx, d. auto.
Qed.

(** ** The missing multiplier of [gradient_update_to_target] *)

Lemma gradient_update_skipped_metric {F : PyFloat}
    (p : @BreedableParameter F) (t : string) (o tv w : @num F) :
  eqb tv zero || eqb o zero = true ->
  BreedableParameterGoup_gradient_update_to_target
    {| param_list := [p]; param_index_dict := [(name p, 0%nat)] |}
    [(t, o)] [(t, tv)] [(t, [(name p, w)])]
  = Raise KeyError.
Proof.
  intro H.
  unfold BreedableParameterGoup_gradient_update_to_target,
    compute_target_multipliers.
  cbn [for_each bind ret result_monad fst snd].
  unfold dict_get at 1. cbn [dict_find]. rewrite String.eqb_refl.
  rewrite H. cbn [param_index_dict for_each fst snd scan_weights].
  unfold dict_mem. cbn [dict_find]. rewrite String.eqb_refl.
  cbn [param_list list_get nth_error bind result_monad].
  unfold dict_get. cbn [dict_find]. rewrite String.eqb_refl. reflexivity.
Qed.

(** ** Binary64 at rate 0 *)

(** The operations of [float64], by their names on [float]. *)
Ltac float_ops :=
  change (@ltb float64) with PrimFloat.ltb in *;
  change (@leb float64) with PrimFloat.leb in *;
  change (@eqb float64) with PrimFloat.eqb in *;
  change (@add float64) with PrimFloat.add in *;
  change (@sub float64) with PrimFloat.sub in *;
  change (@mul float64) with PrimFloat.mul in *;
  change (@absf float64) with PrimFloat.abs in *;
  change (@zero float64) with 0%float in *;
  change (@one float64) with 1%float in *;
  change (@num float64) with float in *.

Lemma finite_abs (x : float) :
  PrimFloat.ltb (abs x) infinity = true ->
  Prim2SF (abs x) = S754_zero false
  \/ exists m e, Prim2SF (abs x) = S754_finite false m e.
Proof.
  rewrite ltb_spec, abs_spec.
  change (Prim2SF infinity) with (S754_infinity false).
  destruct (Prim2SF x) as [s|s| |s m e]; cbn; try discriminate.
  - left. reflexivity.
  - right. eauto.
Qed.

(** A finite distance times the rate 0 is the zero [0.0]. *)
Lemma finite_times_zero (x : float) :
  PrimFloat.ltb (abs x) infinity = true -> (abs x * 0)%float = 0%float.
Proof.
  intro H. apply Prim2SF_inj. rewrite mul_spec.
  change (Prim2SF 0) with (S754_zero false).
  destruct (finite_abs x H) as [E|(m & e & E)]; rewrite E; reflexivity.
Qed.

Lemma plus_zero (v : float) : same_number (v + 0)%float v.
Proof.
  unfold same_number.
  assert (A : Prim2SF (v + 0) = SF64add (Prim2SF v) (S754_zero false))
    by (rewrite add_spec; reflexivity).
  destruct (Prim2SF v) as [s|s| |s m e] eqn:V.
  - right. rewrite !FloatAxioms.eqb_spec, A, V.
    change (Prim2SF 0) with (S754_zero false). destruct s; split; reflexivity.
  - left. apply Prim2SF_inj. rewrite A, V. reflexivity.
  - left. apply Prim2SF_inj. rewrite A, V. reflexivity.
  - left. apply Prim2SF_inj. rewrite A, V. reflexivity.
Qed.

Lemma minus_zero (v : float) : (v - 0)%float = v.
Proof.
  apply Prim2SF_inj. rewrite sub_spec.
  change (Prim2SF 0) with (S754_zero false).
  destruct (Prim2SF v) as [s|s| |s m e]; try reflexivity.
  destruct s; reflexivity.
Qed.

(** The comparisons do not tell the two zeros apart. *)
Lemma same_number_compare (w v : float) :
  same_number w v ->
  forall y, PrimFloat.ltb w y = PrimFloat.ltb v y
            /\ PrimFloat.ltb y w = PrimFloat.ltb y v.
Proof.
  intros [->|[A B]] y; [split; reflexivity|].
  rewrite FloatAxioms.eqb_spec in A, B.
  change (Prim2SF 0) with (S754_zero false) in A, B.
  rewrite !ltb_spec. unfold SFeqb, SFltb in *.
  destruct (Prim2SF w) as [sw|sw| |sw mw ew]; cbn in A;
    try discriminate A; try (destruct sw; discriminate A).
  all: destruct (Prim2SF v) as [sv|sv| |sv mv ev]; cbn in B;
    try discriminate B; try (destruct sv; discriminate B).
  destruct (Prim2SF y) as [sy|sy| |sy my ey]; split; reflexivity.
Qed.

(** The constructor accepts a value with the bounds and the mutation
    probability of a parameter it accepted, when the comparisons cannot tell
    the value from that parameter's. *)
Lemma init_same_number (n : string) (v w lo hi mp : float)
    (q : @BreedableParameter float64) :
  @BreedableParameter_init float64 n v lo hi mp = Ok q ->
  same_number w v ->
  @BreedableParameter_init float64 n w lo hi mp
  = Ok (@built float64 n w lo hi mp).
Proof.
  intros H S. destruct (same_number_compare w v S lo) as [A _].
  destruct (same_number_compare w v S hi) as [_ B].
  unfold BreedableParameter_init, Parameter_init in *. float_ops.
  rewrite A, B.
  destruct (PrimFloat.ltb v lo || PrimFloat.ltb hi v); [discriminate H|].
  destruct (PrimFloat.leb hi lo); [discriminate H|].
  cbn [bind result_monad] in *.
  destruct (PrimFloat.ltb mp 0 || PrimFloat.ltb 1 mp); [discriminate H|].
  reflexivity.
Qed.

Lemma move_towards_value_rate_zero64 (p : @BreedableParameter float64)
    (target : float) :
  (exists q, clone p = Ok q) ->
  finite_distance (max_val p) (val p) ->
  finite_distance (val p) (min_val p) ->
  finite_distance target (val p) ->
  exists r : @BreedableParameter float64,
    move_towards_value p target 0%float = Ok r
    /\ same_number (val r) (val p)
    /\ name r = name p /\ min_val r = min_val p /\ max_val r = max_val p
    /\ mutation_prob r = mutation_prob p.
Proof.
  intros (q & Cl) D1 D2 D3. unfold clone in Cl.
  unfold finite_distance in *.
  unfold move_towards_value. float_ops.
  change (PrimFloat.ltb 0 0 || PrimFloat.ltb 1 0) with false. cbv iota.
  set (d := if PrimFloat.ltb (max_val p) target then _ else _).
  assert (Z : (d * 0)%float = 0%float).
  { subst d. destruct (PrimFloat.ltb (max_val p) target);
      [|destruct (PrimFloat.ltb target (min_val p))];
      apply finite_times_zero; assumption. }
  rewrite Z. clearbody d.
  destruct (PrimFloat.ltb (val p) target);
    [|destruct (PrimFloat.ltb target (val p))].
  - rewrite (init_same_number _ _ _ _ _ _ _ Cl (plus_zero (val p))).
    eexists. split; [reflexivity|]. cbn. split; [apply plus_zero|auto].
  - rewrite minus_zero, Cl.
    pose proof (init_same_number _ _ _ _ _ _ _ Cl (or_introl eq_refl)) as E.
    rewrite Cl in E. inversion E; subst q.
    eexists. split; [reflexivity|]. cbn. split; [left; reflexivity|auto].
  - rewrite Cl.
    pose proof (init_same_number _ _ _ _ _ _ _ Cl (or_introl eq_refl)) as E.
    rewrite Cl in E. inversion E; subst q.
    eexists. split; [reflexivity|]. cbn. split; [left; reflexivity|auto].
Qed.

(** * The claims *)

(** ** C1: the weighted adjustment *)





(** ** C3: the genetic mixing *)

(** C3, as worded, fails on ten evaluated candidates, none of whose errors
    is NaN: the two best hold the parameter on the two bounds of its range,
    which the constructor accepts, and with a first draw of 0.1, below the
    mutation probability 0.2, the first [breed] call divides by the width of
    the two empty zones outside the parents; the mixing raises
    [ZeroDivisionError] and returns no candidates. *)
Lemma genetic_mixing_counterexample :
  length bounds_population = 10%nat /\ no_nan_errors bounds_population
  /\ @BreedableParameter_init float64 "pOUD_to_DeathOD" 0.00000001%float
       0.00000001%float 0.002%float 0.2%float
     = Ok (@built float64 "pOUD_to_DeathOD" 0.00000001%float
             0.00000001%float 0.002%float 0.2%float)
  /\ @BreedableParameter_init float64 "pOUD_to_DeathOD" 0.002%float
       0.00000001%float 0.002%float 0.2%float
     = Ok (@built float64 "pOUD_to_DeathOD" 0.002%float
             0.00000001%float 0.002%float 0.2%float)
  /\ firstn 2 (list_sort bounds_population)
     = [candidate 0.00000001 53 0; candidate 0.002 53 0]%float
  /\ _perform_genetic_mixing bounds_population tenths64
     = Raise ZeroDivisionError
  /\ ~ (exists ret g',
          _perform_genetic_mixing bounds_population tenths64 = Ok (ret, g')).
Proof.
  assert (R : _perform_genetic_mixing bounds_population tenths64
              = Raise ZeroDivisionError) by (vm_compute; reflexivity).
  split; [reflexivity|]. split; [repeat constructor|].
  split; [vm_compute; reflexivity|]. split; [vm_compute; reflexivity|].
  split; [vm_compute; reflexivity|]. split; [exact R|].
  intros (ret & g' & H). rewrite R in H. discriminate H.
Qed.

(** C3, amended.  In every instance of the arithmetic: on a list of any
    size but ten the genetic mixing raises [IndexError]; on a list of
    exactly ten candidates none of whose errors is NaN (so that [<] ranks
    them as [list.sort()] does) it returns exactly when the nine [breed]
    calls return, run one after the other on the draws the call before
    left; its result then has ten items: the best candidate of the sorted
    input unchanged, then the results of breeding the sorted candidates at
    the index pairs (0,1) (0,2) (0,3) (1,2) (1,3) (1,4) (2,3) (2,4) (3,4),
    in that order.  An exception of a [breed] call is the exception of the
    mixing: the first call that raises decides it, as [ZeroDivisionError]
    does when two parents sit on the two bounds of a parameter.  The sorted
    list is a permutation of the input, and over exact arithmetic, where no
    error is NaN, it is ascending in the error. *)
Theorem genetic_mixing_keeps_the_best_and_breeds_the_pairs :
  (forall (F : PyFloat) (l : list (@GeneticCalibration F)),
     length l <> 10%nat ->
     forall g, _perform_genetic_mixing l g = Raise IndexError)
  /\ (forall (F : PyFloat) (l : list (@GeneticCalibration F)),
        no_nan_errors l -> length l = 10%nat ->
        Permutation (list_sort l) l
        /\ (forall g ret g',
              _perform_genetic_mixing l g = Ok (ret, g') <->
              exists best children,
                nth_error (list_sort l) 0 = Some best
                /\ ret = best :: children
                /\ length ret = 10%nat
                /\ runs_in_order
                     (map (fun ij => bred (list_sort l) (fst ij) (snd ij))
                          mixing_pairs)
                     g children g')
        /\ (forall g before children g1 i j after e,
              mixing_pairs = before ++ (i, j) :: after ->
              runs_in_order
                (map (fun ij => bred (list_sort l) (fst ij) (snd ij)) before)
                g children g1 ->
              bred (list_sort l) i j g1 = Raise e ->
              _perform_genetic_mixing l g = Raise e))
  /\ (forall l : list (@GeneticCalibration exactQ),
        no_nan_errors l /\ Sorted error_le (list_sort l)).
Proof.
  split; [|split].
  - intros F l H g. apply genetic_mixing_size_check, H.
  - intros F l _ H. split; [apply list_sort_perm|]. split.
    + intros g ret g'. rewrite (genetic_mixing_run l ret g g' H).
      split.
      * intros (best & children & A & B & C).
        exists best, children. repeat split; try assumption.
        subst ret. cbn [length]. f_equal.
        rewrite (runs_in_order_length _ _ _ _ C). reflexivity.
      * intros (best & children & A & B & _ & C).
        exists best, children. auto.
    + intros g before children g1 i j after e.
      exact (genetic_mixing_raises l g before children g1 i j after e H).
  - intro l. split; [|apply list_sort_sorted].
    apply Forall_forall. intros c _. exact_ops. apply Qeq_bool_iff.
    reflexivity.
Qed.

Lemma genetic_mixing_witness :
  no_nan_errors population /\ length population = 10%nat
  /\ exists ret g',
       _perform_genetic_mixing population halves64 = Ok (ret, g')
       /\ length ret = 10%nat
       /\ nth_error ret 0 = nth_error (list_sort population) 0.
Proof.
  assert (N : no_nan_errors population) by repeat constructor.
  split; [exact N|]. split; [reflexivity|].
  destruct (proj1 (proj2 genetic_mixing_keeps_the_best_and_breeds_the_pairs)
              float64 population N eq_refl) as (_ & Run & _).
  destruct (_perform_genetic_mixing population halves64)
    as [[ret g']|e] eqn:E.
  - exists ret, g'. split; [reflexivity|].
    destruct (proj1 (Run halves64 ret g') E)
      as (best & children & A & B & C & _).
    split; [exact C|]. rewrite A, B. reflexivity.
  - vm_compute in E. discriminate E.
Defined.

(** ** C2: [evaluate] *)




(** ** C4: [breed] *)



(** ** C9: the division by zero of the mutation branch *)

(** C9.  [breed] is not total on parents of one name and different values:
    when one parent sits on [min_val] and the other on [max_val], the two
    zones outside the parents have a combined width of zero, and whenever
    the first draw is below the mutation probability the zone selection
    divides by that width and raises [ZeroDivisionError].  This holds over
    exact arithmetic for every such pair, and in binary64 on the pair
    [(0, 1)] of the range [[0, 1]], in both orders. *)
Theorem breed_divides_by_zero_on_the_bounds :
  (forall (p q : @BreedableParameter exactQ) (g : @RNG exactQ),
     name p = name q -> (min_val p < max_val p)%Q ->
     ((val p == min_val p)%Q /\ (val q == max_val p)%Q
      \/ (val p == max_val p)%Q /\ (val q == min_val p)%Q) ->
     (g 0%nat < mutation_prob p)%Q ->
     breed p q g = Raise ZeroDivisionError)
  /\ breed on_min64 on_max64 tenths64 = Raise ZeroDivisionError
  /\ breed on_max64 on_min64 tenths64 = Raise ZeroDivisionError.
Proof.
  split; [exact breed_divides_by_zero|].
  split; vm_compute; reflexivity.
Qed.

Lemma breed_divides_by_zero_witness :
  @BreedableParameter_init exactQ "p" 0%Q 0%Q 1%Q (1 # 5)%Q = Ok on_min
  /\ @BreedableParameter_init exactQ "p" 1%Q 0%Q 1%Q (1 # 5)%Q = Ok on_max
  /\ ~ (val on_min == val on_max)%Q
  /\ breed on_min on_max tenths = Raise ZeroDivisionError.
Proof.
  split; [reflexivity|]. split; [reflexivity|].
  split; [cbn; lra|].
  apply (proj1 breed_divides_by_zero_on_the_bounds on_min on_max tenths).
  - reflexivity.
  - cbn. lra.
  - left. cbn. split; lra.
  - cbn. unfold tenths. lra.
Defined.

(** ** C5: [move_towards_value] *)

(** C5, as worded, fails in binary64.  At rate 1, on parameters of the
    script: the constructor accepts [pPrescriptionUser_to_NonUser] at 0.846
    in [[1e-8, 1]], the target 0.1 lies in that range, and the call returns
    [0.846 - |0.1 - 0.846| * 1], which is 0.09999999999999998 and not 0.1;
    for [pOUD_to_RX] at 0.088 in [[1e-8, 0.1]] and the target [1e-8] the
    same expression falls below [min_val], and the call raises [ValueError]
    instead of returning a parameter.  At rate 0: the constructor accepts
    the value [-1e308] in [[-1e308, 1e308]], the distance to the target
    [1e308] overflows to infinity, infinity times 0 is NaN, and the call
    returns a parameter whose value is NaN and not [-1e308]. *)
Lemma move_towards_value_counterexample :
  (@BreedableParameter_init float64 "pPrescriptionUser_to_NonUser"
     0.846%float 0.00000001%float 1.0%float 0.2%float
   = Ok pPrescriptionUser_to_NonUser_1
   /\ @leb float64 (min_val pPrescriptionUser_to_NonUser_1) 0.1%float = true
   /\ @leb float64 0.1%float (max_val pPrescriptionUser_to_NonUser_1) = true
   /\ ~ reaches_target pPrescriptionUser_to_NonUser_1 0.1%float)
  /\ (@BreedableParameter_init float64 "pOUD_to_RX"
        0.088%float 0.00000001%float 0.1%float 0.2%float
      = Ok pOUD_to_RX_1
      /\ @leb float64 (min_val pOUD_to_RX_1) 0.00000001%float = true
      /\ @leb float64 0.00000001%float (max_val pOUD_to_RX_1) = true
      /\ move_towards_value pOUD_to_RX_1 0.00000001%float 1%float
         = Raise ValueError
      /\ ~ reaches_target pOUD_to_RX_1 0.00000001%float)
  /\ (@BreedableParameter_init float64 "p" (-1e308)%float (-1e308)%float
        1e308%float 0.2%float
      = Ok stretched64
      /\ exists r : @BreedableParameter float64,
           move_towards_value stretched64 1e308%float 0%float = Ok r
           /\ PrimFloat.eqb (val r) (val r) = false
           /\ ~ same_number (val r) (val stretched64)).
Proof.
  split; [|split].
  - split; [vm_compute; reflexivity|].
    split; [vm_compute; reflexivity|].
    split; [vm_compute; reflexivity|].
    intros (r & H & E). vm_compute in H. inversion H; subst.
    vm_compute in E. discriminate E.
  - split; [vm_compute; reflexivity|].
    split; [vm_compute; reflexivity|].
    split; [vm_compute; reflexivity|].
    split; [vm_compute; reflexivity|].
    intros (r & H & E). vm_compute in H. discriminate H.
  - split; [vm_compute; reflexivity|].
    exists (@built float64 "p" nan (-1e308)%float 1e308%float 0.2%float).
    split; [vm_compute; reflexivity|].
    split; [vm_compute; reflexivity|].
    intros [E|[E _]].
    + apply (f_equal (fun x => PrimFloat.eqb x (-1e308)%float)) in E.
      vm_compute in E. discriminate E.
    + vm_compute in E. discriminate E.
Qed.

(** C5, amended.  In every instance of the arithmetic, binary64 among them,
    a rate below 0 or above 1 raises [ValueError].  In binary64, for every
    parameter that passes the checks of the constructor and every target
    for which the three distances the method may take, [|max - val|],
    [|val - min|] and [|target - val|], are finite:
    [move_towards_value(target, 0)] returns a parameter with the name, the
    bounds and the mutation probability of the original whose value is the
    original value (up to the sign of a zero).  Over exact arithmetic and
    for every parameter that passes the checks of the constructor:
    [move_towards_value(target, 0)] returns a parameter whose value equals
    the original value, and for a target within [[min, max]],
    [move_towards_value(target, 1)] returns a parameter whose value equals
    the target; in binary64 the value at rate 1 is rounded and can miss the
    target or leave the range. *)
Theorem move_towards_value_rates :
  (forall (F : PyFloat) (p : @BreedableParameter F) (target rate : @num F),
     ltb rate zero || ltb one rate = true ->
     move_towards_value p target rate = Raise ValueError)
  /\ (forall (p : @BreedableParameter float64) (target : float),
        (exists q, clone p = Ok q) ->
        finite_distance (max_val p) (val p) ->
        finite_distance (val p) (min_val p) ->
        finite_distance target (val p) ->
        exists r : @BreedableParameter float64,
          move_towards_value p target 0%float = Ok r
          /\ same_number (val r) (val p)
          /\ name r = name p /\ min_val r = min_val p
          /\ max_val r = max_val p /\ mutation_prob r = mutation_prob p)
  /\ (forall (p : @BreedableParameter exactQ) (target rate : Q),
        (rate < 0)%Q \/ (1 < rate)%Q ->
        move_towards_value p target rate = Raise ValueError)
  /\ (forall (p : @BreedableParameter exactQ) (target : Q),
        well_formed p ->
        (exists r, move_towards_value p target 0%Q = Ok r
                   /\ (val r == val p)%Q)
        /\ ((min_val p <= target)%Q -> (target <= max_val p)%Q ->
            exists r, move_towards_value p target 1%Q = Ok r
                      /\ (val r == target)%Q)).
Proof.
  split; [|split; [|split]].
  - intros F p target rate. apply move_towards_value_rate_check.
  - exact move_towards_value_rate_zero64.
  - intros p target rate H. apply move_towards_value_rate_check. exact_ops.
    apply orb_true_iff. destruct H as [H|H]; [left|right];
      apply Qltb_true; exact H.
  - intros p target W. split.
    + destruct (move_towards_value_rate_zero p target W) as (r & H & E & _).
      eauto.
    + intros Lo Hi.
      destruct (move_towards_value_rate_one p target W Lo Hi)
        as (r & H & E & _).
      eauto.
Qed.

Lemma move_towards_value_witness :
  well_formed inside
  /\ ((min_val inside <= 3 # 4)%Q /\ (3 # 4 <= max_val inside)%Q)
  /\ (exists r, move_towards_value inside (3 # 4)%Q 0%Q = Ok r
                /\ (val r == val inside)%Q)
  /\ (exists r, move_towards_value inside (3 # 4)%Q 1%Q = Ok r
                /\ (val r == 3 # 4)%Q)
  /\ ((2 < 0)%Q \/ (1 < 2)%Q)
  /\ move_towards_value inside (3 # 4)%Q 2%Q = Raise ValueError
  /\ (exists q, clone pPrescriptionUser_to_NonUser_1 = Ok q)
  /\ finite_distance (max_val pPrescriptionUser_to_NonUser_1)
       (val pPrescriptionUser_to_NonUser_1)
  /\ finite_distance (val pPrescriptionUser_to_NonUser_1)
       (min_val pPrescriptionUser_to_NonUser_1)
  /\ finite_distance 0.1%float (val pPrescriptionUser_to_NonUser_1)
  /\ exists r : @BreedableParameter float64,
       move_towards_value pPrescriptionUser_to_NonUser_1 0.1%float 0%float
       = Ok r
       /\ same_number (val r) 0.846%float.
Proof.
  assert (W : well_formed inside)
    by (unfold well_formed, in_range; cbn; repeat split; lra).
  assert (Lo : (min_val inside <= 3 # 4)%Q) by (cbn; lra).
  assert (Hi : (3 # 4 <= max_val inside)%Q) by (cbn; lra).
  assert (R : (2 < 0)%Q \/ (1 < 2)%Q) by (right; lra).
  assert (Cl : exists q, clone pPrescriptionUser_to_NonUser_1 = Ok q)
    by (eexists; vm_compute; reflexivity).
  assert (D1 : finite_distance (max_val pPrescriptionUser_to_NonUser_1)
                 (val pPrescriptionUser_to_NonUser_1))
    by (vm_compute; reflexivity).
  assert (D2 : finite_distance (val pPrescriptionUser_to_NonUser_1)
                 (min_val pPrescriptionUser_to_NonUser_1))
    by (vm_compute; reflexivity).
  assert (D3 : finite_distance 0.1%float
                 (val pPrescriptionUser_to_NonUser_1))
    by (vm_compute; reflexivity).
  split; [exact W|]. split; [exact (conj Lo Hi)|].
  destruct move_towards_value_rates as (_ & Zero64 & Check & Exact).
  destruct (Exact inside (3 # 4)%Q W) as [Z O].
  split; [exact Z|]. split; [exact (O Lo Hi)|].
  split; [exact R|].
  split; [exact (Check inside (3 # 4)%Q 2%Q R)|].
  split; [exact Cl|]. split; [exact D1|]. split; [exact D2|].
  split; [exact D3|].
  destruct (Zero64 pPrescriptionUser_to_NonUser_1 0.1%float Cl D1 D2 D3)
    as (r & H & S & _).
  exists r. split; [exact H|exact S].
Defined.

(** ** C6: the range invariant *)

(** C6.  What the code does where the claim asks for an invariant kept at
    all times, and where the constructor's documentation calls [min_val]
    and [max_val] the minimum and the maximum value that can be assigned to
    [val]: the [val] setter assigns whatever it is given and checks nothing.
    In every instance of the arithmetic it accepts the values the
    constructor refuses for the same name and bounds; over exact arithmetic
    every value outside the range, assigned to a parameter the constructor
    accepted, leaves a parameter outside its range, while the constructor
    and the setters of [min_val] and [max_val] refuse what they check;
    [p.val = 2] on [Parameter('x', 0.5, 0, 1)] leaves a value above the
    maximum, over exact arithmetic and in binary64.  In binary64 moreover
    the constructor accepts a value that is NaN, which no comparison finds
    out of range, and [move_towards_value] returns such a parameter from
    one that was in its range. *)
Theorem val_setter_leaves_the_range :
  (forall (F : PyFloat) (p : @PyParameter F) (value : @num F),
     (val (set_val p value) = value
      /\ name (set_val p value) = name p
      /\ min_val (set_val p value) = min_val p
      /\ max_val (set_val p value) = max_val p)
     /\ (ltb value (min_val p) || ltb (max_val p) value = true ->
         Parameter_init (name p) value (min_val p) (max_val p)
         = Raise ValueError))
  /\ (forall (n : string) (v lo hi value : Q) (p : @PyParameter exactQ),
        @Parameter_init exactQ n v lo hi = Ok p ->
        in_range p
        /\ ((value < lo)%Q \/ (hi < value)%Q ->
            ~ in_range (set_val p value)
            /\ @Parameter_init exactQ n value lo hi = Raise ValueError)
        /\ ((hi <= value)%Q -> set_min_val p value = Raise ValueError)
        /\ ((value <= lo)%Q -> set_max_val p value = Raise ValueError))
  /\ (exists p : @PyParameter exactQ,
        @Parameter_init exactQ "x" (1 # 2)%Q 0%Q 1%Q = Ok p
        /\ in_range p
        /\ ~ in_range (set_val p 2%Q))
  /\ (exists p : @PyParameter float64,
        @Parameter_init float64 "x" 0.5%float 0%float 1%float = Ok p
        /\ PrimFloat.leb (val p) (max_val p) = true
        /\ PrimFloat.ltb (max_val (set_val p 2%float))
                         (val (set_val p 2%float)) = true
        /\ @Parameter_init float64 "x" 2%float 0%float 1%float
           = Raise ValueError)
  /\ (exists p : @PyParameter float64,
        @Parameter_init float64 "x" nan 0%float 1%float = Ok p
        /\ PrimFloat.leb (min_val p) (val p) = false
        /\ PrimFloat.leb (val p) (max_val p) = false)
  /\ (PrimFloat.leb (min_val stretched64) (val stretched64) = true
      /\ PrimFloat.leb (val stretched64) (max_val stretched64) = true
      /\ exists r : @BreedableParameter float64,
           move_towards_value stretched64 1e308%float 0%float = Ok r
           /\ PrimFloat.leb (min_val r) (val r) = false
           /\ PrimFloat.leb (val r) (max_val r) = false).
Proof.
  repeat match goal with |- _ /\ _ => split end.
  - intros F p value. split; [cbn; auto|].
    intro H. unfold Parameter_init. rewrite H. reflexivity.
  - intros n v lo hi value p H. apply Parameter_init_inv in H.
    destruct H as (-> & A & B & C). split; [|split; [|split]].
    + unfold in_range. cbn. split; assumption.
    + intro O. split.
      * unfold in_range. cbn. intros [X Y]. destruct O; lra.
      * apply Parameter_init_raises. intros (X & Y & _). destruct O; lra.
    + intro O. unfold set_min_val. cbn [max_val]. exact_ops.
      rewrite (proj2 (Qle_bool_iff hi value) O). reflexivity.
    + intro O. unfold set_max_val. cbn [min_val]. exact_ops.
      rewrite (proj2 (Qle_bool_iff value lo) O). reflexivity.
  - eexists. split; [reflexivity|]. split.
    + unfold in_range. cbn. split; lra.
    + unfold in_range. cbn. intros [_ H]. lra.
  - eexists. split; [vm_compute; reflexivity|].
    repeat split; vm_compute; reflexivity.
  - eexists. split; [vm_compute; reflexivity|].
    split; vm_compute; reflexivity.
  - vm_compute. reflexivity.
  - vm_compute. reflexivity.
  - exists (@built float64 "p" nan (-1e308)%float 1e308%float 0.2%float).
    repeat split; vm_compute; reflexivity.
Qed.

(** ** The range over exact arithmetic *)

(** X16.  Over exact arithmetic: [Parameter(name, val, min, max)] returns
    the parameter when [min <= val <= max] and [min < max] and raises
    [ValueError] otherwise, so the boundary values [val = min] and
    [val = max] are accepted; every parameter that
    [BreedableParameter(...)], [breed], [move_towards_value],
    [generate_random], [randomize] or [gradient_update_to_target] returns
    has its value within its own [[min, max]]. *)
Theorem constructed_parameters_are_in_range :
  (forall (n : string) (v lo hi : Q),
     ((lo <= v)%Q /\ (v <= hi)%Q /\ (lo < hi)%Q ->
      exists p, @Parameter_init exactQ n v lo hi = Ok p
                /\ in_range p /\ val p = v /\ min_val p = lo
                /\ max_val p = hi)
     /\ (~ ((lo <= v)%Q /\ (v <= hi)%Q /\ (lo < hi)%Q) ->
         @Parameter_init exactQ n v lo hi = Raise ValueError))
  /\ (forall (n : string) (lo hi : Q),
        (lo < hi)%Q ->
        (exists p, @Parameter_init exactQ n lo lo hi = Ok p /\ val p = lo)
        /\ (exists p, @Parameter_init exactQ n hi lo hi = Ok p /\ val p = hi))
  /\ (forall (n : string) (v lo hi mp : Q) r,
        @BreedableParameter_init exactQ n v lo hi mp = Ok r -> in_range r)
  /\ (forall (p q r : @BreedableParameter exactQ) g g',
        breed p q g = Ok (r, g') -> in_range r)
  /\ (forall (p r : @BreedableParameter exactQ) (target rate : Q),
        move_towards_value p target rate = Ok r -> in_range r)
  /\ (forall (n : string) (lo hi a b mp : Q) g r g',
        @generate_random exactQ n lo hi a b mp g = Ok (r, g') -> in_range r)
  /\ (forall (grp grp' : @BreedableParameterGoup exactQ) g g',
        randomize grp g = Ok (grp', g') ->
        Forall (fun p : @BreedableParameter exactQ => in_range p)
               (param_list grp'))
  /\ (forall (grp other grp' : @BreedableParameterGoup exactQ) g g',
        BreedableParameterGoup_breed grp other g = Ok (grp', g') ->
        Forall (fun p : @BreedableParameter exactQ => in_range p)
               (param_list grp'))
  /\ (forall (c c' : @GeneticCalibration exactQ),
        GeneticCalibration_gradient_update_to_target c = Ok c' ->
        Forall (fun p : @BreedableParameter exactQ => in_range p)
               (param_list (param_group c'))).
Proof.
  assert (In_range : forall l : list (@BreedableParameter exactQ),
             Forall well_formed l ->
             Forall (fun p : @BreedableParameter exactQ => in_range p) l).
  { intros l H. apply (Forall_impl _ (P := well_formed)); [|exact H].
    intros a W. apply W. }
  repeat match goal with |- _ /\ _ => split end.
  - intros n v lo hi. split.
    + intros (A & B & C). eexists.
      split; [apply Parameter_init_ok; assumption|].
      unfold in_range. cbn. auto.
    + exact (Parameter_init_raises n v lo hi).
  - intros n lo hi C. split.
    + eexists. split; [apply Parameter_init_ok; lra|reflexivity].
    + eexists. split; [apply Parameter_init_ok; lra|reflexivity].
  - intros n v lo hi mp r H. apply BreedableParameter_init_inv in H.
    destruct H as [_ W]. apply W.
  - intros p q r g g' H. apply breed_inv in H. destruct H as [W _]. apply W.
  - intros p r target rate H. apply move_towards_value_inv in H.
    destruct H as [W _]. apply W.
  - intros n lo hi a b mp g r g' H. apply generate_random_inv in H.
    destruct H as (_ & W & _). apply W.
  - intros grp grp' g g' H. apply In_range.
    exact (randomize_well_formed grp grp' g g' H).
  - intros grp other grp' g g' H. apply In_range.
    exact (BreedableParameterGoup_breed_well_formed grp other grp' g g' H).
  - intros c c'. unfold GeneticCalibration_gradient_update_to_target.
    destruct (outcomes c) as [outs|]; [|discriminate].
    cbn [bind result_monad].
    destruct (BreedableParameterGoup_gradient_update_to_target _ _ _ _)
      as [grp|e] eqn:G; [|discriminate].
    intro H. inversion H; subst. cbn [param_group offspring].
    apply In_range. exact (gradient_update_well_formed _ _ _ _ _ G).
Qed.

Lemma constructed_parameters_witness :
  ((0 <= 1 # 2)%Q /\ (1 # 2 <= 1)%Q /\ (0 < 1)%Q)
  /\ (exists p, @Parameter_init exactQ "x" (1 # 2)%Q 0%Q 1%Q = Ok p
                /\ in_range p /\ val p = (1 # 2)%Q /\ min_val p = 0%Q
                /\ max_val p = 1%Q)
  /\ ~ ((0 <= 2)%Q /\ (2 <= 1)%Q /\ (0 < 1)%Q)
  /\ @Parameter_init exactQ "x" 2%Q 0%Q 1%Q = Raise ValueError
  /\ (exists p, @Parameter_init exactQ "x" 0%Q 0%Q 1%Q = Ok p /\ val p = 0%Q)
  /\ (exists p, @Parameter_init exactQ "x" 1%Q 0%Q 1%Q = Ok p /\ val p = 1%Q).
Proof.
  assert (A : (0 <= 1 # 2)%Q /\ (1 # 2 <= 1)%Q /\ (0 < 1)%Q)
    by (repeat split; lra).
  assert (B : ~ ((0 <= 2)%Q /\ (2 <= 1)%Q /\ (0 < 1)%Q))
    by (intros (_ & H & _); lra).
  assert (C : (0 < 1)%Q) by lra.
  destruct constructed_parameters_are_in_range as (Init & Bounds & _).
  split; [exact A|].
  split; [exact (proj1 (Init "x" (1 # 2)%Q 0%Q 1%Q) A)|].
  split; [exact B|].
  split; [exact (proj2 (Init "x" 2%Q 0%Q 1%Q) B)|].
  exact (Bounds "x" 0%Q 1%Q C).
Defined.

(** ** C7: [remove] *)

(** C7.  What the code does where the claim asks for a removal: [remove]
    leaves a group alone when no parameter of that name is present; when one
    is present it lowers the higher indices, deletes the index entry, and
    then raises [TypeError] at [self.__param_list.pop([idx])], so the list
    keeps the parameter and no longer matches the index.  The group of
    [pOUD_to_RX] and [pOUD_to_DeathOD] after [remove(pOUD_to_RX)] still
    lists both parameters, while its index maps [pOUD_to_DeathOD] to 0, the
    place of [pOUD_to_RX]. *)
Theorem remove_raises_and_keeps_the_list :
  (forall (F : PyFloat) (grp : @BreedableParameterGoup F)
          (p : @BreedableParameter F),
     ~ In (name p) (keys (param_index_dict grp)) ->
     remove grp p = (grp, Ok tt))
  /\ (forall (F : PyFloat) (grp : @BreedableParameterGoup F)
             (p : @BreedableParameter F),
        In (name p) (keys (param_index_dict grp)) ->
        exists d, remove grp p
                  = ({| param_list := param_list grp;
                        param_index_dict := d |}, Raise TypeError))
  /\ remove two_parameters pOUD_to_RX_1
     = ({| param_list := [pOUD_to_RX_1; pOUD_to_DeathOD_1];
           param_index_dict := [("pOUD_to_DeathOD", 0%nat)] |},
        Raise TypeError).
Proof.
  split; [|split].
  - intros F grp p. exact (remove_absent grp p).
  - intros F grp p H. destruct (remove_present grp p H) as (idx & d & _ & _ & R).
    exists d. exact R.
  - vm_compute. reflexivity.
Qed.

(** ** C8: [evaluate_individual_error_contributions] *)

(** C8.  What the code does where the claim asks for a failure: a candidate
    that [evaluate] was never called on holds the empty dictionary as its
    outcomes, not [None], so the guard [outcomes == None] does not fire; on
    a fresh candidate, whose targets are empty too, the call returns the
    empty dictionary. *)
Theorem contributions_of_a_fresh_candidate :
  forall (F : PyFloat) (sqrt : @num F -> @num F)
         (square : @num F -> result (@num F)),
    outcomes (@GeneticCalibration_init F) = Some []
    /\ evaluate_individual_error_contributions sqrt square
         GeneticCalibration_init
       = Ok [].
Proof. intros F sqrt square. split; reflexivity. Qed.

(** ** C10: the missing multiplier *)

(** C10.  [gradient_update_to_target] is not total: for a group of one
    parameter whose only metric has a zero target or a zero outcome, no
    multiplier is stored for the metric, and the lookup
    [target_multipliers[target_name]] raises [KeyError]; the parameter is
    not left unchanged.  This holds in every instance of the arithmetic. *)
Theorem gradient_update_raises_on_a_skipped_metric :
  forall (F : PyFloat) (p : @BreedableParameter F) (t : string)
         (o tv w th err : @num F) (key : option string),
    eqb tv zero || eqb o zero = true ->
    BreedableParameterGoup_gradient_update_to_target
      {| param_list := [p]; param_index_dict := [(name p, 0%nat)] |}
      [(t, o)] [(t, tv)] [(t, [(name p, w)])]
    = Raise KeyError
    /\ GeneticCalibration_gradient_update_to_target
         {| param_group :=
              {| param_list := [p]; param_index_dict := [(name p, 0%nat)] |};
            targets := [(t, tv)];
            outcomes := Some [(t, o)];
            target_to_parameters_weights := [(t, [(name p, w)])];
            threshold := th;
            evaluated_error := err;
            fred_key := key |}
       = Raise KeyError.
Proof.
  intros F p t o tv w th err key H.
  pose proof (gradient_update_skipped_metric p t o tv w H) as G.
  split; [exact G|].
  unfold GeneticCalibration_gradient_update_to_target.
  cbn [outcomes param_group targets target_to_parameters_weights].
  rewrite G. reflexivity.
Qed.

Lemma gradient_update_witness :
  @eqb float64 53%float zero || @eqb float64 0%float zero = true
  /\ GeneticCalibration_gradient_update_to_target
       (candidate 0.001%float 0%float 1%float)
     = Raise KeyError.
Proof.
  split; [reflexivity|].
  exact (proj2 (gradient_update_raises_on_a_skipped_metric float64
                  pOUD_to_DeathOD_1 "opioid_deaths" 0%float 53%float
                  0.5%float 0.1%float 1%float None eq_refl)).
Defined.

(** * More properties of the code *)

(** ** Filling a group and reading it back *)

Lemma names_app {F : PyFloat} (l1 l2 : list (@BreedableParameter F)) :
  names (l1 ++ l2) = names l1 ++ names l2.
Proof. unfold names. apply map_app. Qed.

Lemma keys_indexed_from {F : PyFloat} (start : nat)
    (l : list (@BreedableParameter F)) :
  keys (indexed_from start l) = names l.
Proof.
  unfold indexed_from. revert start.
  induction l as [|p l IH]; intro start; cbn; [reflexivity|].
  f_equal. apply IH.
Qed.

Lemma indexed_from_app {F : PyFloat} (start : nat)
    (l : list (@BreedableParameter F)) (p : @BreedableParameter F) :
  indexed_from start (l ++ [p])
  = indexed_from start l ++ [(name p, (start + length l)%nat)].
Proof.
  unfold indexed_from. revert start.
  induction l as [|q l IH]; intro start; cbn.
  - rewrite Nat.add_0_r. reflexivity.
  - f_equal. rewrite IH. cbn. rewrite Nat.add_succ_r. reflexivity.
Qed.

Lemma dict_set_fresh {V : Type} (k : string) (v : V) (d : dict V) :
  ~ In k (keys d) -> dict_set k v d = d ++ [(k, v)].
Proof.
  induction d as [|[k' v'] d IH]; cbn; intro H; [reflexivity|].
  destruct (String.eqb k k') eqn:E.
  - apply String.eqb_eq in E. exfalso. apply H. left. congruence.
  - f_equal. apply IH. intro K. apply H. right. exact K.
Qed.

Lemma append_duplicate {F : PyFloat} (grp : @BreedableParameterGoup F)
    (p : @BreedableParameter F) :
  In (name p) (keys (param_index_dict grp)) -> append grp p = Raise ValueError.
Proof.
  intro H. unfold append. rewrite (proj2 (dict_mem_In _ _) H). reflexivity.
Qed.

Lemma append_group_ok {F : PyFloat} (grp : @BreedableParameterGoup F)
    (p : @BreedableParameter F) :
  group_ok grp -> ~ In (name p) (names (param_list grp)) ->
  append grp p
  = Ok {| param_list := param_list grp ++ [p];
          param_index_dict := indexed_from 0 (param_list grp ++ [p]) |}
  /\ group_ok {| param_list := param_list grp ++ [p];
                 param_index_dict := indexed_from 0 (param_list grp ++ [p]) |}.
Proof.
  intros [I N] H. split.
  - unfold append.
    assert (K : ~ In (name p) (keys (param_index_dict grp)))
      by (rewrite I, keys_indexed_from; exact H).
    destruct (dict_mem (name p) (param_index_dict grp)) eqn:E.
    { apply dict_mem_In in E. contradiction. }
    cbv zeta. rewrite (dict_set_fresh _ _ _ K), length_app. cbn [length].
    rewrite Nat.add_sub, I, indexed_from_app. reflexivity.
  - split; [reflexivity|]. cbn [param_list]. rewrite names_app. cbn.
    apply NoDup_app_remove_l with (l := []). cbn.
    apply Permutation_NoDup with (l := name p :: names (param_list grp)).
    + apply Permutation_cons_append.
    + constructor; assumption.
Qed.

Lemma append_loop {F : PyFloat} (ps l0 : list (@BreedableParameter F)) :
  NoDup (names l0) ->
  (NoDup (names (l0 ++ ps)) ->
   for_each (m := result) ps
     {| param_list := l0; param_index_dict := indexed_from 0 l0 |} append
   = Ok {| param_list := l0 ++ ps;
           param_index_dict := indexed_from 0 (l0 ++ ps) |})
  /\ (~ NoDup (names (l0 ++ ps)) ->
      for_each (m := result) ps
        {| param_list := l0; param_index_dict := indexed_from 0 l0 |} append
      = Raise ValueError).
Proof.
  revert l0. induction ps as [|p ps IH]; intros l0 N0.
  - rewrite app_nil_r. split; [reflexivity|contradiction].
  - cbn [for_each bind result_monad].
    replace (l0 ++ p :: ps) with ((l0 ++ [p]) ++ ps)
      by (rewrite <- app_assoc; reflexivity).
    destruct (in_dec string_dec (name p) (names l0)) as [D|D].
    + rewrite append_duplicate
        by (cbn [param_index_dict]; rewrite keys_indexed_from; exact D).
      split; [|reflexivity].
      intro N. exfalso. rewrite !names_app in N. cbn in N.
      rewrite <- app_assoc in N. cbn in N.
      apply NoDup_remove_2 in N. apply N, in_or_app. left. exact D.
    + destruct (append_group_ok
                  {| param_list := l0; param_index_dict := indexed_from 0 l0 |}
                  p) as [A [_ N1]]; [split; [reflexivity|exact N0]|exact D|].
      cbn [param_list] in A, N1. rewrite A. exact (IH (l0 ++ [p]) N1).
Qed.

Lemma appended_cases {F : PyFloat} (ps : list (@BreedableParameter F)) :
  (NoDup (names ps) ->
   appended ps
   = Ok {| param_list := ps; param_index_dict := indexed_from 0 ps |})
  /\ (~ NoDup (names ps) -> appended ps = Raise ValueError).
Proof.
  destruct (append_loop ps [] (NoDup_nil _)) as [Y N]. cbn [app] in Y, N.
  split; assumption.
Qed.

Lemma appended_inv {F : PyFloat} (ps : list (@BreedableParameter F))
    (grp : @BreedableParameterGoup F) :
  appended ps = Ok grp -> group_ok grp /\ param_list grp = ps.
Proof.
  intro H. destruct (appended_cases ps) as [Y N].
  destruct (ListDec.NoDup_dec string_dec (names ps)) as [D|D].
  - rewrite (Y D) in H. inversion H; subst.
    split; [split; [reflexivity|exact D]|reflexivity].
  - rewrite (N D) in H. discriminate H.
Qed.

Lemma append_keeps_group_ok {F : PyFloat}
    (grp grp' : @BreedableParameterGoup F) (p : @BreedableParameter F) :
  group_ok grp -> append grp p = Ok grp' ->
  group_ok grp' /\ param_list grp' = param_list grp ++ [p].
Proof.
  intros G A.
  destruct (in_dec string_dec (name p) (names (param_list grp))) as [D|D].
  - rewrite append_duplicate in A; [discriminate A|].
    destruct G as [I _]. rewrite I, keys_indexed_from. exact D.
  - destruct (append_group_ok grp p G D) as [E G'].
    rewrite E in A. inversion A; subst. split; [exact G'|reflexivity].
Qed.

(** X1.  Filling a group by successive [append] calls succeeds exactly when
    the parameters have distinct names, and raises [ValueError] otherwise;
    the group it builds lists the parameters in the order of the calls, and
    its index maps every name to the position of its parameter.  One more
    [append] on a consistent group keeps it consistent. *)
Theorem appended_group_is_consistent {F : PyFloat}
    (ps : list (@BreedableParameter F)) :
  (NoDup (names ps) ->
   appended ps
   = Ok {| param_list := ps; param_index_dict := indexed_from 0 ps |})
  /\ (~ NoDup (names ps) -> appended ps = Raise ValueError)
  /\ (forall grp, appended ps = Ok grp -> group_ok grp /\ param_list grp = ps)
  /\ (forall grp p grp',
        group_ok grp -> append grp p = Ok grp' ->
        group_ok grp' /\ param_list grp' = param_list grp ++ [p]).
Proof.
  destruct (appended_cases ps) as [Y N].
  split; [exact Y|]. split; [exact N|]. split.
  - exact (appended_inv ps).
  - intros grp p grp'. exact (append_keeps_group_ok grp grp' p).
Qed.

Lemma appended_group_witness :
  NoDup (names [pOUD_to_RX_1; pOUD_to_DeathOD_1])
  /\ appended [pOUD_to_RX_1; pOUD_to_DeathOD_1] = Ok two_parameters
  /\ ~ NoDup (names [pOUD_to_RX_1; pOUD_to_RX_1])
  /\ appended [pOUD_to_RX_1; pOUD_to_RX_1] = Raise ValueError.
Proof.
  assert (D : NoDup (names [pOUD_to_RX_1; pOUD_to_DeathOD_1])).
  { repeat constructor; cbn; intuition discriminate. }
  assert (N : ~ NoDup (names [pOUD_to_RX_1; pOUD_to_RX_1])).
  { intro H. inversion H as [|? ? X _]; subst. apply X. left. reflexivity. }
  split; [exact D|].
  split; [exact (proj1 (appended_group_is_consistent _) D)|].
  split; [exact N|].
  exact (proj1 (proj2 (appended_group_is_consistent _)) N).
Defined.

Lemma keys_values {F : PyFloat} (l : list (@BreedableParameter F)) :
  keys (values l) = names l.
Proof. unfold keys, values, names. rewrite map_map. reflexivity. Qed.

Lemma values_app {F : PyFloat} (l1 l2 : list (@BreedableParameter F)) :
  values (l1 ++ l2) = values l1 ++ values l2.
Proof. unfold values. apply map_app. Qed.

Lemma get_as_dictionary_loop {F : PyFloat}
    (suf pre : list (@BreedableParameter F)) :
  NoDup (names (pre ++ suf)) ->
  for_each (m := result) (indexed_from (length pre) suf) (values pre)
    (fun ret_val kv =>
       do (p : @BreedableParameter F) <- list_get (pre ++ suf) (snd kv) ;;
       ret (dict_set (fst kv) (val p) ret_val))
  = Ok (values (pre ++ suf)).
Proof.
  revert pre. induction suf as [|p suf IH]; intros pre N.
  - rewrite app_nil_r. reflexivity.
  - unfold indexed_from. cbn [names map length seq combine for_each fst snd].
    unfold list_get at 1.
    rewrite nth_error_app2, Nat.sub_diag by apply Nat.le_refl.
    cbn [nth_error bind ret result_monad].
    rewrite dict_set_fresh.
    + replace (pre ++ p :: suf) with ((pre ++ [p]) ++ suf) in *
        by (rewrite <- app_assoc; reflexivity).
      specialize (IH (pre ++ [p]) N).
      rewrite length_app, Nat.add_1_r, values_app in IH. exact IH.
    + rewrite keys_values. rewrite names_app in N. cbn in N.
      apply NoDup_remove_2 in N. intro K. apply N, in_or_app. left. exact K.
Qed.

Lemma dict_find_values {F : PyFloat} (l : list (@BreedableParameter F))
    (p : @BreedableParameter F) :
  NoDup (names l) -> In p l -> dict_find (name p) (values l) = Some (val p).
Proof.
  induction l as [|q l IH]; intros N H; [contradiction|].
  cbn. inversion N as [|? ? Nq Nl]; subst.
  destruct H as [->|H].
  - rewrite String.eqb_refl. reflexivity.
  - destruct (String.eqb (name p) (name q)) eqn:E.
    + apply String.eqb_eq in E. exfalso. apply Nq. rewrite <- E.
      unfold names. apply (in_map (fun x : @BreedableParameter F => name x)).
      exact H.
    + exact (IH Nl H).
Qed.

(** X2.  On a consistent group, [get_as_dictionary] returns the name and the
    value of every parameter, in the order of the list, so that looking a
    parameter's name up in it gives back the parameter's value; a group
    filled by [append] calls reads back as the values it was filled with. *)
Theorem get_as_dictionary_reads_the_values {F : PyFloat} :
  (forall grp : @BreedableParameterGoup F,
     group_ok grp ->
     get_as_dictionary grp = Ok (values (param_list grp))
     /\ forall p, In p (param_list grp) ->
                  dict_find (name p) (values (param_list grp))
                  = Some (val p))
  /\ (forall (ps : list (@BreedableParameter F)) grp,
        appended ps = Ok grp -> get_as_dictionary grp = Ok (values ps)).
Proof.
  assert (R : forall grp : @BreedableParameterGoup F,
             group_ok grp ->
             get_as_dictionary grp = Ok (values (param_list grp))).
  { intros grp [I N]. unfold get_as_dictionary. rewrite I.
    exact (get_as_dictionary_loop (param_list grp) [] N). }
  split.
  - intros grp G. split; [exact (R grp G)|].
    intros p H. apply dict_find_values; [apply G|exact H].
  - intros ps grp H.
    destruct (appended_inv ps grp H) as [G E].
    rewrite (R grp G), E. reflexivity.
Qed.

Lemma get_as_dictionary_witness :
  group_ok two_parameters
  /\ get_as_dictionary two_parameters
     = Ok [("pOUD_to_RX", 0.088%float); ("pOUD_to_DeathOD", 0.001%float)].
Proof.
  assert (G : group_ok two_parameters).
  { split; [reflexivity|]. repeat constructor; cbn; intuition discriminate. }
  split; [exact G|].
  exact (proj1 (proj1 get_as_dictionary_reads_the_values two_parameters G)).
Defined.

(** ** Copies and assignments *)

Lemma clone_well_formed (p : @BreedableParameter exactQ) :
  well_formed p -> clone p = Ok p.
Proof.
  intros ((A & B) & C & D & E). unfold clone.
  rewrite BreedableParameter_init_ok by assumption.
  destruct p as [[n v lo hi] mp]. reflexivity.
Qed.

Lemma clone_not_well_formed (p : @BreedableParameter exactQ) :
  ~ well_formed p -> clone p = Raise ValueError.
Proof.
  intro N. unfold clone, BreedableParameter_init, Parameter_init. exact_ops.
  split_tests; cbn [bind result_monad]; exact_ops; split_tests;
    try reflexivity.
  exfalso. apply N. unfold well_formed, in_range. repeat split; lra.
Qed.

(** X3.  Over exact arithmetic, [clone] returns the parameter itself when
    the parameter passes the checks of the constructor, and raises
    [ValueError] when it does not (as after an assignment to [val] that left
    the range). *)
Theorem clone_copies_exactly_the_well_formed
    (p : @BreedableParameter exactQ) :
  (well_formed p -> clone p = Ok p)
  /\ (~ well_formed p -> clone p = Raise ValueError)
  /\ (forall r, clone p = Ok r -> r = p /\ well_formed p).
Proof.
  split; [exact (clone_well_formed p)|].
  split; [exact (clone_not_well_formed p)|].
  intros r H. pose proof (BreedableParameter_init_inv _ _ _ _ _ _ H) as [E W].
  assert (R : r = p) by (rewrite E; destruct p as [[n v lo hi] mp]; reflexivity).
  split; [exact R|]. rewrite <- R. exact W.
Qed.

Lemma clone_witness :
  well_formed inside /\ clone inside = Ok inside
  /\ ~ well_formed (assign inside (AssignVal 2%Q))
  /\ clone (assign inside (AssignVal 2%Q)) = Raise ValueError.
Proof.
  assert (W : well_formed inside)
    by (unfold well_formed, in_range; cbn; repeat split; lra).
  assert (N : ~ well_formed (assign inside (AssignVal 2%Q)))
    by (unfold well_formed, in_range; cbn; intros ((_ & H) & _); lra).
  split; [exact W|].
  split; [exact (proj1 (clone_copies_exactly_the_well_formed inside) W)|].
  split; [exact N|].
  exact (proj1 (proj2 (clone_copies_exactly_the_well_formed _)) N).
Defined.

Lemma assign_keeps_bounds (p : @BreedableParameter exactQ) (a : assignment) :
  (min_val p < max_val p)%Q /\ (0 <= mutation_prob p)%Q
  /\ (mutation_prob p <= 1)%Q ->
  ((min_val (assign p a) < max_val (assign p a))%Q
   /\ (0 <= mutation_prob (assign p a))%Q
   /\ (mutation_prob (assign p a) <= 1)%Q)
  /\ name (assign p a) = name p.
Proof.
  intros (A & B & C).
  destruct a as [v|v|v|v]; cbn [assign].
  - cbn. auto.
  - unfold set_min_val. exact_ops.
    split_tests; cbn; repeat split; try assumption; try reflexivity; lra.
  - unfold set_max_val. exact_ops.
    split_tests; cbn; repeat split; try assumption; try reflexivity; lra.
  - unfold set_mutation_prob. exact_ops.
    split_tests; cbn; repeat split; try assumption; try reflexivity; lra.
Qed.

(** X4.  Over exact arithmetic, whatever assignments are made to [val],
    [min_val], [max_val] and [mutation_prob] of a parameter the constructor
    accepted, and in whatever order, the parameter keeps its name, keeps
    [min_val < max_val], and keeps its mutation probability in [[0, 1]]: the
    [min_val], [max_val] and [mutation_prob] setters refuse the values that
    would break that. *)
Theorem assignments_keep_the_bounds_ordered
    (p : @BreedableParameter exactQ) (assignments : list assignment) :
  well_formed p ->
  (min_val (fold_left assign assignments p)
   < max_val (fold_left assign assignments p))%Q
  /\ (0 <= mutation_prob (fold_left assign assignments p))%Q
  /\ (mutation_prob (fold_left assign assignments p) <= 1)%Q
  /\ name (fold_left assign assignments p) = name p.
Proof.
  intros (_ & A & B & C).
  assert (G : forall q : @BreedableParameter exactQ,
             (min_val q < max_val q)%Q /\ (0 <= mutation_prob q)%Q
             /\ (mutation_prob q <= 1)%Q ->
             ((min_val (fold_left assign assignments q)
               < max_val (fold_left assign assignments q))%Q
              /\ (0 <= mutation_prob (fold_left assign assignments q))%Q
              /\ (mutation_prob (fold_left assign assignments q) <= 1)%Q)
             /\ name (fold_left assign assignments q) = name q).
  { induction assignments as [|a l IH]; intros q H; cbn [fold_left].
    - split; [exact H|reflexivity].
    - destruct (assign_keeps_bounds q a H) as [H' N].
      destruct (IH (assign q a) H') as [H'' N'].
      split; [exact H''|congruence]. }
  destruct (G p (conj A (conj B C))) as [(X & Y & Z) N]. auto.
Qed.

Lemma assignments_witness :
  well_formed inside
  /\ (min_val (fold_left assign
                 [AssignMinVal 5%Q; AssignMaxVal (1 # 2)%Q; AssignVal 9%Q;
                  AssignMutationProb 3%Q] inside)
      < max_val (fold_left assign
                   [AssignMinVal 5%Q; AssignMaxVal (1 # 2)%Q; AssignVal 9%Q;
                    AssignMutationProb 3%Q] inside))%Q.
Proof.
  assert (W : well_formed inside)
    by (unfold well_formed, in_range; cbn; repeat split; lra).
  split; [exact W|].
  exact (proj1 (assignments_keep_the_bounds_ordered inside
                  [AssignMinVal 5%Q; AssignMaxVal (1 # 2)%Q; AssignVal 9%Q;
                   AssignMutationProb 3%Q] W)).
Defined.

(** ** [move_towards_value] at every rate *)

Lemma move_towards_value_closed_form (p : @BreedableParameter exactQ)
    (target rate : Q) :
  well_formed p -> (0 <= rate)%Q -> (rate <= 1)%Q ->
  exists r,
    move_towards_value p target rate = Ok r
    /\ (val r
        == val p + rate * (clamp (min_val p) (max_val p) target - val p))%Q
    /\ well_formed r
    /\ name r = name p /\ min_val r = min_val p /\ max_val r = max_val p
    /\ mutation_prob r = mutation_prob p.
Proof.
  intros ((A & B) & C & D & E) R0 R1.
  unfold move_towards_value, clamp. exact_ops.
  assert (T0 : Qltb rate 0 = false) by (apply Qltb_false; exact R0).
  assert (T1 : Qltb 1 rate = false) by (apply Qltb_false; exact R1).
  rewrite T0, T1. cbn [orb].
  destruct (Qltb (max_val p) target) eqn:Tmax;
    [|destruct (Qltb target (min_val p)) eqn:Tmin]; read_tests.
  - (* the target is above the range *)
    destruct (Qabs_cases (max_val p - val p)) as [[S Ab]|[S Ab]];
      revert Ab; generalize (Qabs (max_val p - val p)); intros d Ab.
    all: destruct (uniform_between (val p) (max_val p) rate) as [L H];
      try assumption.
    all: assert (X : (rate * (max_val p - val p)
                      == (max_val p - val p) * rate)%Q) by ring.
    all: assert (Y : (d * rate == (max_val p - val p) * rate)%Q)
      by (rewrite Ab; try ring; assert (Z : (max_val p - val p == 0)%Q)
            by lra; rewrite Z; ring).
    all: split_tests; try lra.
    all: eexists; split;
      [ apply BreedableParameter_init_ok; try assumption; lra
      | split; [cbn; lra
               |split; [unfold well_formed, in_range; cbn; repeat split;
                        try assumption; lra
                       |cbn; auto]] ].
  - (* the target is below the range *)
    destruct (Qabs_cases (val p - min_val p)) as [[S Ab]|[S Ab]];
      revert Ab; generalize (Qabs (val p - min_val p)); intros d Ab.
    all: destruct (uniform_between (min_val p) (val p) (1 - rate)) as [L H];
      try assumption; try lra.
    all: assert (X : (min_val p + (val p - min_val p) * (1 - rate)
                      == val p - (val p - min_val p) * rate)%Q) by ring.
    all: assert (X' : (rate * (min_val p - val p)
                       == - ((val p - min_val p) * rate))%Q) by ring.
    all: assert (Y : (d * rate == (val p - min_val p) * rate)%Q)
      by (rewrite Ab; try ring; assert (Z : (val p - min_val p == 0)%Q)
            by lra; rewrite Z; ring).
    all: split_tests; try lra.
    all: eexists; split;
      [ apply BreedableParameter_init_ok; try assumption; lra
      | split; [cbn; lra
               |split; [unfold well_formed, in_range; cbn; repeat split;
                        try assumption; lra
                       |cbn; auto]] ].
  - (* the target is in the range *)
    destruct (Qabs_cases (target - val p)) as [[S Ab]|[S Ab]];
      revert Ab; generalize (Qabs (target - val p)); intros d Ab.
    + destruct (uniform_between (val p) target rate) as [L H];
        try assumption; try lra.
      assert (X : (rate * (target - val p) == (target - val p) * rate)%Q)
        by ring.
      assert (Y : (d * rate == (target - val p) * rate)%Q)
        by (rewrite Ab; ring).
      split_tests; try lra.
      all: eexists; split;
        [ apply BreedableParameter_init_ok; try assumption; lra
        | split; [cbn; lra
                 |split; [unfold well_formed, in_range; cbn; repeat split;
                          try assumption; lra
                         |cbn; auto]] ].
    + destruct (uniform_between target (val p) (1 - rate)) as [L H];
        try assumption; try lra.
      assert (X : (target + (val p - target) * (1 - rate)
                   == val p - (val p - target) * rate)%Q) by ring.
      assert (X' : (rate * (target - val p)
                    == - ((val p - target) * rate))%Q) by ring.
      assert (Y : (d * rate == (val p - target) * rate)%Q)
        by (rewrite Ab; ring).
      split_tests; try lra.
      all: eexists; split;
        [ apply BreedableParameter_init_ok; try assumption; lra
        | split; [cbn; lra
                 |split; [unfold well_formed, in_range; cbn; repeat split;
                          try assumption; lra
                         |cbn; auto]] ].
Qed.

(** X5.  Over exact arithmetic, on a well-formed parameter and a rate in
    [[0, 1]], [move_towards_value] never raises, whatever the target: it
    returns the parameter with the same name, bounds and mutation
    probability whose value is [val + rate * (t - val)], where [t] is the
    target brought into [[min_val, max_val]]; so the new value lies between
    the old value and that point, inside the range. *)
Theorem move_towards_value_steps_towards_the_clamped_target
    (p : @BreedableParameter exactQ) (target rate : Q) :
  well_formed p -> (0 <= rate)%Q -> (rate <= 1)%Q ->
  exists r,
    move_towards_value p target rate = Ok r
    /\ (val r
        == val p + rate * (clamp (min_val p) (max_val p) target - val p))%Q
    /\ well_formed r
    /\ name r = name p /\ min_val r = min_val p /\ max_val r = max_val p
    /\ mutation_prob r = mutation_prob p.
Proof. exact (move_towards_value_closed_form p target rate). Qed.

Lemma move_towards_value_step_witness :
  well_formed inside /\ (0 <= 85 # 100)%Q /\ (85 # 100 <= 1)%Q
  /\ exists r,
       move_towards_value inside 7%Q (85 # 100)%Q = Ok r
       /\ (val r == (1 # 4) + (85 # 100) * (1 - (1 # 4)))%Q.
Proof.
  assert (W : well_formed inside)
    by (unfold well_formed, in_range; cbn; repeat split; lra).
  assert (R0 : (0 <= 85 # 100)%Q) by lra.
  assert (R1 : (85 # 100 <= 1)%Q) by lra.
  split; [exact W|]. split; [exact R0|]. split; [exact R1|].
  destruct (move_towards_value_steps_towards_the_clamped_target
              inside 7%Q (85 # 100)%Q W R0 R1) as (r & H & V & _).
  exists r. split; [exact H|]. exact V.
Defined.

(** ** The multipliers of [gradient_update_to_target] *)

Lemma dict_find_set {V : Type} (k k' : string) (v : V) (d : dict V) :
  dict_find k (dict_set k' v d)
  = if String.eqb k k' then Some v else dict_find k d.
Proof.
  induction d as [|[k0 v0] d IH]; cbn.
  - destruct (String.eqb k k'); reflexivity.
  - destruct (String.eqb k' k0) eqn:E; cbn.
    + apply String.eqb_eq in E. subst k0.
      destruct (String.eqb k k'); reflexivity.
    + rewrite IH. destruct (String.eqb k k0) eqn:E0; [|reflexivity].
      apply String.eqb_eq in E0. subst k0.
      destruct (String.eqb k k') eqn:E1; [|reflexivity].
      apply String.eqb_eq in E1. subst k'. rewrite String.eqb_refl in E.
      discriminate E.
Qed.

Lemma dict_find_absent {V : Type} (k : string) (d : dict V) :
  ~ In k (keys d) -> dict_find k d = None.
Proof.
  intro H. destruct (dict_find k d) eqn:E; [|reflexivity].
  exfalso. apply H, dict_mem_In. unfold dict_mem. rewrite E. reflexivity.
Qed.

Lemma quotient_nonzero (o t : Q) :
  ~ (t == 0)%Q -> ~ (o == 0)%Q -> ~ (o / t == 0)%Q.
Proof.
  intros T O H. apply O.
  setoid_replace o with ((o / t) * t)%Q by (field; exact T).
  rewrite H. ring.
Qed.

Lemma multipliers_loop (tgts outs acc : dict Q) :
  NoDup (keys outs) ->
  (forall k, In k (keys outs) -> In k (keys tgts)) ->
  exists tm : dict Q,
    for_each (m := result) outs acc
      (fun target_multipliers kv =>
         do t <- dict_get (fst kv) tgts ;;
         if @eqb exactQ t zero || @eqb exactQ (snd kv) zero
         then ret target_multipliers
         else
           do r <- @fdiv exactQ (snd kv) t ;;
           do m <- @fdiv exactQ one r ;;
           ret (dict_set (fst kv) m target_multipliers)) = Ok tm
    /\ forall k,
         dict_find k tm
         = match multiplier_of outs tgts k with
           | Some m => Some m
           | None => dict_find k acc
           end.
Proof.
  revert acc. induction outs as [|[k0 o] outs IH]; intros acc N Sub.
  - exists acc. split; [reflexivity|]. intro k. reflexivity.
  - inversion N as [|? ? N0 N1]; subst.
    cbn [for_each fst snd bind result_monad].
    destruct (dict_get_present k0 tgts) as (t & Ft & Gt).
    { apply Sub. left. reflexivity. }
    rewrite Gt. exact_ops.
    assert (Rest : forall k, In k (keys outs) -> In k (keys tgts))
      by (intros k Hk; apply Sub; right; exact Hk).
    assert (Look : forall k acc',
               match multiplier_of outs tgts k with
               | Some m => Some m
               | None => dict_find k acc'
               end
               = if String.eqb k k0 then dict_find k acc'
                 else match multiplier_of outs tgts k with
                      | Some m => Some m
                      | None => dict_find k acc'
                      end).
    { intros k acc'. destruct (String.eqb k k0) eqn:E; [|reflexivity].
      apply String.eqb_eq in E. subst k. unfold multiplier_of.
      rewrite (dict_find_absent k0 outs N0). reflexivity. }
    destruct (Qeq_bool t 0 || Qeq_bool o 0) eqn:Z.
    + cbn [ret result_monad].
      destruct (IH acc N1 Rest) as (tm & Htm & Ltm).
      exists tm. split; [exact Htm|]. intro k. rewrite Ltm, Look.
      destruct (String.eqb k k0) eqn:E.
      * apply String.eqb_eq in E. subst k. unfold multiplier_of.
        cbn [dict_find]. rewrite String.eqb_refl, Ft, Z. reflexivity.
      * unfold multiplier_of. cbn [dict_find]. rewrite E. reflexivity.
    + apply orb_false_iff in Z. destruct Z as [Zt Zo].
      unfold fdiv. exact_ops. rewrite Zt.
      cbn [bind result_monad].
      assert (Zq : Qeq_bool (o / t) 0 = false).
      { apply Qeq_bool_false. apply quotient_nonzero.
        - apply Qeq_bool_false. exact Zt.
        - apply Qeq_bool_false. exact Zo. }
      rewrite Zq. cbn [ret result_monad].
      destruct (IH (dict_set k0 (1 / (o / t))%Q acc) N1 Rest)
        as (tm & Htm & Ltm).
      exists tm. split; [exact Htm|]. intro k. rewrite Ltm, Look.
      rewrite dict_find_set.
      destruct (String.eqb k k0) eqn:E.
      * apply String.eqb_eq in E. subst k. unfold multiplier_of.
        cbn [dict_find]. rewrite String.eqb_refl, Ft, Zt, Zo. reflexivity.
      * unfold multiplier_of. cbn [dict_find]. rewrite E. reflexivity.
Qed.

Lemma multipliers_missing_target (tgts outs acc : dict Q) :
  (exists k, In k (keys outs) /\ ~ In k (keys tgts)) ->
  for_each (m := result) outs acc
    (fun target_multipliers kv =>
       do t <- dict_get (fst kv) tgts ;;
       if @eqb exactQ t zero || @eqb exactQ (snd kv) zero
       then ret target_multipliers
       else
         do r <- @fdiv exactQ (snd kv) t ;;
         do m <- @fdiv exactQ one r ;;
         ret (dict_set (fst kv) m target_multipliers)) = Raise KeyError.
Proof.
  revert acc. induction outs as [|[k0 o] outs IH]; intros acc (k & Hk & Nk).
  - contradiction.
  - cbn [for_each fst snd bind result_monad].
    destruct (in_dec string_dec k0 (keys tgts)) as [D|D].
    + destruct (dict_get_present k0 tgts D) as (t & Ft & Gt).
      rewrite Gt. exact_ops.
      assert (Rest : exists k, In k (keys outs) /\ ~ In k (keys tgts)).
      { exists k. split; [|exact Nk]. destruct Hk as [E|Hk]; [|exact Hk].
        cbn in E. subst k. contradiction. }
      destruct (Qeq_bool t 0 || Qeq_bool o 0) eqn:Z.
      * cbn [ret result_monad]. apply IH, Rest.
      * apply orb_false_iff in Z. destruct Z as [Zt Zo].
        unfold fdiv. exact_ops. rewrite Zt. cbn [bind result_monad].
        assert (Zq : Qeq_bool (o / t) 0 = false).
        { apply Qeq_bool_false. apply quotient_nonzero.
          - apply Qeq_bool_false. exact Zt.
          - apply Qeq_bool_false. exact Zo. }
        rewrite Zq. cbn [ret result_monad]. apply IH, Rest.
    + unfold dict_get. rewrite (dict_find_absent k0 tgts D). reflexivity.
Qed.

(** X6.  Over exact arithmetic, for outcomes whose metrics all have a
    target, the first loop of [gradient_update_to_target] never raises, and
    the multipliers it returns hold, for exactly the metrics whose target
    and outcome are both not zero, the value [1 / (outcome / target)], which
    is [target / outcome]; when some outcome has no target, the loop raises
    [KeyError]. *)
Theorem target_multipliers_are_target_over_outcome (outs tgts : dict Q) :
  (NoDup (keys outs) ->
   (forall k, In k (keys outs) -> In k (keys tgts)) ->
   exists tm : dict Q,
     @compute_target_multipliers exactQ outs tgts = Ok tm
     /\ (forall k, dict_find k tm = multiplier_of outs tgts k)
     /\ (forall k m, dict_find k tm = Some m ->
           exists o t, dict_find k outs = Some o /\ dict_find k tgts = Some t
                       /\ ~ (o == 0)%Q /\ ~ (t == 0)%Q /\ (m == t / o)%Q))
  /\ ((exists k, In k (keys outs) /\ ~ In k (keys tgts)) ->
      @compute_target_multipliers exactQ outs tgts = Raise KeyError).
Proof.
  split.
  - intros N Sub.
    destruct (multipliers_loop tgts outs [] N Sub) as (tm & Htm & Ltm).
    assert (L : forall k, dict_find k tm = multiplier_of outs tgts k).
    { intro k. rewrite Ltm. destruct (multiplier_of outs tgts k); reflexivity. }
    exists tm. split; [exact Htm|]. split; [exact L|].
    intros k m Hm. rewrite L in Hm. unfold multiplier_of in Hm.
    destruct (dict_find k outs) as [o|]; [|discriminate Hm].
    destruct (dict_find k tgts) as [t|]; [|discriminate Hm].
    destruct (Qeq_bool t 0) eqn:Zt; [discriminate Hm|].
    destruct (Qeq_bool o 0) eqn:Zo; [discriminate Hm|].
    cbn [orb] in Hm. inversion Hm; subst. read_tests.
    exists o, t. repeat split; try assumption. field. split; assumption.
  - exact (multipliers_missing_target tgts outs []).
Qed.

Lemma target_multipliers_witness :
  NoDup (keys [("opioid_deaths", 106%Q); ("opioid_use_disorder", 0%Q)])
  /\ (forall k,
        In k (keys [("opioid_deaths", 106%Q); ("opioid_use_disorder", 0%Q)]) ->
        In k (keys [("opioid_deaths", 53%Q); ("opioid_use_disorder", 237%Q)]))
  /\ exists tm : dict Q,
       @compute_target_multipliers exactQ
         [("opioid_deaths", 106%Q); ("opioid_use_disorder", 0%Q)]
         [("opioid_deaths", 53%Q); ("opioid_use_disorder", 237%Q)] = Ok tm
       /\ dict_find "opioid_deaths" tm = Some (1 / (106 / 53))%Q
       /\ dict_find "opioid_use_disorder" tm = None.
Proof.
  assert (N : NoDup (keys [("opioid_deaths", 106%Q);
                           ("opioid_use_disorder", 0%Q)])).
  { repeat constructor; cbn; intuition discriminate. }
  assert (Sub : forall k,
             In k (keys [("opioid_deaths", 106%Q);
                         ("opioid_use_disorder", 0%Q)]) ->
             In k (keys [("opioid_deaths", 53%Q);
                         ("opioid_use_disorder", 237%Q)])).
  { intros k H. exact H. }
  split; [exact N|]. split; [exact Sub|].
  destruct (proj1 (target_multipliers_are_target_over_outcome _ _) N Sub)
    as (tm & H & L & _).
  exists tm. split; [exact H|].
  split; [exact (L "opioid_deaths")|exact (L "opioid_use_disorder")].
Defined.

(** ** The weights of [gradient_update_to_target] *)

Lemma scan_weights_first_weight {F : PyFloat}
    (grp : @BreedableParameterGoup F) (tm : dict (@num F)) (n : string)
    (i : nat) (weights : dict (dict (@num F))) :
  scan_weights grp tm n i weights
  = match first_weight n weights with
    | None => Ok (false, zero)
    | Some (t, w) =>
        do (p : @BreedableParameter F) <- list_get (param_list grp) i ;;
        do m <- dict_get t tm ;;
        ret (true, mul (mul (val p) w) m)
    end.
Proof.
  induction weights as [|[t wd] weights IH];
    cbn [scan_weights first_weight]; [reflexivity|].
  unfold dict_mem, dict_get at 1.
  destruct (dict_find n wd) as [w|]; [|exact IH].
  destruct (list_get (param_list grp) i); reflexivity.
Qed.

Lemma first_weight_unweighted {V : Type} (n : string)
    (weights : dict (dict V)) :
  (forall t wd, In (t, wd) weights -> dict_mem n wd = false) ->
  first_weight n weights = None.
Proof.
  induction weights as [|[t wd] weights IH]; intro U; cbn; [reflexivity|].
  pose proof (U t wd (or_introl eq_refl)) as M. unfold dict_mem in M.
  destruct (dict_find n wd); [discriminate M|].
  apply IH. intros t' wd' H. apply (U t' wd'). right. exact H.
Qed.

Lemma first_weight_after_unweighted {V : Type} (n : string)
    (pre post : dict (dict V)) (t : string) (wd : dict V) (w : V) :
  (forall t' wd', In (t', wd') pre -> dict_mem n wd' = false) ->
  dict_find n wd = Some w ->
  first_weight n (pre ++ (t, wd) :: post) = Some (t, w).
Proof.
  induction pre as [|[t0 wd0] pre IH]; intros U W; cbn.
  - rewrite W. reflexivity.
  - pose proof (U t0 wd0 (or_introl eq_refl)) as M. unfold dict_mem in M.
    destruct (dict_find n wd0); [discriminate M|].
    apply IH; [|exact W]. intros t' wd' H. apply (U t' wd'). right. exact H.
Qed.

(** X7.  The inner loop of [gradient_update_to_target] stops at the first
    metric, in the order of the weights dictionary, whose weights name the
    parameter: the target value is [val * weight * multiplier] for that
    metric, whatever the metrics after it say; when that metric has no
    multiplier the loop raises [KeyError], even if a later metric weights
    the parameter too; and a parameter no metric names is not found. *)
Theorem scan_weights_stops_at_the_first_metric {F : PyFloat}
    (grp : @BreedableParameterGoup F) (tm : dict (@num F)) (n : string)
    (i : nat) (p : @BreedableParameter F) :
  nth_error (param_list grp) i = Some p ->
  (forall weights,
     unweighted n weights ->
     scan_weights grp tm n i weights = Ok (false, zero))
  /\ (forall pre post t wd w,
        unweighted n pre -> dict_find n wd = Some w ->
        scan_weights grp tm n i (pre ++ (t, wd) :: post)
        = match dict_find t tm with
          | Some m => Ok (true, mul (mul (val p) w) m)
          | None => Raise KeyError
          end).
Proof.
  intro P. split.
  - intros weights U. rewrite scan_weights_first_weight.
    rewrite (first_weight_unweighted n weights U). reflexivity.
  - intros pre post t wd w U W. rewrite scan_weights_first_weight.
    rewrite (first_weight_after_unweighted n pre post t wd w U W).
    unfold list_get, dict_get. rewrite P. cbn [bind result_monad].
    destruct (dict_find t tm); reflexivity.
Qed.

Lemma scan_weights_witness :
  nth_error (param_list two_parameters) 1 = Some pOUD_to_DeathOD_1
  /\ @unweighted float64 "pOUD_to_DeathOD"
       [("opioid_use_disorder", [("pStart_to_OUD", 0.4%float)])]
  /\ @scan_weights float64 two_parameters [("opioid_deaths", 0.5%float)]
       "pOUD_to_DeathOD" 1
       ([("opioid_use_disorder", [("pStart_to_OUD", 0.4%float)])]
        ++ ("opioid_deaths", [("pOUD_to_DeathOD", 0.5%float)])
           :: [("opioid_use_disorder", [("pOUD_to_DeathOD", 0.9%float)])])
     = Ok (true, (0.001 * 0.5 * 0.5)%float)
  /\ @scan_weights float64 two_parameters [("opioid_use_disorder", 2%float)]
       "pOUD_to_DeathOD" 1
       ([("opioid_use_disorder", [("pStart_to_OUD", 0.4%float)])]
        ++ ("opioid_deaths", [("pOUD_to_DeathOD", 0.5%float)])
           :: [("opioid_use_disorder", [("pOUD_to_DeathOD", 0.9%float)])])
     = Raise KeyError.
Proof.
  assert (P : nth_error (param_list two_parameters) 1
              = Some pOUD_to_DeathOD_1) by reflexivity.
  assert (U : @unweighted float64 "pOUD_to_DeathOD"
                [("opioid_use_disorder", [("pStart_to_OUD", 0.4%float)])]).
  { intros t wd [E|[]]. inversion E; subst. reflexivity. }
  split; [exact P|]. split; [exact U|]. split.
  - exact (proj2 (@scan_weights_stops_at_the_first_metric float64
                    two_parameters
                    [("opioid_deaths", 0.5%float)] "pOUD_to_DeathOD" 1
                    pOUD_to_DeathOD_1 P)
             _ [("opioid_use_disorder", [("pOUD_to_DeathOD", 0.9%float)])]
             "opioid_deaths" [("pOUD_to_DeathOD", 0.5%float)] 0.5%float
             U eq_refl).
  - exact (proj2 (@scan_weights_stops_at_the_first_metric float64
                    two_parameters
                    [("opioid_use_disorder", 2%float)] "pOUD_to_DeathOD" 1
                    pOUD_to_DeathOD_1 P)
             _ [("opioid_use_disorder", [("pOUD_to_DeathOD", 0.9%float)])]
             "opioid_deaths" [("pOUD_to_DeathOD", 0.5%float)] 0.5%float
             U eq_refl).
Defined.

(** ** The weighted update of a group *)

Lemma indexed_from_cons {F : PyFloat} (start : nat)
    (p : @BreedableParameter F) (l : list (@BreedableParameter F)) :
  indexed_from start (p :: l) = (name p, start) :: indexed_from (S start) l.
Proof. reflexivity. Qed.

Lemma moved_names (outs tgts : dict Q) (weights : dict (dict Q))
    (ps rs : list (@BreedableParameter exactQ)) :
  Forall2 (moved outs tgts weights) ps rs -> names rs = names ps.
Proof.
  induction 1 as [|p r ps rs (N & _) _ IH]; [reflexivity|].
  unfold names in *. cbn [map]. rewrite N, IH. reflexivity.
Qed.

Lemma moved_not_skipped (outs tgts : dict Q) (weights : dict (dict Q))
    (ps rs : list (@BreedableParameter exactQ)) :
  Forall2 (moved outs tgts weights) ps rs ->
  ~ weighted_by_a_skipped_metric outs tgts weights ps.
Proof.
  induction 1 as [|p r ps rs Mv _ IH]; intros (x & t & w & I & FW & Mu).
  - contradiction.
  - destruct I as [<-|I].
    + destruct Mv as (_ & _ & _ & _ & Mv). rewrite FW in Mv.
      destruct Mv as (m & Mm & _). congruence.
    + apply IH. exists x, t, w. auto.
Qed.

Section GradientLoop.

Variables (grp : @BreedableParameterGoup exactQ) (outs tgts tm : dict Q).
Variable weights : dict (dict Q).
Variable body : @BreedableParameterGoup exactQ -> string * nat
                -> result (@BreedableParameterGoup exactQ).

Hypothesis body_eq : forall new_group kv,
  body new_group kv
  = do (ft : bool * Q) <- @scan_weights exactQ grp tm (fst kv) (snd kv)
                            weights ;;
    do (p : @BreedableParameter exactQ) <- list_get (param_list grp) (snd kv) ;;
    do new_param <- (if fst ft
                     then move_towards_value p (snd ft) (85 # 100)%Q
                     else clone p) ;;
    append new_group new_param.

Hypothesis tm_eq : forall k, dict_find k tm = multiplier_of outs tgts k.

Lemma gradient_step (acc : @BreedableParameterGoup exactQ) (i : nat)
    (p : @BreedableParameter exactQ) :
  nth_error (param_list grp) i = Some p ->
  well_formed p -> group_ok acc -> ~ In (name p) (names (param_list acc)) ->
  (weighted_by_a_skipped_metric outs tgts weights [p]
   /\ body acc (name p, i) = Raise KeyError)
  \/ (exists r : @BreedableParameter exactQ,
        moved outs tgts weights p r
        /\ body acc (name p, i)
           = Ok {| param_list := param_list acc ++ [r];
                   param_index_dict :=
                     indexed_from 0 (param_list acc ++ [r]) |}
        /\ group_ok {| param_list := param_list acc ++ [r];
                       param_index_dict :=
                         indexed_from 0 (param_list acc ++ [r]) |}).
Proof.
  intros P W G N. rewrite body_eq. cbn [fst snd].
  rewrite scan_weights_first_weight. unfold list_get. rewrite P.
  cbn [bind result_monad]. change (@num exactQ) with Q.
  destruct (first_weight (name p) weights) as [[t w]|] eqn:FW.
  - unfold dict_get. rewrite tm_eq.
    destruct (multiplier_of outs tgts t) as [m|] eqn:Mu.
    + cbn [bind ret result_monad fst snd]. exact_ops.
      destruct (move_towards_value_closed_form p (val p * w * m)%Q
                  (85 # 100)%Q W)
        as (r & Hr & V & Wr & Nr & Lo & Hi & Mp); [lra|lra|].
      rewrite Hr. right. exists r.
      destruct (append_group_ok acc r G) as [A G'];
        [rewrite Nr; exact N|].
      split; [|split; [exact A|exact G']].
      unfold moved. rewrite FW. repeat split; try assumption.
      exists m. split; [exact Mu|exact V].
    + left. split; [|reflexivity].
      exists p, t, w. split; [left; reflexivity|]. split; assumption.
  - cbn [bind ret result_monad fst snd].
    rewrite (clone_well_formed p W). right. exists p.
    destruct (append_group_ok acc p G N) as [A G'].
    split; [|split; [exact A|exact G']].
    unfold moved. rewrite FW. repeat split; reflexivity.
Qed.

Lemma gradient_loop (suf pre : list (@BreedableParameter exactQ))
    (acc : @BreedableParameterGoup exactQ) :
  param_list grp = pre ++ suf ->
  NoDup (names (pre ++ suf)) -> Forall well_formed suf ->
  group_ok acc -> Forall2 (moved outs tgts weights) pre (param_list acc) ->
  (weighted_by_a_skipped_metric outs tgts weights suf
   /\ for_each (m := result) (indexed_from (length pre) suf) acc body
      = Raise KeyError)
  \/ (exists grp' : @BreedableParameterGoup exactQ,
        for_each (m := result) (indexed_from (length pre) suf) acc body
        = Ok grp'
        /\ group_ok grp'
        /\ Forall2 (moved outs tgts weights) (pre ++ suf) (param_list grp')).
Proof.
  revert pre acc. induction suf as [|p suf IH]; intros pre acc L N W G Mv.
  - right. exists acc. rewrite app_nil_r. auto.
  - inversion W as [|? ? Wp Ws]; subst.
    rewrite indexed_from_cons. cbn [for_each].
    assert (P : nth_error (param_list grp) (length pre) = Some p).
    { rewrite L, nth_error_app2, Nat.sub_diag by apply Nat.le_refl.
      reflexivity. }
    assert (Fresh : ~ In (name p) (names (param_list acc))).
    { rewrite (moved_names _ _ _ _ _ Mv). rewrite names_app in N. cbn in N.
      apply NoDup_remove_2 in N. intro K. apply N, in_or_app. left. exact K. }
    destruct (gradient_step acc (length pre) p P Wp G Fresh)
      as [[Sk E]|(r & Mr & E & G')]; rewrite E; cbn [bind result_monad].
    + left. split; [|reflexivity].
      destruct Sk as (x & t & w & [<-|[]] & FW & Mu).
      exists p, t, w. split; [left; reflexivity|]. split; assumption.
    + assert (L' : param_list grp = (pre ++ [p]) ++ suf)
        by (rewrite <- app_assoc; exact L).
      assert (N' : NoDup (names ((pre ++ [p]) ++ suf)))
        by (rewrite <- app_assoc; exact N).
      assert (Mv' : Forall2 (moved outs tgts weights) (pre ++ [p])
                      (param_list acc ++ [r]))
        by (apply Forall2_app; [exact Mv|constructor; [exact Mr|constructor]]).
      destruct (IH (pre ++ [p]) _ L' N' Ws G' Mv')
        as [[Sk E']|(grp' & E' & G'' & Mv'')];
        rewrite length_app, Nat.add_1_r in E'; rewrite E'.
      * left. split; [|reflexivity].
        destruct Sk as (x & t & w & I & FW & Mu).
        exists x, t, w. split; [right; exact I|]. split; assumption.
      * right. exists grp'. split; [reflexivity|]. split; [exact G''|].
        rewrite <- app_assoc in Mv''. exact Mv''.
Qed.

End GradientLoop.

Lemma gradient_update_cases (grp : @BreedableParameterGoup exactQ)
    (outs tgts : dict Q) (weights : dict (dict Q)) :
  group_ok grp -> Forall well_formed (param_list grp) ->
  NoDup (keys outs) -> (forall k, In k (keys outs) -> In k (keys tgts)) ->
  (weighted_by_a_skipped_metric outs tgts weights (param_list grp)
   /\ @BreedableParameterGoup_gradient_update_to_target exactQ grp outs tgts
        weights = Raise KeyError)
  \/ (exists grp' : @BreedableParameterGoup exactQ,
        @BreedableParameterGoup_gradient_update_to_target exactQ grp outs tgts
          weights = Ok grp'
        /\ group_ok grp'
        /\ Forall2 (moved outs tgts weights) (param_list grp)
             (param_list grp')).
Proof.
  intros [I N] W No Sub.
  destruct (multipliers_loop tgts outs [] No Sub) as (tm & Htm & Ltm).
  assert (C : @compute_target_multipliers exactQ outs tgts = Ok tm)
    by exact Htm.
  assert (L : forall k, dict_find k tm = multiplier_of outs tgts k).
  { intro k. rewrite Ltm. destruct (multiplier_of outs tgts k); reflexivity. }
  unfold BreedableParameterGoup_gradient_update_to_target.
  rewrite C. cbn [bind result_monad]. rewrite I.
  refine (gradient_loop grp outs tgts tm weights
            (fun new_group kv =>
               do (ft : bool * Q) <- @scan_weights exactQ grp tm (fst kv)
                                       (snd kv) weights ;;
               do (p : @BreedableParameter exactQ) <-
                 list_get (param_list grp) (snd kv) ;;
               do new_param <- (if fst ft
                                then move_towards_value p (snd ft) (85 # 100)%Q
                                else clone p) ;;
               append new_group new_param)
            (fun _ _ => eq_refl) L (param_list grp) []
            BreedableParameterGoup_init eq_refl N W _ _).
  - split; [reflexivity|constructor].
  - constructor.
Qed.

(** X8.  Over exact arithmetic, on a candidate whose group is consistent,
    whose parameters passed the constructor and whose outcomes all have a
    target, [gradient_update_to_target] raises [KeyError] when some
    parameter is weighted first by a metric that was skipped (target or
    outcome zero), and otherwise returns a fresh candidate with the same
    targets, threshold and weights and a consistent group of the same
    parameters in the same order: a parameter no metric weights is copied,
    and a weighted one keeps its name, bounds and mutation probability and
    has its value moved by [0.85] of the way from [val] to
    [val * weight * target / outcome] brought into the bounds. *)
Theorem gradient_update_moves_the_weighted_parameters
    (c : @GeneticCalibration exactQ) (outs : dict Q) :
  outcomes c = Some outs ->
  group_ok (param_group c) ->
  Forall well_formed (param_list (param_group c)) ->
  NoDup (keys outs) ->
  (forall k, In k (keys outs) -> In k (keys (targets c))) ->
  (weighted_by_a_skipped_metric outs (targets c)
     (target_to_parameters_weights c) (param_list (param_group c)) ->
   GeneticCalibration_gradient_update_to_target c = Raise KeyError)
  /\ (~ weighted_by_a_skipped_metric outs (targets c)
          (target_to_parameters_weights c) (param_list (param_group c)) ->
      exists grp' : @BreedableParameterGoup exactQ,
        GeneticCalibration_gradient_update_to_target c
        = Ok (offspring c grp')
        /\ group_ok grp'
        /\ Forall well_formed (param_list grp')
        /\ Forall2 (moved outs (targets c) (target_to_parameters_weights c))
             (param_list (param_group c)) (param_list grp')).
Proof.
  intros O G W No Sub.
  unfold GeneticCalibration_gradient_update_to_target. rewrite O.
  destruct (gradient_update_cases (param_group c) outs (targets c)
              (target_to_parameters_weights c) G W No Sub)
    as [[Sk E]|(grp' & E & G' & Mv)].
  - split.
    + intros _. rewrite E. reflexivity.
    + intro NSk. contradiction.
  - split.
    + intro Sk. exfalso. exact (moved_not_skipped _ _ _ _ _ Mv Sk).
    + intros _. exists grp'. rewrite E. split; [reflexivity|].
      split; [exact G'|]. split; [|exact Mv].
      exact (gradient_update_well_formed _ _ _ _ _ E).
Qed.

Lemma gradient_update_moves_witness :
  outcomes weighted_candidate = Some [("opioid_deaths", 106%Q)]
  /\ group_ok (param_group weighted_candidate)
  /\ Forall well_formed (param_list (param_group weighted_candidate))
  /\ ~ weighted_by_a_skipped_metric [("opioid_deaths", 106%Q)]
         (targets weighted_candidate)
         (target_to_parameters_weights weighted_candidate)
         (param_list (param_group weighted_candidate))
  /\ exists grp' : @BreedableParameterGoup exactQ,
       GeneticCalibration_gradient_update_to_target weighted_candidate
       = Ok (offspring weighted_candidate grp')
       /\ names (param_list grp') = ["p"; "q"].
Proof.
  assert (O : outcomes weighted_candidate = Some [("opioid_deaths", 106%Q)])
    by reflexivity.
  assert (G : group_ok (param_group weighted_candidate)).
  { split; [reflexivity|]. repeat constructor; cbn; intuition discriminate. }
  assert (W : Forall well_formed (param_list (param_group weighted_candidate))).
  { repeat constructor; unfold in_range; cbn; lra. }
  assert (No : NoDup (keys [("opioid_deaths", 106%Q)])).
  { repeat constructor. cbn. tauto. }
  assert (Sub : forall k, In k (keys [("opioid_deaths", 106%Q)]) ->
                          In k (keys (targets weighted_candidate))).
  { intros k H. exact H. }
  assert (NSk : ~ weighted_by_a_skipped_metric [("opioid_deaths", 106%Q)]
                    (targets weighted_candidate)
                    (target_to_parameters_weights weighted_candidate)
                    (param_list (param_group weighted_candidate))).
  { intros (p & t & w & I & FW & Mu).
    destruct I as [<-|[<-|[]]]; cbn in FW; inversion FW; subst.
    vm_compute in Mu. discriminate Mu. }
  split; [exact O|]. split; [exact G|]. split; [exact W|]. split; [exact NSk|].
  destruct (proj2 (gradient_update_moves_the_weighted_parameters
                     weighted_candidate _ O G W No Sub) NSk)
    as (grp' & E & _ & _ & Mv).
  exists grp'. split; [exact E|]. exact (moved_names _ _ _ _ _ Mv).
Defined.

(** ** [randomize] and [setup] *)

Lemma unit_draws_rest (g : @RNG exactQ) : unit_draws g -> unit_draws (rest g).
Proof. intros U n. exact (U (S n)). Qed.

Lemma drawn_rest (g : @RNG exactQ) (ps rs : list (@BreedableParameter exactQ))
    (i : nat) :
  each_related (drawn (rest g)) i ps rs -> each_related (drawn g) (S i) ps rs.
Proof.
  revert rs i. induction ps as [|p ps IH]; intros [|r rs] i; cbn; try tauto.
  intros [D R]. split; [exact D|]. apply IH. exact R.
Qed.

Lemma randomize_loop (grp : @BreedableParameterGoup exactQ)
    (suf pre : list (@BreedableParameter exactQ))
    (acc : @BreedableParameterGoup exactQ) (g : @RNG exactQ) :
  param_list grp = pre ++ suf ->
  NoDup (names (pre ++ suf)) -> Forall well_formed suf -> unit_draws g ->
  group_ok acc -> names (param_list acc) = names pre ->
  exists (grp' : @BreedableParameterGoup exactQ)
         (rs : list (@BreedableParameter exactQ)),
    for_each (m := M) (indexed_from (length pre) suf) acc
      (fun new_group kv =>
         do (p : @BreedableParameter exactQ) <-
           lift (list_get (param_list grp) (snd kv)) ;;
         do new_param <- generate_random (name p) (min_val p) (max_val p)
                           (min_val p) (max_val p) (mutation_prob p) ;;
         lift (append new_group new_param)) g
    = Ok (grp', Nat.iter (length suf) rest g)
    /\ group_ok grp'
    /\ param_list grp' = param_list acc ++ rs
    /\ each_related (drawn g) 0 suf rs.
Proof.
  revert pre acc g. induction suf as [|p suf IH]; intros pre acc g L N W U G Na.
  - exists acc, []. rewrite app_nil_r. cbn. auto.
  - inversion W as [|? ? Wp Ws]; subst.
    destruct Wp as (_ & C & D & E).
    rewrite indexed_from_cons. cbn [for_each bind M_monad fst snd].
    assert (P : nth_error (param_list grp) (length pre) = Some p).
    { rewrite L, nth_error_app2, Nat.sub_diag by apply Nat.le_refl.
      reflexivity. }
    unfold lift at 1, list_get. rewrite P.
    rewrite generate_random_run. exact_ops.
    destruct (uniform_between (min_val p) (max_val p) (g 0%nat)) as [Lo Hi];
      [lra|apply U|pose proof (U 0%nat); lra|].
    rewrite BreedableParameter_init_ok by assumption.
    unfold lift.
    match goal with |- context [append acc ?x] => set (r := x) end.
    assert (Fresh : ~ In (name r) (names (param_list acc))).
    { rewrite Na. rewrite names_app in N. cbn in N.
      apply NoDup_remove_2 in N. intro K. apply N, in_or_app. left. exact K. }
    destruct (append_group_ok acc r G Fresh) as [A G'].
    rewrite A.
    assert (L' : param_list grp = (pre ++ [p]) ++ suf)
      by (rewrite <- app_assoc; exact L).
    assert (N' : NoDup (names ((pre ++ [p]) ++ suf)))
      by (rewrite <- app_assoc; exact N).
    assert (Na' : names (param_list acc ++ [r]) = names (pre ++ [p]))
      by (rewrite !names_app, Na; reflexivity).
    destruct (IH (pre ++ [p]) _ (rest g) L' N' Ws (unit_draws_rest g U) G' Na')
      as (grp' & rs & E' & G'' & Pl & Dr).
    rewrite length_app, Nat.add_1_r in E'.
    exists grp', (r :: rs). split; [|split; [exact G''|split]].
    + cbn [length]. rewrite Nat.iter_succ_r. exact E'.
    + rewrite Pl. cbn [param_list]. rewrite <- app_assoc. reflexivity.
    + split; [reflexivity|]. apply drawn_rest. exact Dr.
Qed.

(** X9.  Over exact arithmetic, with draws of [random.random()] in
    [[0, 1)], [randomize] never raises on a consistent group whose
    parameters passed the constructor: it uses exactly one draw for every
    parameter, in the order of the list, and returns a consistent group in
    which the parameter number [i] keeps its name, bounds and mutation
    probability and takes the value [min + (max - min) * draw i], whatever
    its value was; [setup] puts that group into the candidate and changes
    nothing else. *)
Theorem randomize_draws_every_parameter
    (c : @GeneticCalibration exactQ) (g : @RNG exactQ) :
  group_ok (param_group c) ->
  Forall well_formed (param_list (param_group c)) -> unit_draws g ->
  exists grp' : @BreedableParameterGoup exactQ,
    randomize (param_group c) g
    = Ok (grp', Nat.iter (length (param_list (param_group c))) rest g)
    /\ group_ok grp'
    /\ each_related (drawn g) 0 (param_list (param_group c))
         (param_list grp')
    /\ Forall well_formed (param_list grp')
    /\ setup c g
       = Ok ({| param_group := grp'; targets := targets c;
                outcomes := outcomes c;
                target_to_parameters_weights :=
                  target_to_parameters_weights c;
                threshold := threshold c;
                evaluated_error := evaluated_error c;
                fred_key := fred_key c |},
             Nat.iter (length (param_list (param_group c))) rest g).
Proof.
  intros [I N] W U.
  destruct (randomize_loop (param_group c) (param_list (param_group c)) []
              BreedableParameterGoup_init g eq_refl N W U)
    as (grp' & rs & E & G' & Pl & Dr).
  { split; [reflexivity|constructor]. }
  { reflexivity. }
  cbn [param_list BreedableParameterGoup_init app] in Pl.
  assert (R : randomize (param_group c) g
              = Ok (grp', Nat.iter (length (param_list (param_group c)))
                            rest g)).
  { unfold randomize. rewrite I. exact E. }
  exists grp'. split; [exact R|]. split; [exact G'|].
  split; [rewrite Pl; exact Dr|].
  split; [exact (randomize_well_formed _ _ _ _ R)|].
  unfold setup. cbn [bind M_monad]. rewrite R. reflexivity.
Qed.

Lemma randomize_witness :
  group_ok (param_group weighted_candidate)
  /\ Forall well_formed (param_list (param_group weighted_candidate))
  /\ unit_draws tenths
  /\ exists grp' : @BreedableParameterGoup exactQ,
       randomize (param_group weighted_candidate) tenths
       = Ok (grp', Nat.iter 2 rest tenths)
       /\ each_related (drawn tenths) 0
            (param_list (param_group weighted_candidate)) (param_list grp').
Proof.
  assert (G : group_ok (param_group weighted_candidate)).
  { split; [reflexivity|]. repeat constructor; cbn; intuition discriminate. }
  assert (W : Forall well_formed (param_list (param_group weighted_candidate))).
  { repeat constructor; unfold in_range; cbn; lra. }
  assert (U : unit_draws tenths).
  { intro n. unfold tenths. split; lra. }
  split; [exact G|]. split; [exact W|]. split; [exact U|].
  destruct (randomize_draws_every_parameter weighted_candidate tenths G W U)
    as (grp' & R & _ & Dr & _).
  exists grp'. split; [exact R|exact Dr].
Defined.

(** ** Breeding two groups *)

Lemma BreedableParameter_init_name {F : PyFloat} (n : string)
    (v lo hi mp : @num F) (r : @BreedableParameter F) :
  BreedableParameter_init n v lo hi mp = Ok r -> name r = n.
Proof.
  unfold BreedableParameter_init, Parameter_init.
  destruct (ltb v lo || ltb hi v); [discriminate|].
  destruct (leb hi lo); [discriminate|]. cbn [bind result_monad].
  destruct (ltb mp zero || ltb one mp); [discriminate|].
  intro H. inversion H. reflexivity.
Qed.

Lemma generate_random_name {F : PyFloat} (n : string)
    (lo hi a b mp : @num F) (g g' : @RNG F) (r : @BreedableParameter F) :
  generate_random n lo hi a b mp g = Ok (r, g') -> name r = n.
Proof.
  rewrite generate_random_run.
  destruct (BreedableParameter_init n _ lo hi mp) as [x|e] eqn:I;
    [|discriminate].
  intro H. inversion H; subst. exact (BreedableParameter_init_name _ _ _ _ _ _ I).
Qed.

Lemma lift_init_name {F : PyFloat} (n : string) (v lo hi mp : @num F)
    (g g' : @RNG F) (r : @BreedableParameter F) :
  lift (BreedableParameter_init n v lo hi mp) g = Ok (r, g') -> name r = n.
Proof.
  unfold lift.
  destruct (BreedableParameter_init n v lo hi mp) as [x|e] eqn:I;
    [|discriminate].
  intro H. inversion H; subst. exact (BreedableParameter_init_name _ _ _ _ _ _ I).
Qed.

(** Whatever [breed] returns has the name of [self]. *)
Lemma breed_name {F : PyFloat} (p q r : @BreedableParameter F)
    (g g' : @RNG F) :
  breed p q g = Ok (r, g') -> name r = name p.
Proof.
  unfold breed.
  destruct (negb (name p =? name q)%string); [discriminate|].
  destruct (eqb (val p) (val q)); [apply generate_random_name|].
  cbn [bind M_monad]. rewrite uniform_run.
  destruct (ltb _ (mutation_prob p)).
  - rewrite uniform_run.
    destruct (ltb (val p) (val q)).
    + unfold lift at 1.
      destruct (fdiv _ _) as [a|]; [|discriminate].
      destruct (ltb _ a); apply generate_random_name.
    + unfold lift at 1.
      destruct (fdiv _ _) as [a|]; [|discriminate].
      destruct (ltb _ a); apply generate_random_name.
  - destruct (ltb (val p) (val q)); rewrite uniform_run; apply lift_init_name.
Qed.

Lemma namesake_lookup {F : PyFloat} (l : list (@BreedableParameter F))
    (n : string) (s : nat) :
  In n (names l) ->
  exists (j : nat) (q : @BreedableParameter F),
    dict_find n (indexed_from s l) = Some (s + j)%nat
    /\ nth_error l j = Some q /\ name q = n.
Proof.
  revert s. induction l as [|p l IH]; intros s H; [contradiction|].
  rewrite indexed_from_cons. cbn [dict_find].
  destruct (String.eqb n (name p)) eqn:E.
  - apply String.eqb_eq in E. exists 0%nat, p. rewrite Nat.add_0_r. auto.
  - destruct H as [H|H].
    + apply String.eqb_neq in E. congruence.
    + destruct (IH (S s) H) as (j & q & D & Nq & Nm).
      exists (S j), q. rewrite Nat.add_succ_r. auto.
Qed.

Lemma same_name_same_parameter {F : PyFloat}
    (l : list (@BreedableParameter F)) (q q' : @BreedableParameter F) :
  NoDup (names l) -> In q l -> In q' l -> name q = name q' -> q = q'.
Proof.
  induction l as [|p l IH]; intros N Hq Hq' E; [contradiction|].
  inversion N as [|? ? Np Nl]; subst.
  assert (Nm : forall x : @BreedableParameter F, In x l -> In (name x) (names l))
    by (intros x Hx; unfold names;
        exact (in_map (fun y : @BreedableParameter F => name y) l x Hx)).
  destruct Hq as [<-|Hq], Hq' as [<-|Hq'].
  - reflexivity.
  - exfalso. apply Np. rewrite E. exact (Nm _ Hq').
  - exfalso. apply Np. rewrite <- E. exact (Nm _ Hq).
  - exact (IH Nl Hq Hq' E).
Qed.

Lemma namesake_index {F : PyFloat} (other : @BreedableParameterGoup F)
    (p q : @BreedableParameter F) :
  group_ok other -> namesake other p q ->
  exists j : nat,
    dict_get (name p) (param_index_dict other) = Ok j
    /\ nth_error (param_list other) j = Some q.
Proof.
  intros [I N] [Nm Hq].
  assert (H : In (name p) (names (param_list other))).
  { rewrite <- Nm. unfold names.
    exact (in_map (fun y : @BreedableParameter F => name y) _ q Hq). }
  destruct (namesake_lookup (param_list other) (name p) 0 H)
    as (j & q' & D & Nq & Nm').
  exists j. unfold dict_get. rewrite I, D. split; [reflexivity|].
  rewrite Nq. f_equal.
  apply (same_name_same_parameter (param_list other)); try assumption.
  - exact (nth_error_In _ _ Nq).
  - congruence.
Qed.

Lemma namesakes_exist {F : PyFloat} (other : @BreedableParameterGoup F)
    (ps : list (@BreedableParameter F)) :
  group_ok other ->
  (forall n, In n (names ps) -> In n (names (param_list other))) ->
  exists qs : list (@BreedableParameter F), Forall2 (namesake other) ps qs.
Proof.
  intros G. induction ps as [|p ps IH]; intro Sub.
  - exists []. constructor.
  - destruct IH as [qs Hqs].
    { intros n H. apply Sub. right. exact H. }
    destruct (namesake_lookup (param_list other) (name p) 0)
      as (j & q & _ & Nq & Nm).
    { apply Sub. left. reflexivity. }
    exists (q :: qs). constructor; [|exact Hqs].
    split; [exact Nm|exact (nth_error_In _ _ Nq)].
Qed.

Section GroupBreed.

Context {F : PyFloat}.
Variables self other : @BreedableParameterGoup F.
Variable body : @BreedableParameterGoup F -> string * nat
                -> @M F (@BreedableParameterGoup F).

Hypothesis body_eq : forall new_group kv,
  body new_group kv
  = do other_idx <- lift (dict_get (fst kv) (param_index_dict other)) ;;
    do (p : @BreedableParameter F) <-
      lift (list_get (param_list self) (snd kv)) ;;
    do q <- lift (list_get (param_list other) other_idx) ;;
    do child <- breed p q ;;
    lift (append new_group child).

Hypothesis other_ok : group_ok other.

Lemma group_breed_step (acc : @BreedableParameterGoup F) (i : nat)
    (p q : @BreedableParameter F) (g : @RNG F) :
  nth_error (param_list self) i = Some p -> namesake other p q ->
  body acc (name p, i) g
  = match breed p q g with
    | Ok (child, g1) =>
        match append acc child with
        | Ok new_group => Ok (new_group, g1)
        | Raise e => Raise e
        end
    | Raise e => Raise e
    end.
Proof.
  intros P Nk. rewrite body_eq. cbn [fst snd bind M_monad].
  destruct (namesake_index other p q other_ok Nk) as (j & D & Nq).
  unfold lift, list_get. rewrite D, P, Nq. reflexivity.
Qed.

Lemma group_breed_loop (suf qs pre : list (@BreedableParameter F))
    (acc grp' : @BreedableParameterGoup F) (g g' : @RNG F) :
  param_list self = pre ++ suf ->
  NoDup (names (pre ++ suf)) -> Forall2 (namesake other) suf qs ->
  group_ok acc -> names (param_list acc) = names pre ->
  (for_each (m := M) (indexed_from (length pre) suf) acc body g
   = Ok (grp', g')
   <-> exists rs : list (@BreedableParameter F),
         runs_in_order (breed_calls suf qs) g rs g'
         /\ grp' = {| param_list := param_list acc ++ rs;
                      param_index_dict :=
                        indexed_from 0 (param_list acc ++ rs) |}).
Proof.
  intros L N Mt. revert pre acc g L N.
  induction Mt as [|p q suf qs Nk Mt IH]; intros pre acc g L N G Na.
  - cbn [indexed_from names map length seq combine for_each ret M_monad].
    assert (E : acc = {| param_list := param_list acc ++ [];
                         param_index_dict :=
                           indexed_from 0 (param_list acc ++ []) |}).
    { rewrite app_nil_r. destruct acc as [l d]. destruct G as [I _].
      cbn in I. subst d. reflexivity. }
    split.
    + intro H. inversion H; subst. exists []. split; [reflexivity|exact E].
    + intros ([|r rs] & R & ->); [|contradiction R].
      cbn [breed_calls combine map runs_in_order] in R. subst g'.
      rewrite <- E. reflexivity.
  - assert (P : nth_error (param_list self) (length pre) = Some p).
    { rewrite L, nth_error_app2, Nat.sub_diag by apply Nat.le_refl.
      reflexivity. }
    assert (L' : param_list self = (pre ++ [p]) ++ suf)
      by (rewrite <- app_assoc; exact L).
    assert (N' : NoDup (names ((pre ++ [p]) ++ suf)))
      by (rewrite <- app_assoc; exact N).
    assert (Fresh : ~ In (name p) (names (param_list acc))).
    { rewrite Na. rewrite names_app in N. cbn in N.
      apply NoDup_remove_2 in N. intro K. apply N, in_or_app. left. exact K. }
    rewrite indexed_from_cons. cbn [for_each bind M_monad].
    rewrite (group_breed_step acc (length pre) p q g P Nk).
    unfold breed_calls. cbn [combine map fst snd runs_in_order].
    fold (breed_calls suf qs).
    split.
    + destruct (breed p q g) as [[r g1]|e] eqn:B; [|discriminate].
      pose proof (breed_name _ _ _ _ _ B) as Nr.
      destruct (append_group_ok acc r G) as [A G'];
        [rewrite Nr; exact Fresh|].
      rewrite A. intro H.
      assert (Na' : names (param_list acc ++ [r]) = names (pre ++ [p]))
        by (rewrite !names_app, Na; cbn; rewrite Nr; reflexivity).
      specialize (IH (pre ++ [p]) _ g1 L' N' G' Na').
      rewrite length_app, Nat.add_1_r in IH.
      destruct (proj1 IH H) as (rs & R & ->).
      exists (r :: rs). split.
      * exists g1. split; [reflexivity|exact R].
      * cbn [param_list]. rewrite <- app_assoc. reflexivity.
    + intros ([|r rs] & R & ->); [contradiction R|].
      destruct R as (g1 & B & R). rewrite B.
      pose proof (breed_name _ _ _ _ _ B) as Nr.
      destruct (append_group_ok acc r G) as [A G'];
        [rewrite Nr; exact Fresh|].
      rewrite A.
      assert (Na' : names (param_list acc ++ [r]) = names (pre ++ [p]))
        by (rewrite !names_app, Na; cbn; rewrite Nr; reflexivity).
      specialize (IH (pre ++ [p]) _ g1 L' N' G' Na').
      rewrite length_app, Nat.add_1_r in IH.
      apply (proj2 IH). exists rs. split; [exact R|].
      cbn [param_list]. rewrite <- app_assoc. reflexivity.
Qed.

End GroupBreed.

Lemma group_breed_run {F : PyFloat} (self other : @BreedableParameterGoup F)
    (qs : list (@BreedableParameter F)) (g g' : @RNG F)
    (grp' : @BreedableParameterGoup F) :
  group_ok self -> group_ok other ->
  length (param_list self) = length (param_list other) ->
  same_keys (param_index_dict self) (param_index_dict other) ->
  Forall2 (namesake other) (param_list self) qs ->
  (BreedableParameterGoup_breed self other g = Ok (grp', g')
   <-> exists rs : list (@BreedableParameter F),
         runs_in_order (breed_calls (param_list self) qs) g rs g'
         /\ grp' = {| param_list := rs;
                      param_index_dict := indexed_from 0 rs |}).
Proof.
  intros [I N] Go Len K Mt. unfold BreedableParameterGoup_breed.
  rewrite Len, Nat.eqb_refl.
  rewrite (proj2 (keys_eqb_same_keys _ _) K). cbn [negb]. rewrite I.
  refine (group_breed_loop self other
            (fun new_group kv =>
               do other_idx <- lift (dict_get (fst kv)
                                       (param_index_dict other)) ;;
               do (p : @BreedableParameter F) <-
                 lift (list_get (param_list self) (snd kv)) ;;
               do q <- lift (list_get (param_list other) other_idx) ;;
               do child <- breed p q ;;
               lift (append new_group child))
            (fun _ _ => eq_refl) Go (param_list self) qs []
            BreedableParameterGoup_init grp' g g' eq_refl N Mt _ eq_refl).
  split; [reflexivity|constructor].
Qed.

(** X10.  [breed] of two candidates, and of their groups: when the two
    parameter lists differ in length both raise [ValueError]; when the
    lengths agree and the two indexes do not hold the same names, the group
    method raises [ValueError] and the candidate method [AttributeError];
    and on two consistent groups with the same names, every parameter of
    [self] has a namesake in the other group, whatever its position there,
    and [breed] returns exactly when the [breed] calls of the parameters
    with their namesakes, run in the order of [self]'s list on the draws
    left by the call before, all return: the child is then a fresh
    candidate with [self]'s targets, threshold and weights whose group
    lists the results in that order. *)
Theorem breed_pairs_the_parameters_by_name {F : PyFloat}
    (a b : @GeneticCalibration F) :
  (length (param_list (param_group a))
   <> length (param_list (param_group b)) ->
   forall g,
     BreedableParameterGoup_breed (param_group a) (param_group b) g
     = Raise ValueError
     /\ GeneticCalibration_breed a b g = Raise ValueError)
  /\ (length (param_list (param_group a))
      = length (param_list (param_group b)) ->
      ~ same_keys (param_index_dict (param_group a))
                  (param_index_dict (param_group b)) ->
      forall g,
        BreedableParameterGoup_breed (param_group a) (param_group b) g
        = Raise ValueError
        /\ GeneticCalibration_breed a b g = Raise AttributeError)
  /\ (group_ok (param_group a) -> group_ok (param_group b) ->
      length (param_list (param_group a))
      = length (param_list (param_group b)) ->
      same_keys (param_index_dict (param_group a))
                (param_index_dict (param_group b)) ->
      exists qs : list (@BreedableParameter F),
        Forall2 (namesake (param_group b)) (param_list (param_group a)) qs
        /\ forall g c g',
             GeneticCalibration_breed a b g = Ok (c, g')
             <-> exists rs : list (@BreedableParameter F),
                   runs_in_order
                     (breed_calls (param_list (param_group a)) qs) g rs g'
                   /\ c = offspring a
                            {| param_list := rs;
                               param_index_dict := indexed_from 0 rs |}).
Proof.
  split; [|split].
  - intros Len g.
    unfold GeneticCalibration_breed, BreedableParameterGoup_breed.
    apply Nat.eqb_neq in Len. rewrite Len. split; reflexivity.
  - intros Len K g.
    unfold GeneticCalibration_breed, BreedableParameterGoup_breed.
    rewrite Len, Nat.eqb_refl. cbn [negb].
    destruct (keys_eqb (param_index_dict (param_group a))
                (param_index_dict (param_group b))) eqn:E.
    + apply keys_eqb_same_keys in E. contradiction.
    + split; reflexivity.
  - intros Ga Gb Len K.
    destruct (namesakes_exist (param_group b) (param_list (param_group a)) Gb)
      as [qs Mt].
    { intros n H. destruct Ga as [Ia _], Gb as [Ib _].
      rewrite <- (keys_indexed_from 0), <- Ib. apply K.
      rewrite Ia, keys_indexed_from. exact H. }
    exists qs. split; [exact Mt|]. intros g c g'.
    unfold GeneticCalibration_breed. rewrite Len, Nat.eqb_refl.
    rewrite (proj2 (keys_eqb_same_keys _ _) K). cbn [negb bind ret M_monad].
    split.
    + destruct (BreedableParameterGoup_breed (param_group a) (param_group b) g)
        as [[grp g1]|e] eqn:B; [|discriminate].
      intro H. inversion H; subst.
      destruct (proj1 (group_breed_run _ _ qs g g' grp Ga Gb Len K Mt) B)
        as (rs & R & ->).
      exists rs. split; [exact R|reflexivity].
    + intros (rs & R & ->).
      rewrite (proj2 (group_breed_run _ _ qs g g' _ Ga Gb Len K Mt)
                 (ex_intro _ rs (conj R eq_refl))).
      reflexivity.
Qed.

Lemma breed_by_name_witness :
  length (param_list (param_group (fresh_candidate 0.001%float)))
  <> length (param_list (param_group two_targets64))
  /\ GeneticCalibration_breed (fresh_candidate 0.001%float) two_targets64
       tenths64
     = Raise ValueError
  /\ exists qs : list (@BreedableParameter float64),
       Forall2 (namesake (param_group (fresh_candidate 0.0015%float)))
         (param_list (param_group (fresh_candidate 0.001%float))) qs.
Proof.
  assert (Len : length (param_list (param_group (fresh_candidate 0.001%float)))
                <> length (param_list (param_group two_targets64)))
    by (cbn; discriminate).
  split; [exact Len|]. split.
  - exact (proj2 (proj1 (breed_pairs_the_parameters_by_name
                           (fresh_candidate 0.001%float) two_targets64)
                    Len tenths64)).
  - assert (G : forall v, group_ok (param_group (fresh_candidate v))).
    { intro v. split; [reflexivity|]. repeat constructor. cbn. tauto. }
    assert (K : same_keys
                  (param_index_dict (param_group (fresh_candidate 0.001%float)))
                  (param_index_dict
                     (param_group (fresh_candidate 0.0015%float))))
      by (intro k; reflexivity).
    destruct (proj2 (proj2 (breed_pairs_the_parameters_by_name
                              (fresh_candidate 0.001%float)
                              (fresh_candidate 0.0015%float)))
                (G _) (G _) eq_refl K) as (qs & Mt & _).
    exists qs. exact Mt.
Defined.

(** ** The contributions of the metrics *)

Lemma sqrt_of_square_abs (x : Q) : sqrt_of_square (x * x) = Qabs x.
Proof.
  destruct x as [a b]. unfold sqrt_of_square, Qmult, Qabs. cbn [Qnum Qden].
  f_equal.
  - rewrite <- Z.abs_square. apply Z.sqrt_square, Z.abs_nonneg.
  - assert (H : Z.pos (Pos.sqrt (b * b)) = Z.pos b).
    { change (Z.pos (Pos.sqrt (b * b))) with (Z.sqrt (Z.pos b * Z.pos b)).
      apply Z.sqrt_square. apply Pos2Z.is_nonneg. }
    injection H as H. exact H.
Qed.

Lemma dict_find_outcome_of (outs : dict Q) (k : string) (o : Q) :
  dict_find k outs = Some o -> outcome_of outs k = o.
Proof. intro H. unfold outcome_of. rewrite H. reflexivity. Qed.

Lemma contributions_loop (sqrt : Q -> Q) (tgts outs acc : dict Q) :
  NoDup (keys acc ++ keys tgts) ->
  (forall k, In k (keys tgts) -> In k (keys outs)) ->
  for_each (m := result) tgts acc
    (fun ret_val kv =>
       do other_value <- dict_get (fst kv) outs ;;
       do e <- @relative_error exactQ (snd kv) other_value ;;
       do e2 <- square_Q e ;;
       do error <- @math_sqrt exactQ sqrt e2 ;;
       ret (dict_set (fst kv) error ret_val))
  = Ok (acc ++ contributions_of sqrt tgts outs).
Proof.
  revert acc. induction tgts as [|[k t] tgts IH]; intros acc N Sub.
  - cbn. rewrite app_nil_r. reflexivity.
  - cbn [for_each fst snd].
    destruct (dict_get_present k outs) as (o & Fo & Go).
    { apply Sub. left. reflexivity. }
    rewrite Go. cbn [bind result_monad]. rewrite relative_error_exact.
    unfold square_Q at 1. cbn [bind result_monad]. unfold math_sqrt.
    exact_ops.
    assert (Z : Qltb (relative_error_term t o * relative_error_term t o) 0
                = false).
    { apply Qltb_false. exact (square_nonneg (relative_error_term t o)). }
    rewrite Z. cbn [bind ret result_monad].
    rewrite dict_set_fresh.
    + rewrite IH.
      * unfold contributions_of. cbn [map fst snd].
        rewrite (dict_find_outcome_of outs k o Fo), <- app_assoc.
        reflexivity.
      * unfold keys in *. rewrite map_app. cbn [map fst].
        rewrite <- app_assoc. exact N.
      * intros k' H. apply Sub. right. exact H.
    + cbn [keys map fst] in N. apply NoDup_remove_2 in N.
      intro K. apply N, in_or_app. left. exact K.
Qed.

Lemma dict_find_contributions (sqrt : Q -> Q) (tgts outs : dict Q)
    (k : string) (t : Q) :
  NoDup (keys tgts) -> In (k, t) tgts ->
  dict_find k (contributions_of sqrt tgts outs)
  = Some (sqrt (relative_error_term t (outcome_of outs k)
                * relative_error_term t (outcome_of outs k))%Q).
Proof.
  induction tgts as [|[k0 t0] tgts IH]; intros N H; [contradiction|].
  inversion N as [|? ? N0 N1]; subst. cbn [contributions_of map fst snd dict_find].
  destruct H as [H|H].
  - inversion H; subst. rewrite String.eqb_refl. reflexivity.
  - destruct (String.eqb k k0) eqn:E.
    + apply String.eqb_eq in E. subst k0. exfalso. apply N0.
      exact (in_map fst tgts (k, t) H).
    + exact (IH N1 H).
Qed.

Lemma sum_of_squared_contributions (sqrt : Q -> Q) (tgts outs : dict Q) :
  (forall x : Q, (sqrt (x * x) == Qabs x)%Q) ->
  (sum_of_squares (contributions_of sqrt tgts outs)
   == sum_squared_relative_errors tgts outs)%Q.
Proof.
  intro Law. induction tgts as [|[k t] tgts IH]; [reflexivity|].
  cbn [contributions_of map fst snd sum_of_squares
       sum_squared_relative_errors].
  fold (contributions_of sqrt tgts outs). rewrite IH, Law.
  apply Qplus_comp; [|reflexivity].
  change (?x ^ 2)%Q with (x * x)%Q.
  destruct (Qabs_cases (relative_error_term t (outcome_of outs k)))
    as [[_ A]|[_ A]]; rewrite A; ring.
Qed.

(** X11.  Over exact arithmetic, on a candidate that [evaluate] accepted
    outcomes for, [evaluate_individual_error_contributions] never raises,
    whatever the square root function (a square is never negative): it
    returns, for every target in the order of the targets, the root of the
    squared relative error of the metric.  When the root of a square is the
    absolute value, every contribution is the absolute value of the
    metric's relative error, and the squared contributions add up to the
    sum [evaluate] takes the root of.  On a candidate whose outcomes do not
    hold the keys of the targets the method raises [NameError]. *)
Theorem contributions_are_the_absolute_relative_errors
    (sqrt : Q -> Q) (c : @GeneticCalibration exactQ) (outs : dict Q) :
  NoDup (keys (targets c)) -> same_keys (targets c) outs ->
  @evaluate_individual_error_contributions exactQ sqrt square_Q
    (fst (@evaluate exactQ sqrt square_Q c outs))
  = Ok (contributions_of sqrt (targets c) outs)
  /\ ((forall x : Q, (sqrt (x * x) == Qabs x)%Q) ->
      (forall k t, In (k, t) (targets c) ->
         exists v : Q,
           dict_find k (contributions_of sqrt (targets c) outs) = Some v
           /\ (v == Qabs (relative_error_term t (outcome_of outs k)))%Q)
      /\ (sum_of_squares (contributions_of sqrt (targets c) outs)
          == sum_squared_relative_errors (targets c) outs)%Q)
  /\ (forall (c' : @GeneticCalibration exactQ) (outs' : dict Q),
        outcomes c' = Some outs' -> ~ same_keys (targets c') outs' ->
        @evaluate_individual_error_contributions exactQ sqrt square_Q c'
        = Raise NameError).
Proof.
  intros N K. split; [|split].
  - destruct (evaluate_run sqrt c outs K) as (s & E & _). rewrite E.
    unfold evaluate_individual_error_contributions.
    cbn [fst evaluated outcomes targets].
    pose proof (proj2 (keys_eqb_same_keys (targets c) outs) K) as Kb.
    exact_ops. rewrite Kb. cbn [negb].
    apply (contributions_loop sqrt (targets c) outs []).
    + exact N.
    + intros k H. apply K. exact H.
  - intro Law. split.
    + intros k t H. eexists. split.
      * exact (dict_find_contributions sqrt _ outs k t N H).
      * apply Law.
    + exact (sum_of_squared_contributions sqrt _ outs Law).
  - intros c' outs' O K'. unfold evaluate_individual_error_contributions.
    rewrite O.
    destruct (keys_eqb (targets c') outs') eqn:E.
    + apply keys_eqb_same_keys in E. contradiction.
    + exact_ops. rewrite E. reflexivity.
Qed.

Lemma contributions_witness :
  NoDup (keys (targets two_targets))
  /\ same_keys (targets two_targets) two_outcomes
  /\ (forall x : Q, (sqrt_of_square (x * x) == Qabs x)%Q)
  /\ @evaluate_individual_error_contributions exactQ sqrt_of_square square_Q
       (fst (@evaluate exactQ sqrt_of_square square_Q two_targets
               two_outcomes))
     = Ok (contributions_of sqrt_of_square (targets two_targets) two_outcomes)
  /\ (sum_of_squares
        (contributions_of sqrt_of_square (targets two_targets) two_outcomes)
      == sum_squared_relative_errors (targets two_targets) two_outcomes)%Q.
Proof.
  assert (N : NoDup (keys (targets two_targets))).
  { repeat constructor; cbn; intuition discriminate. }
  assert (K : same_keys (targets two_targets) two_outcomes)
    by (apply keys_eqb_same_keys; reflexivity).
  assert (Law : forall x : Q, (sqrt_of_square (x * x) == Qabs x)%Q)
    by (intro x; rewrite sqrt_of_square_abs; reflexivity).
  split; [exact N|]. split; [exact K|]. split; [exact Law|].
  destruct (contributions_are_the_absolute_relative_errors
              sqrt_of_square two_targets two_outcomes N K) as (R & P & _).
  split; [exact R|]. exact (proj2 (P Law)).
Defined.

(** ** A perfect fit *)

Lemma relative_error_term_zero (t o : Q) :
  (relative_error_term t o == 0)%Q <-> (o == t)%Q.
Proof.
  unfold relative_error_term.
  destruct (Qeq_bool t 0) eqn:E; read_tests; split; intro H.
  - assert (X : (t - o == 0)%Q).
    { setoid_replace (t - o)%Q with ((t - o) / (1 # 1000) * (1 # 1000))%Q
        by (field; discriminate).
      rewrite H. ring. }
    lra.
  - assert (X : (t - o == 0)%Q) by lra. unfold Qdiv. rewrite X. ring.
  - assert (X : (t - o == 0)%Q).
    { setoid_replace (t - o)%Q with ((t - o) / t * t)%Q by (field; exact E).
      rewrite H. ring. }
    lra.
  - assert (X : (t - o == 0)%Q) by lra. unfold Qdiv. rewrite X. ring.
Qed.

Lemma square_zero (x : Q) : (x ^ 2 == 0)%Q <-> (x == 0)%Q.
Proof.
  change (x ^ 2)%Q with (x * x)%Q. split; intro H.
  - destruct (Qmult_integral _ _ H); assumption.
  - rewrite H. ring.
Qed.

Lemma sum_squared_relative_errors_zero (tgts outs : dict Q) :
  (sum_squared_relative_errors tgts outs == 0)%Q
  <-> forall k t, In (k, t) tgts -> (outcome_of outs k == t)%Q.
Proof.
  induction tgts as [|[k0 t0] tgts IH]; cbn [sum_squared_relative_errors].
  - split; [intros _ k t []|reflexivity].
  - pose proof (square_nonneg (relative_error_term t0 (outcome_of outs k0)))
      as P.
    pose proof (sum_squared_relative_errors_nonneg tgts outs) as S.
    split.
    + intros H k t [E|I].
      * inversion E; subst. apply relative_error_term_zero, square_zero. lra.
      * apply (proj1 IH); [lra|exact I].
    + intro H.
      assert (A : (relative_error_term t0 (outcome_of outs k0) ^ 2 == 0)%Q).
      { apply square_zero, relative_error_term_zero, H. left. reflexivity. }
      assert (B : (sum_squared_relative_errors tgts outs == 0)%Q).
      { apply (proj2 IH). intros k t I. apply H. right. exact I. }
      rewrite A, B. reflexivity.
Qed.

(** X12.  Over exact arithmetic and for any square root function, the sum
    [evaluate] takes the root of is never negative, so [math.sqrt] does not
    raise, and it is zero exactly when every metric's outcome equals its
    target: any miss of a target, in either direction and also of a zero
    target, gives a positive sum. *)
Theorem evaluated_error_is_zero_on_a_perfect_fit
    (sqrt : Q -> Q) (c : @GeneticCalibration exactQ) (outs : dict Q) :
  same_keys (targets c) outs ->
  exists s : Q,
    @evaluate exactQ sqrt square_Q c outs
    = (evaluated c outs (sqrt s), Ok tt)
    /\ (0 <= s)%Q
    /\ ((s == 0)%Q
        <-> forall k t, In (k, t) (targets c) -> (outcome_of outs k == t)%Q)
    /\ ((0 < s)%Q
        <-> exists k t, In (k, t) (targets c) /\ ~ (outcome_of outs k == t)%Q).
Proof.
  intro K. destruct (evaluate_run sqrt c outs K) as (s & E & Es).
  pose proof (sum_squared_relative_errors_nonneg (targets c) outs) as Nn.
  pose proof (sum_squared_relative_errors_zero (targets c) outs) as Z.
  exists s. split; [exact E|]. split; [lra|].
  assert (Z' : (s == 0)%Q
               <-> forall k t, In (k, t) (targets c) ->
                               (outcome_of outs k == t)%Q).
  { rewrite Es. exact Z. }
  split; [exact Z'|]. split.
  - intro P.
    assert (Ex : forall l : dict Q,
               (forall k t, In (k, t) l -> (outcome_of outs k == t)%Q)
               \/ exists k t, In (k, t) l /\ ~ (outcome_of outs k == t)%Q).
    { induction l as [|[k t] l [IH|(k' & t' & I & D)]].
      - left. intros k t [].
      - destruct (Qeq_dec (outcome_of outs k) t) as [Y|Y].
        + left. intros k' t' [X|I]; [inversion X; subst; exact Y|].
          exact (IH k' t' I).
        + right. exists k, t. split; [left; reflexivity|exact Y].
      - right. exists k', t'. split; [right; exact I|exact D]. }
    destruct (Ex (targets c)) as [All|Some']; [|exact Some'].
    apply Z' in All. lra.
  - intros (k & t & I & D).
    destruct (Qlt_le_dec 0 s) as [|L]; [assumption|].
    exfalso. apply D. apply (proj1 Z'); [lra|exact I].
Qed.

Lemma perfect_fit_witness :
  same_keys (targets two_targets) [("a", 100%Q); ("b", 0%Q)]
  /\ exists s : Q,
       @evaluate exactQ sqrt_of_square square_Q two_targets
         [("a", 100%Q); ("b", 0%Q)]
       = (evaluated two_targets [("a", 100%Q); ("b", 0%Q)] (sqrt_of_square s),
          Ok tt)
       /\ (s == 0)%Q.
Proof.
  assert (K : same_keys (targets two_targets) [("a", 100%Q); ("b", 0%Q)])
    by (apply keys_eqb_same_keys; reflexivity).
  split; [exact K|].
  destruct (evaluated_error_is_zero_on_a_perfect_fit sqrt_of_square
              two_targets [("a", 100%Q); ("b", 0%Q)] K)
    as (s & E & _ & Z & _).
  exists s. split; [exact E|]. apply Z.
  intros k t [X|[X|[]]]; inversion X; subst; reflexivity.
Defined.

(** ** The mutation branch of [breed] *)

Lemma generate_random_ok (n : string) (lo hi a b mp : Q) (g : @RNG exactQ) :
  (lo <= a)%Q -> (a <= b)%Q -> (b <= hi)%Q -> (lo < hi)%Q ->
  (0 <= mp)%Q -> (mp <= 1)%Q -> (0 <= g 0%nat)%Q -> (g 0%nat <= 1)%Q ->
  @generate_random exactQ n lo hi a b mp g
  = Ok (@built exactQ n (a + (b - a) * g 0%nat)%Q lo hi mp, rest g)
  /\ (a <= a + (b - a) * g 0%nat)%Q /\ (a + (b - a) * g 0%nat <= b)%Q.
Proof.
  intros La Ab Bh Lh M0 M1 G0 G1.
  destruct (uniform_between a b (g 0%nat) Ab G0 G1) as [L H].
  split; [|split; assumption].
  rewrite generate_random_run. exact_ops.
  rewrite BreedableParameter_init_ok by lra. reflexivity.
Qed.

(** X13.  Over exact arithmetic, with draws of [random.random()] in
    [[0, 1)]: when two parents of one name have different values, the other
    value lies in [self]'s range, the first draw is below [self]'s mutation
    probability, and the parents do not sit on both bounds, [breed] uses
    three draws and returns a child whose value is not strictly between the
    parents: it lies in [[min, lower parent]] when the second draw is below
    the share of that zone in the two zones outside the parents, and in
    [[upper parent, max]] otherwise, at the place the third draw gives. *)
Theorem breed_mutation_lands_outside_the_parents
    (p q : @BreedableParameter exactQ) (g : @RNG exactQ) :
  unit_draws g -> name p = name q -> well_formed p ->
  (min_val p <= val q)%Q -> (val q <= max_val p)%Q ->
  ~ (val p == val q)%Q ->
  (g 0%nat < mutation_prob p)%Q ->
  (min_val p < Qmin (val p) (val q))%Q
  \/ (Qmax (val p) (val q) < max_val p)%Q ->
  exists r : @BreedableParameter exactQ,
    breed p q g = Ok (r, rest (rest (rest g)))
    /\ ((min_val p <= val r)%Q /\ (val r <= Qmin (val p) (val q))%Q
        \/ (Qmax (val p) (val q) <= val r)%Q /\ (val r <= max_val p)%Q)
    /\ ((g 1%nat
         < (Qmin (val p) (val q) - min_val p)
           / (Qmin (val p) (val q) - min_val p
              + (max_val p - Qmax (val p) (val q))))%Q ->
        (val r
         == min_val p + (Qmin (val p) (val q) - min_val p) * g 2%nat)%Q)
    /\ (((Qmin (val p) (val q) - min_val p)
         / (Qmin (val p) (val q) - min_val p
            + (max_val p - Qmax (val p) (val q)))
         <= g 1%nat)%Q ->
        (val r
         == Qmax (val p) (val q)
            + (max_val p - Qmax (val p) (val q)) * g 2%nat)%Q).
Proof.
  intros U N ((A & B) & C & D & E) Lq Hq V MP NB.
  destruct (U 0%nat) as [U0 U0'], (U 1%nat) as [U1 U1'],
    (U 2%nat) as [U2 U2'].
  unfold breed. rewrite N, String.eqb_refl. cbn [negb]. exact_ops.
  rewrite (proj2 (Qeq_bool_false _ _) V).
  cbn [bind M_monad]. rewrite !uniform_run. exact_ops.
  change (rest g 0%nat) with (g 1%nat).
  rewrite (proj2 (Qltb_true (0 + (1 - 0) * g 0%nat) (mutation_prob p)))
    by lra.
  unfold lift at 1, fdiv. exact_ops.
  destruct (Qltb (val p) (val q)) eqn:T; read_tests.
  - assert (Emin : (Qmin (val p) (val q) == val p)%Q) by (apply Q.min_l; lra).
    assert (Emax : (Qmax (val p) (val q) == val q)%Q) by (apply Q.max_r; lra).
    rewrite Emin, Emax in NB.
    rewrite (proj2 (Qeq_bool_false
                      (val p - min_val p + (max_val p - val q)) 0))
      by (intro Z; lra).
    rewrite ?uniform_run. unfold lift. cbv beta iota. exact_ops.
    change (rest g 0%nat) with (g 1%nat).
    destruct (Qltb (0 + (1 - 0) * g 1%nat)
                ((val p - min_val p)
                 / (val p - min_val p + (max_val p - val q)))) eqn:S;
      read_tests.
    + destruct (generate_random_ok (name q) (min_val p) (max_val p)
                  (min_val p) (val p) (mutation_prob p) (rest (rest g)))
        as (Gr & Lo & Hi); try assumption;
          try (change (rest (rest g) 0%nat) with (g 2%nat); lra).
      rewrite Gr. eexists. split; [reflexivity|].
      change (rest (rest g) 0%nat) with (g 2%nat) in *. cbn [built val base].
      split; [left; rewrite Emin; split; assumption|]. split.
      * intros _. rewrite Emin. reflexivity.
      * rewrite Emin, Emax. intro S'. lra.
    + destruct (generate_random_ok (name q) (min_val p) (max_val p)
                  (val q) (max_val p) (mutation_prob p) (rest (rest g)))
        as (Gr & Lo & Hi); try assumption;
          try (change (rest (rest g) 0%nat) with (g 2%nat); lra).
      rewrite Gr. eexists. split; [reflexivity|].
      change (rest (rest g) 0%nat) with (g 2%nat) in *. cbn [built val base].
      split; [right; rewrite Emax; split; assumption|]. split.
      * rewrite Emin, Emax. intro S'. lra.
      * intros _. rewrite Emax. reflexivity.
  - assert (T' : (val q < val p)%Q).
    { destruct (Qlt_le_dec (val q) (val p)) as [|X]; [assumption|].
      exfalso. apply V. apply Qle_antisym; assumption. }
    assert (Emin : (Qmin (val p) (val q) == val q)%Q) by (apply Q.min_r; lra).
    assert (Emax : (Qmax (val p) (val q) == val p)%Q) by (apply Q.max_l; lra).
    rewrite Emin, Emax in NB.
    rewrite (proj2 (Qeq_bool_false
                      (val q - min_val p + (max_val p - val p)) 0))
      by (intro Z; lra).
    rewrite ?uniform_run. unfold lift. cbv beta iota. exact_ops.
    change (rest g 0%nat) with (g 1%nat).
    destruct (Qltb (0 + (1 - 0) * g 1%nat)
                ((val q - min_val p)
                 / (val q - min_val p + (max_val p - val p)))) eqn:S;
      read_tests.
    + destruct (generate_random_ok (name q) (min_val p) (max_val p)
                  (min_val p) (val q) (mutation_prob p) (rest (rest g)))
        as (Gr & Lo & Hi); try assumption;
          try (change (rest (rest g) 0%nat) with (g 2%nat); lra).
      rewrite Gr. eexists. split; [reflexivity|].
      change (rest (rest g) 0%nat) with (g 2%nat) in *. cbn [built val base].
      split; [left; rewrite Emin; split; assumption|]. split.
      * intros _. rewrite Emin. reflexivity.
      * rewrite Emin, Emax. intro S'. lra.
    + destruct (generate_random_ok (name q) (min_val p) (max_val p)
                  (val p) (max_val p) (mutation_prob p) (rest (rest g)))
        as (Gr & Lo & Hi); try assumption;
          try (change (rest (rest g) 0%nat) with (g 2%nat); lra).
      rewrite Gr. eexists. split; [reflexivity|].
      change (rest (rest g) 0%nat) with (g 2%nat) in *. cbn [built val base].
      split; [right; rewrite Emax; split; assumption|]. split.
      * rewrite Emin, Emax. intro S'. lra.
      * intros _. rewrite Emax. reflexivity.
Qed.

Lemma breed_mutation_witness :
  unit_draws tenths /\ name inside = name inside_mate /\ well_formed inside
  /\ (min_val inside <= val inside_mate)%Q
  /\ (val inside_mate <= max_val inside)%Q
  /\ ~ (val inside == val inside_mate)%Q
  /\ (tenths 0%nat < mutation_prob inside)%Q
  /\ ((min_val inside < Qmin (val inside) (val inside_mate))%Q
      \/ (Qmax (val inside) (val inside_mate) < max_val inside)%Q)
  /\ exists r : @BreedableParameter exactQ,
       breed inside inside_mate tenths = Ok (r, rest (rest (rest tenths))).
Proof.
  assert (U : unit_draws tenths) by (intro n; unfold tenths; split; lra).
  assert (N : name inside = name inside_mate) by reflexivity.
  assert (W : well_formed inside)
    by (unfold well_formed, in_range; cbn; repeat split; lra).
  assert (Lq : (min_val inside <= val inside_mate)%Q) by (cbn; lra).
  assert (Hq : (val inside_mate <= max_val inside)%Q) by (cbn; lra).
  assert (V : ~ (val inside == val inside_mate)%Q) by (cbn; lra).
  assert (MP : (tenths 0%nat < mutation_prob inside)%Q)
    by (unfold tenths; cbn; lra).
  assert (NB : (min_val inside < Qmin (val inside) (val inside_mate))%Q
               \/ (Qmax (val inside) (val inside_mate) < max_val inside)%Q)
    by (left; apply Q.min_glb_lt; cbn; lra).
  repeat (split; [assumption|]).
  destruct (breed_mutation_lands_outside_the_parents inside inside_mate tenths
              U N W Lq Hq V MP NB) as (r & B & _).
  exists r. exact B.
Defined.

(** ** The index after [remove] *)

Lemma dict_find_middle {V : Type} (k : string) (v : V) (a b : dict V) :
  ~ In k (keys a) -> dict_find k (a ++ (k, v) :: b) = Some v.
Proof.
  induction a as [|[k0 v0] a IH]; intro H; cbn.
  - rewrite String.eqb_refl. reflexivity.
  - destruct (String.eqb k k0) eqn:E.
    + apply String.eqb_eq in E. exfalso. apply H. left. cbn. congruence.
    + apply IH. intro K. apply H. right. exact K.
Qed.

Lemma dict_set_middle {V : Type} (k : string) (v v' : V) (a b : dict V) :
  ~ In k (keys a) -> dict_set k v' (a ++ (k, v) :: b) = a ++ (k, v') :: b.
Proof.
  induction a as [|[k0 v0] a IH]; intro H; cbn.
  - rewrite String.eqb_refl. reflexivity.
  - destruct (String.eqb k k0) eqn:E.
    + apply String.eqb_eq in E. exfalso. apply H. left. cbn. congruence.
    + f_equal. apply IH. intro K. apply H. right. exact K.
Qed.

Lemma dict_del_middle {V : Type} (k : string) (v : V) (a b : dict V) :
  ~ In k (keys a) -> dict_del k (a ++ (k, v) :: b) = Ok (a ++ b).
Proof.
  induction a as [|[k0 v0] a IH]; intro H; cbn.
  - rewrite String.eqb_refl. reflexivity.
  - destruct (String.eqb k k0) eqn:E.
    + apply String.eqb_eq in E. exfalso. apply H. left. cbn. congruence.
    + rewrite IH by (intro K; apply H; right; exact K). reflexivity.
Qed.

(** The loop of [remove] over a dictionary with distinct keys lowers, in
    place, every index above [idx]. *)
Lemma shift_down_loop (idx : nat) (todo done : dict nat) :
  NoDup (keys (done ++ todo)) ->
  fold_left
    (fun d' kv => if (idx <? snd kv)%nat
                  then dict_set (fst kv) (snd kv - 1)%nat d' else d')
    todo (done ++ todo)
  = done
    ++ map (fun kv => (fst kv,
                       if (idx <? snd kv)%nat then (snd kv - 1)%nat
                       else snd kv)) todo.
Proof.
  revert done. induction todo as [|[k v] todo IH]; intros done N.
  - reflexivity.
  - cbn [fold_left map fst snd].
    assert (Fresh : ~ In k (keys done)).
    { unfold keys in N. rewrite map_app in N. cbn [map fst] in N.
      apply NoDup_remove_2 in N. intro K. apply N, in_or_app. left. exact K. }
    assert (N' : forall v' : nat, NoDup (keys ((done ++ [(k, v')]) ++ todo))).
    { intro v'. rewrite <- app_assoc. unfold keys in *.
      rewrite map_app in *. exact N. }
    destruct (idx <? v)%nat.
    + rewrite (dict_set_middle k v (v - 1)%nat done todo Fresh).
      replace (done ++ (k, (v - 1)%nat) :: todo)
        with ((done ++ [(k, (v - 1)%nat)]) ++ todo)
        by (rewrite <- app_assoc; reflexivity).
      rewrite (IH _ (N' _)), <- app_assoc. reflexivity.
    + replace (done ++ (k, v) :: todo) with ((done ++ [(k, v)]) ++ todo)
        by (rewrite <- app_assoc; reflexivity).
      rewrite (IH _ (N' _)), <- app_assoc. reflexivity.
Qed.

Lemma indexed_from_split {F : PyFloat} (start : nat)
    (l1 l2 : list (@BreedableParameter F)) :
  indexed_from start (l1 ++ l2)
  = indexed_from start l1 ++ indexed_from (start + length l1) l2.
Proof.
  revert start. induction l1 as [|p l1 IH]; intro start.
  - cbn [app length]. rewrite Nat.add_0_r. reflexivity.
  - cbn [app length]. rewrite !indexed_from_cons, IH, Nat.add_succ_r.
    reflexivity.
Qed.

Lemma indices_not_above {F : PyFloat} (idx start : nat)
    (l : list (@BreedableParameter F)) :
  (start + length l <= S idx)%nat ->
  map (fun kv : string * nat =>
         (fst kv, if (idx <? snd kv)%nat then (snd kv - 1)%nat else snd kv))
      (indexed_from start l)
  = indexed_from start l.
Proof.
  revert start. induction l as [|p l IH]; intros start H; [reflexivity|].
  cbn [length] in H. rewrite indexed_from_cons. cbn [map fst snd].
  assert (T : (idx <? start)%nat = false) by (apply Nat.ltb_ge; lia).
  rewrite T, IH by lia. reflexivity.
Qed.

Lemma indices_above {F : PyFloat} (idx start : nat)
    (l : list (@BreedableParameter F)) :
  (idx <= start)%nat ->
  map (fun kv : string * nat =>
         (fst kv, if (idx <? snd kv)%nat then (snd kv - 1)%nat else snd kv))
      (indexed_from (S start) l)
  = indexed_from start l.
Proof.
  revert start. induction l as [|p l IH]; intros start H; [reflexivity|].
  rewrite !indexed_from_cons. cbn [map fst snd].
  assert (T : (idx <? S start)%nat = true) by (apply Nat.ltb_lt; lia).
  rewrite T, IH by lia. cbn [Nat.sub]. rewrite Nat.sub_0_r. reflexivity.
Qed.

(** X14.  On a consistent group, [remove] of a parameter whose name is
    present rewrites the index into exactly the index of the list without
    that parameter (every later parameter one position lower, the entry of
    the parameter deleted), and then raises [TypeError] at
    [self.__param_list.pop([idx])], so that the list itself still holds
    every parameter. *)
Theorem remove_reindexes_and_then_raises {F : PyFloat}
    (grp : @BreedableParameterGoup F)
    (pre post : list (@BreedableParameter F)) (x p : @BreedableParameter F) :
  group_ok grp -> param_list grp = pre ++ x :: post -> name p = name x ->
  remove grp p
  = ({| param_list := pre ++ x :: post;
        param_index_dict := indexed_from 0 (pre ++ post) |},
     Raise TypeError).
Proof.
  intros [I N] L Np. rewrite L in I, N.
  assert (Fresh : ~ In (name x) (keys (indexed_from 0 pre))).
  { rewrite keys_indexed_from. rewrite names_app in N.
    apply NoDup_remove_2 in N. intro K. apply N, in_or_app. left. exact K. }
  assert (Split : indexed_from 0 (pre ++ x :: post)
                  = indexed_from 0 pre
                    ++ (name x, length pre) :: indexed_from (S (length pre)) post).
  { rewrite indexed_from_split, indexed_from_cons. reflexivity. }
  assert (Find : dict_find (name x) (param_index_dict grp)
                 = Some (length pre)).
  { rewrite I, Split. exact (dict_find_middle _ _ _ _ Fresh). }
  assert (Shift : shift_down (length pre) (param_index_dict grp)
                  = indexed_from 0 pre
                    ++ (name x, length pre) :: indexed_from (length pre) post).
  { unfold shift_down.
    pose proof (shift_down_loop (length pre) (param_index_dict grp) []) as S.
    cbn [app] in S. rewrite S by (rewrite I, keys_indexed_from; exact N).
    rewrite I, Split, map_app. cbn [map fst snd].
    rewrite Nat.ltb_irrefl, indices_not_above by (cbn; lia).
    rewrite indices_above by apply Nat.le_refl. reflexivity. }
  unfold remove, dict_mem, dict_get. rewrite Np, Find, Shift.
  rewrite (dict_del_middle _ _ _ _ Fresh). cbn [list_pop]. rewrite L.
  rewrite indexed_from_split. reflexivity.
Qed.

Lemma remove_reindexes_witness :
  group_ok two_parameters
  /\ param_list two_parameters = [] ++ pOUD_to_RX_1 :: [pOUD_to_DeathOD_1]
  /\ remove two_parameters pOUD_to_RX_1
     = ({| param_list := [pOUD_to_RX_1; pOUD_to_DeathOD_1];
           param_index_dict := indexed_from 0 [pOUD_to_DeathOD_1] |},
        Raise TypeError).
Proof.
  assert (G : group_ok two_parameters).
  { split; [reflexivity|]. repeat constructor; cbn; intuition discriminate. }
  split; [exact G|]. split; [reflexivity|].
  exact (remove_reindexes_and_then_raises two_parameters []
           [pOUD_to_DeathOD_1] pOUD_to_RX_1 pOUD_to_RX_1 G eq_refl eq_refl).
Defined.

(** ** One generation after the other *)

Lemma error_le_trans : Relations_1.Transitive error_le.
Proof. intros a b c. unfold error_le. apply Qle_trans. Qed.

Lemma sorted_head_least (l : list (@GeneticCalibration exactQ))
    (best : @GeneticCalibration exactQ) :
  nth_error (list_sort l) 0 = Some best ->
  In best l /\ forall c, In c l -> error_le best c.
Proof.
  intro H. pose proof (list_sort_perm l) as P.
  pose proof (Sorted_StronglySorted error_le_trans (list_sort_sorted l)) as S.
  destruct (list_sort l) as [|b tl]; [discriminate H|].
  inversion H; subst b. split.
  - apply (Permutation_in _ P). left. reflexivity.
  - intros c Hc. apply (Permutation_in _ (Permutation_sym P)) in Hc.
    destruct Hc as [<-|Hc].
    + unfold error_le. apply Qle_refl.
    + inversion S as [|? ? _ A]; subst.
      exact (proj1 (Forall_forall _ _) A c Hc).
Qed.

(** X15.  Over exact arithmetic, the step that ends an iteration of [main]
    (the weighted adjustment when the iteration counter is even, the genetic
    mixing when it is odd) raises [IndexError] unless it is handed exactly
    ten candidates, and whenever it returns, the new generation has exactly
    ten candidates again, and its first candidate is a candidate of the old
    generation whose evaluated error is the least of all, unchanged; on an
    even counter no random draw is used. *)
Theorem every_generation_keeps_ten_and_the_best
    (iteration_counter : nat) (l : list (@GeneticCalibration exactQ))
    (g : @RNG exactQ) :
  (length l <> 10%nat -> advance iteration_counter l g = Raise IndexError)
  /\ (forall l' g',
        advance iteration_counter l g = Ok (l', g') ->
        length l = 10%nat /\ length l' = 10%nat
        /\ (exists best : @GeneticCalibration exactQ,
              nth_error l' 0 = Some best /\ In best l
              /\ forall c, In c l -> error_le best c)
        /\ ((iteration_counter mod 2 = 0)%nat -> g' = g)).
Proof.
  unfold advance. split.
  - intro H. destruct (iteration_counter mod 2 =? 0)%nat.
    + unfold lift. rewrite (weighted_adjustments_size_check l H).
      reflexivity.
    + exact (genetic_mixing_size_check l g H).
  - intros l' g' R.
    destruct (Nat.eq_dec (length l) 10) as [Len|Len].
    2:{ exfalso. destruct (iteration_counter mod 2 =? 0)%nat.
        - unfold lift in R.
          rewrite (weighted_adjustments_size_check l Len) in R.
          discriminate R.
        - rewrite (genetic_mixing_size_check l g Len) in R. discriminate R. }
    split; [exact Len|].
    destruct (iteration_counter mod 2 =? 0)%nat eqn:Par.
    + unfold lift in R.
      destruct (_perform_weighted_parameter_adjustments l) as [ret|e] eqn:Wa;
        [|discriminate R].
      inversion R; subst ret g'. clear R.
      apply (weighted_adjustments_run l l' Len) in Wa.
      destruct Wa as (us & Us & ->).
      destruct (ten_items (list_sort l)) as (s0 & s1 & s2 & s3 & s4 & s5 & s6
                                             & s7 & s8 & s9 & E).
      { rewrite list_sort_length. exact Len. }
      pose proof (Forall2_length Us) as LU.
      destruct (sorted_head_least l s0) as [Hin Hle];
        [rewrite E; reflexivity|].
      rewrite E in LU |- *. cbn [firstn length app] in LU |- *.
      split; [cbn [length]; rewrite <- LU; reflexivity|].
      split; [|reflexivity].
      exists s0. split; [reflexivity|]. split; assumption.
    + apply (genetic_mixing_run l l' g g' Len) in R.
      destruct R as (best & children & Hb & -> & Run).
      pose proof (runs_in_order_length _ _ _ _ Run) as LC.
      cbn [length map mixing_pairs] in LC.
      destruct (sorted_head_least l best Hb) as [Hin Hle].
      split; [cbn [length]; rewrite LC; reflexivity|].
      split.
      * exists best. split; [reflexivity|]. split; assumption.
      * intro Z. apply Nat.eqb_neq in Par. contradiction.
Qed.

Lemma every_generation_witness :
  length (@nil (@GeneticCalibration exactQ)) <> 10%nat
  /\ advance 1 (@nil (@GeneticCalibration exactQ)) tenths = Raise IndexError
  /\ exists l' g',
       advance 2 (repeat weighted_candidate 10) tenths = Ok (l', g')
       /\ length l' = 10%nat.
Proof.
  assert (N : length (@nil (@GeneticCalibration exactQ)) <> 10%nat)
    by (cbn; discriminate).
  split; [exact N|]. split.
  - exact (proj1 (every_generation_keeps_ten_and_the_best 1 [] tenths) N).
  - destruct (advance 2 (repeat weighted_candidate 10) tenths)
      as [[l' g']|e] eqn:A; [|vm_compute in A; discriminate A].
    exists l', g'. split; [reflexivity|].
    exact (proj1 (proj2 (proj2 (every_generation_keeps_ten_and_the_best
                                  2 (repeat weighted_candidate 10) tenths)
                           l' g' A))).
Defined.
